(** * PokéForge: the token/collection protocol of the application controller

    A shallow embedding of [App.tsx], [services/pokemonApiService.ts],
    [services/indexedDbService.ts] and [types.ts].

    - Object stores are finite maps keyed by the record's [id] (the stores
      are created with [keyPath: 'id']).
    - Every [async] function is a computation in a state-and-exception
      monad over a [World]: the IndexedDB contents, the React state, and the
      journal of service calls that have completed.  [await] is the monad's
      bind, a rejected promise is a thrown [JsError].
    - What the program cannot decide itself (whether a transaction commits,
      what [fetch] answers, what the clock and [Math.random] return) is read
      from an [Environment], one answer per request, in request order.
    - An event handler closes over the React state of the render it was
      created in; handlers therefore take that render's state as an explicit
      argument [snap] and write through the state setters of the world.
      [run] and [session] invoke every handler from the latest render,
      [sessionOver] lets each step name the render its handler comes from. *)

From Stdlib Require Import ZArith QArith Qround Ascii String List Bool Lia.
From Stdlib Require Import Sorted.
From stdpp Require Import gmap strings list fin_maps pretty sorting.

Local Open Scope Z_scope.
Local Open Scope string_scope.

(** ** types.ts *)

Inductive PokemonRarity := COMMON | RARE | EPIC | LEGENDARY | MYTHIC.

Inductive PokemonStatus := OWNED | RESOLD.

(** An ISO-8601 string is represented by the instant it denotes, in
    milliseconds since the epoch: [new Date(s).getTime()] and
    [date.toISOString()] are inverse to each other on such strings. *)
Definition Instant := Z.

Definition PokemonRarity_eqb (a b : PokemonRarity) : bool :=
  match a, b with
  | COMMON, COMMON | RARE, RARE | EPIC, EPIC
  | LEGENDARY, LEGENDARY | MYTHIC, MYTHIC => true
  | _, _ => false
  end.

Definition PokemonStatus_eqb (a b : PokemonStatus) : bool :=
  match a, b with
  | OWNED, OWNED | RESOLD, RESOLD => true
  | _, _ => false
  end.

Module Pokemon.
Record t := mk {
  id : string;
  name : string;
  rarity : PokemonRarity;
  imageBase64 : string;
  generatedAt : Instant;
  status : PokemonStatus;
  isFavorite : bool
}.

(** [{ ...pokemon, status: s }] *)
Definition with_status (p : t) (s : PokemonStatus) : t :=
  mk (id p) (name p) (rarity p) (imageBase64 p) (generatedAt p) s (isFavorite p).

(** [{ ...pokemon, isFavorite: b }] *)
Definition with_isFavorite (p : t) (b : bool) : t :=
  mk (id p) (name p) (rarity p) (imageBase64 p) (generatedAt p) (status p) b.
End Pokemon.

Module TokenBalance.
(** [id] is the fixed key ['tokenBalance'] of the row.  [amount] is a
    JavaScript number that only ever holds integers. *)
Record t := mk { amount : Z }.
End TokenBalance.

Module DailyBonusStatus.
(** [id] is the fixed key ['dailyBonus'] of the row. *)
Record t := mk { lastClaimed : Instant }.
End DailyBonusStatus.

Inductive Theme := light | dark.

Module PlayerSettings.
(** [id] is the fixed key ['playerSettings'] of the row. *)
Record t := mk { theme : Theme; isMuted : bool; playerName : string }.
End PlayerSettings.

Module Achievement.
Record t := mk {
  id : string;
  name : string;
  description : string;
  unlocked : bool;
  unlockedAt : option Instant
}.
End Achievement.

Module AchievementDef.
(** [Omit<Achievement, 'unlocked' | 'unlockedAt'>] *)
Record t := mk { id : string; name : string; description : string }.
End AchievementDef.

Inductive MessageType := success | error | warning.

Record AppMessage := { msg_type : MessageType; msg_text : string }.

(** A thrown JavaScript value: [name] tells [AbortError], [TypeError],
    [Error], ... apart, as the source does. *)
Record JsError := { error_name : string; error_message : string }.

Definition Error (message : string) : JsError :=
  {| error_name := "Error"; error_message := message |}.

(** ** The local store (IndexedDB) *)

(** The [settings] store holds three rows under fixed keys. *)
Record SettingsStore := {
  tokenBalanceRow : option TokenBalance.t;
  dailyBonusRow : option DailyBonusStatus.t;
  playerSettingsRow : option PlayerSettings.t
}.

Record Database := {
  pokemonsStore : gmap string Pokemon.t;
  settingsStore : SettingsStore;
  achievementsStore : gmap string Achievement.t
}.

Definition emptyDatabase : Database :=
  {| pokemonsStore := ∅;
     settingsStore := {| tokenBalanceRow := None; dailyBonusRow := None;
                         playerSettingsRow := None |};
     achievementsStore := ∅ |}.

(** ** The remote endpoint, as [fetch] shows it *)

Record ApiMetadata := {
  meta_id : option string;
  meta_name : option string;
  meta_rarity : option string
}.

(** The parsed body.  A field is [None] when the property is missing;
    [api_error_message] is [error.message] of an [ApiErrorResponse]. *)
Record ApiData := {
  api_imageBase64 : option string;
  api_metadata : option ApiMetadata;
  api_generatedAt : option Instant;
  api_error_message : option string
}.

Inductive JsonBody :=
| BodyUnparseable (e : JsError)   (* [res.json()] rejects *)
| BodyNull                        (* the body is JSON [null] *)
| BodyObject (d : ApiData).

Inductive FetchOutcome :=
| FetchRejected (e : JsError)     (* [fetch] rejects: abort, network, ... *)
| FetchResponse (ok : bool) (http_status : Z) (body : JsonBody).

(** ** What the program does not decide *)

Record Environment := {
  (** the n-th store request: [None] commits, [Some e] rejects with [e] *)
  transactionOutcome : nat -> option JsError;
  (** the n-th [fetch] *)
  fetchOutcome : nat -> FetchOutcome;
  (** the n-th [new Date()] *)
  clock : nat -> Instant;
  (** the n-th [Math.random()], a number in [0, 1) *)
  mathRandom : nat -> Q;
  (** [Date.prototype.toDateString]: the local calendar day of an instant *)
  toDateString : Instant -> Z
}.

(** ** The journal of completed service calls

    A call is journalled when its promise settles.  Every call of the
    controller is awaited before its next statement runs, so the journal is
    also in the order of issue.  The remote call is journalled with the
    balance the store held when it was issued. *)

Inductive Call :=
| OpenDatabase
| AddPokemon (p : Pokemon.t)
| GetPokemons
| UpdatePokemon (p : Pokemon.t)
| GetTokenBalance
| UpdateTokenBalance (newAmount : Z)
| GetDailyBonusStatus
| UpdateDailyBonusStatus (s : DailyBonusStatus.t)
| GetPlayerSettings
| UpdatePlayerSettings (s : PlayerSettings.t)
| GetAchievements
| UpdateAchievement (a : Achievement.t)
| GeneratePokemon (persistedAtIssue : option Z).

Record Event := { ev_call : Call; ev_ok : bool }.

Inductive ConsoleLevel := console_warn | console_error | console_log.

(** ** React state of [App] *)

Record UiState := {
  pokemons : list Pokemon.t;
  tokenBalance : Z;
  achievements : list Achievement.t;
  settings : option PlayerSettings.t;
  isLoading : bool;
  isGeneratingPokemon : bool;
  message : option AppMessage;
  isModalOpen : bool;
  isModalConfirmLoading : bool;
  isDailyBonusModalOpen : bool;
  dailyBonusAmount : Z
}.

(** The [useState] initial values. *)
Definition initialUiState : UiState :=
  {| pokemons := []; tokenBalance := 0; achievements := []; settings := None;
     isLoading := true; isGeneratingPokemon := false; message := None;
     isModalOpen := false; isModalConfirmLoading := false;
     isDailyBonusModalOpen := false; dailyBonusAmount := 0 |}.

Record World := {
  env : Environment;
  db : Database;
  ui : UiState;
  journal : list Event;
  console : list (ConsoleLevel * string);
  txCount : nat;
  fetchCount : nat;
  clockCount : nat;
  randomCount : nat
}.

Definition initialWorld (e : Environment) (d : Database) : World :=
  {| env := e; db := d; ui := initialUiState; journal := []; console := [];
     txCount := 0; fetchCount := 0; clockCount := 0; randomCount := 0 |}.

(** ** Promises as a state-and-exception monad *)

Inductive Completion (A : Type) :=
| Resolved (a : A)
| Rejected (e : JsError).
Arguments Resolved {A} a.
Arguments Rejected {A} e.

Definition M (A : Type) : Type := World -> Completion A * World.

Definition ret {A} (a : A) : M A := fun w => (Resolved a, w).

Definition throw {A} (e : JsError) : M A := fun w => (Rejected e, w).

Definition bind {A B} (m : M A) (k : A -> M B) : M B :=
  fun w =>
    match m w with
    | (Resolved a, w') => k a w'
    | (Rejected e, w') => (Rejected e, w')
    end.

Notation "x <- m ;; k" := (bind m (fun x => k))
  (at level 100, m at next level, right associativity).
Notation "m ;; k" := (bind m (fun _ => k))
  (at level 100, right associativity).

(** [try { body } catch (e) { handler e }] *)
Definition try_catch {A} (body : M A) (handler : JsError -> M A) : M A :=
  fun w =>
    match body w with
    | (Resolved a, w') => (Resolved a, w')
    | (Rejected e, w') => handler e w'
    end.

(** [try { body } finally { fin }] *)
Definition try_finally {A} (body : M A) (fin : M unit) : M A :=
  fun w =>
    match body w with
    | (r, w') =>
        match fin w' with
        | (Resolved _, w'') => (r, w'')
        | (Rejected e, w'') => (Rejected e, w'')
        end
    end.

(** The world a computation leaves behind, and what it completed with. *)
Definition exec {A} (m : M A) (w : World) : World := snd (m w).
Definition outcome {A} (m : M A) (w : World) : Completion A := fst (m w).

(** The events a computation appended to the journal of [w]. *)
Definition eventsSince (w w' : World) : list Event :=
  skipn (length (journal w)) (journal w').

(** The persisted balance, if the row exists. *)
Definition persistedBalance (w : World) : option Z :=
  TokenBalance.amount <$> tokenBalanceRow (settingsStore (db w)).

(** *** World updates *)

Definition with_ui (f : UiState -> UiState) (w : World) : World :=
  {| env := env w; db := db w; ui := f (ui w); journal := journal w;
     console := console w; txCount := txCount w; fetchCount := fetchCount w;
     clockCount := clockCount w; randomCount := randomCount w |}.

(** A store request has completed: its event is journalled and the request
    counter advances; [d] is the store it leaves. *)
Definition completeRequest (c : Call) (ok : bool) (d : Database) (w : World) : World :=
  {| env := env w; db := d; ui := ui w;
     journal := journal w ++ [{| ev_call := c; ev_ok := ok |}];
     console := console w; txCount := S (txCount w); fetchCount := fetchCount w;
     clockCount := clockCount w; randomCount := randomCount w |}.

Definition journalEvent (c : Call) (ok : bool) (w : World) : World :=
  {| env := env w; db := db w; ui := ui w;
     journal := journal w ++ [{| ev_call := c; ev_ok := ok |}];
     console := console w; txCount := txCount w; fetchCount := fetchCount w;
     clockCount := clockCount w; randomCount := randomCount w |}.

Definition consoleWrite (level : ConsoleLevel) (text : string) : M unit :=
  fun w =>
    (Resolved tt,
     {| env := env w; db := db w; ui := ui w; journal := journal w;
        console := console w ++ [(level, text)]; txCount := txCount w;
        fetchCount := fetchCount w; clockCount := clockCount w;
        randomCount := randomCount w |}).

(** [new Date()] *)
Definition newDate : M Instant :=
  fun w =>
    (Resolved (clock (env w) (clockCount w)),
     {| env := env w; db := db w; ui := ui w; journal := journal w;
        console := console w; txCount := txCount w; fetchCount := fetchCount w;
        clockCount := S (clockCount w); randomCount := randomCount w |}).

(** [Math.random()] *)
Definition random : M Q :=
  fun w =>
    (Resolved (mathRandom (env w) (randomCount w)),
     {| env := env w; db := db w; ui := ui w; journal := journal w;
        console := console w; txCount := txCount w; fetchCount := fetchCount w;
        clockCount := clockCount w; randomCount := S (randomCount w) |}).

(** [fetch(url, ...)], bounded by the abort timer *)
Definition fetch : M FetchOutcome :=
  fun w =>
    (Resolved (fetchOutcome (env w) (fetchCount w)),
     {| env := env w; db := db w; ui := ui w; journal := journal w;
        console := console w; txCount := txCount w;
        fetchCount := S (fetchCount w); clockCount := clockCount w;
        randomCount := randomCount w |}).

(** *** State setters *)

Definition setState (f : UiState -> UiState) : M unit :=
  fun w => (Resolved tt, with_ui f w).

Definition put_pokemons (v : list Pokemon.t) (s : UiState) : UiState :=
  {| pokemons := v; tokenBalance := tokenBalance s; achievements := achievements s;
     settings := settings s; isLoading := isLoading s;
     isGeneratingPokemon := isGeneratingPokemon s; message := message s;
     isModalOpen := isModalOpen s; isModalConfirmLoading := isModalConfirmLoading s;
     isDailyBonusModalOpen := isDailyBonusModalOpen s;
     dailyBonusAmount := dailyBonusAmount s |}.

Definition put_tokenBalance (v : Z) (s : UiState) : UiState :=
  {| pokemons := pokemons s; tokenBalance := v; achievements := achievements s;
     settings := settings s; isLoading := isLoading s;
     isGeneratingPokemon := isGeneratingPokemon s; message := message s;
     isModalOpen := isModalOpen s; isModalConfirmLoading := isModalConfirmLoading s;
     isDailyBonusModalOpen := isDailyBonusModalOpen s;
     dailyBonusAmount := dailyBonusAmount s |}.

Definition put_achievements (v : list Achievement.t) (s : UiState) : UiState :=
  {| pokemons := pokemons s; tokenBalance := tokenBalance s; achievements := v;
     settings := settings s; isLoading := isLoading s;
     isGeneratingPokemon := isGeneratingPokemon s; message := message s;
     isModalOpen := isModalOpen s; isModalConfirmLoading := isModalConfirmLoading s;
     isDailyBonusModalOpen := isDailyBonusModalOpen s;
     dailyBonusAmount := dailyBonusAmount s |}.

Definition put_settings (v : option PlayerSettings.t) (s : UiState) : UiState :=
  {| pokemons := pokemons s; tokenBalance := tokenBalance s;
     achievements := achievements s; settings := v; isLoading := isLoading s;
     isGeneratingPokemon := isGeneratingPokemon s; message := message s;
     isModalOpen := isModalOpen s; isModalConfirmLoading := isModalConfirmLoading s;
     isDailyBonusModalOpen := isDailyBonusModalOpen s;
     dailyBonusAmount := dailyBonusAmount s |}.

Definition put_isLoading (v : bool) (s : UiState) : UiState :=
  {| pokemons := pokemons s; tokenBalance := tokenBalance s;
     achievements := achievements s; settings := settings s; isLoading := v;
     isGeneratingPokemon := isGeneratingPokemon s; message := message s;
     isModalOpen := isModalOpen s; isModalConfirmLoading := isModalConfirmLoading s;
     isDailyBonusModalOpen := isDailyBonusModalOpen s;
     dailyBonusAmount := dailyBonusAmount s |}.

Definition put_isGeneratingPokemon (v : bool) (s : UiState) : UiState :=
  {| pokemons := pokemons s; tokenBalance := tokenBalance s;
     achievements := achievements s; settings := settings s;
     isLoading := isLoading s; isGeneratingPokemon := v; message := message s;
     isModalOpen := isModalOpen s; isModalConfirmLoading := isModalConfirmLoading s;
     isDailyBonusModalOpen := isDailyBonusModalOpen s;
     dailyBonusAmount := dailyBonusAmount s |}.

Definition put_message (v : option AppMessage) (s : UiState) : UiState :=
  {| pokemons := pokemons s; tokenBalance := tokenBalance s;
     achievements := achievements s; settings := settings s;
     isLoading := isLoading s; isGeneratingPokemon := isGeneratingPokemon s;
     message := v; isModalOpen := isModalOpen s;
     isModalConfirmLoading := isModalConfirmLoading s;
     isDailyBonusModalOpen := isDailyBonusModalOpen s;
     dailyBonusAmount := dailyBonusAmount s |}.

Definition put_isModalOpen (v : bool) (s : UiState) : UiState :=
  {| pokemons := pokemons s; tokenBalance := tokenBalance s;
     achievements := achievements s; settings := settings s;
     isLoading := isLoading s; isGeneratingPokemon := isGeneratingPokemon s;
     message := message s; isModalOpen := v;
     isModalConfirmLoading := isModalConfirmLoading s;
     isDailyBonusModalOpen := isDailyBonusModalOpen s;
     dailyBonusAmount := dailyBonusAmount s |}.

Definition put_isModalConfirmLoading (v : bool) (s : UiState) : UiState :=
  {| pokemons := pokemons s; tokenBalance := tokenBalance s;
     achievements := achievements s; settings := settings s;
     isLoading := isLoading s; isGeneratingPokemon := isGeneratingPokemon s;
     message := message s; isModalOpen := isModalOpen s;
     isModalConfirmLoading := v;
     isDailyBonusModalOpen := isDailyBonusModalOpen s;
     dailyBonusAmount := dailyBonusAmount s |}.

Definition put_isDailyBonusModalOpen (v : bool) (s : UiState) : UiState :=
  {| pokemons := pokemons s; tokenBalance := tokenBalance s;
     achievements := achievements s; settings := settings s;
     isLoading := isLoading s; isGeneratingPokemon := isGeneratingPokemon s;
     message := message s; isModalOpen := isModalOpen s;
     isModalConfirmLoading := isModalConfirmLoading s;
     isDailyBonusModalOpen := v; dailyBonusAmount := dailyBonusAmount s |}.

Definition put_dailyBonusAmount (v : Z) (s : UiState) : UiState :=
  {| pokemons := pokemons s; tokenBalance := tokenBalance s;
     achievements := achievements s; settings := settings s;
     isLoading := isLoading s; isGeneratingPokemon := isGeneratingPokemon s;
     message := message s; isModalOpen := isModalOpen s;
     isModalConfirmLoading := isModalConfirmLoading s;
     isDailyBonusModalOpen := isDailyBonusModalOpen s; dailyBonusAmount := v |}.

Definition setPokemons (v : list Pokemon.t) : M unit := setState (put_pokemons v).
(** [setPokemons(prev => f prev)] *)
Definition updatePokemons (f : list Pokemon.t -> list Pokemon.t) : M unit :=
  setState (fun s => put_pokemons (f (pokemons s)) s).
Definition setTokenBalance (v : Z) : M unit := setState (put_tokenBalance v).
Definition setAchievements (v : list Achievement.t) : M unit :=
  setState (put_achievements v).
(** [setAchievements(prev => f prev)] *)
Definition updateAchievements (f : list Achievement.t -> list Achievement.t) : M unit :=
  setState (fun s => put_achievements (f (achievements s)) s).
Definition setSettings (v : option PlayerSettings.t) : M unit :=
  setState (put_settings v).
Definition setIsLoading (v : bool) : M unit := setState (put_isLoading v).
Definition setIsGeneratingPokemon (v : bool) : M unit :=
  setState (put_isGeneratingPokemon v).
Definition setMessage (v : option AppMessage) : M unit := setState (put_message v).
Definition setIsModalOpen (v : bool) : M unit := setState (put_isModalOpen v).
Definition setIsModalConfirmLoading (v : bool) : M unit :=
  setState (put_isModalConfirmLoading v).
Definition setIsDailyBonusModalOpen (v : bool) : M unit :=
  setState (put_isDailyBonusModalOpen v).
Definition setDailyBonusAmount (v : Z) : M unit := setState (put_dailyBonusAmount v).

(** ** services/indexedDbService.ts *)

Module indexedDbService.

(** One service call: the handle is opened if need be, the transaction
    runs [body] on the store, and the promise settles.  When the
    environment rejects the request, or [body] itself fails, the
    transaction aborts and the store is left as it was. *)
Definition withTransaction {A} (c : Call)
    (body : Database -> Completion A * Database) : M A :=
  fun w =>
    match transactionOutcome (env w) (txCount w) with
    | Some e => (Rejected e, completeRequest c false (db w) w)
    | None =>
        match body (db w) with
        | (Resolved a, d') => (Resolved a, completeRequest c true d' w)
        | (Rejected e, _) => (Rejected e, completeRequest c false (db w) w)
        end
    end.

Definition openDatabase : M unit :=
  withTransaction OpenDatabase (fun d => (Resolved tt, d)).

Definition put_pokemonsStore (m : gmap string Pokemon.t) (d : Database) : Database :=
  {| pokemonsStore := m; settingsStore := settingsStore d;
     achievementsStore := achievementsStore d |}.

Definition put_settingsStore (s : SettingsStore) (d : Database) : Database :=
  {| pokemonsStore := pokemonsStore d; settingsStore := s;
     achievementsStore := achievementsStore d |}.

Definition put_achievementsStore (m : gmap string Achievement.t) (d : Database) : Database :=
  {| pokemonsStore := pokemonsStore d; settingsStore := settingsStore d;
     achievementsStore := m |}.

(** [store.add] on a key that is taken fails with a [ConstraintError]. *)
Definition ConstraintError : JsError :=
  {| error_name := "ConstraintError";
     error_message := "Key already exists in the object store." |}.

Definition addPokemon (pokemon : Pokemon.t) : M Pokemon.t :=
  withTransaction (AddPokemon pokemon) (fun d =>
    match pokemonsStore d !! Pokemon.id pokemon with
    | Some _ => (Rejected ConstraintError, d)
    | None =>
        (Resolved pokemon,
         put_pokemonsStore (<[Pokemon.id pokemon := pokemon]> (pokemonsStore d)) d)
    end).

(** [store.getAll()]: the records in ascending order of their keys.  The
    keys are strings, compared character by character. *)
Definition getAll {V} (store : gmap string V) : list V :=
  snd <$> merge_sort (fun x y : string * V => String.leb x.1 y.1 = true)
            (H := fun x y => bool_eq_dec (String.leb x.1 y.1) true)
            (map_to_list store).
Arguments getAll : simpl never.

Definition getPokemons : M (list Pokemon.t) :=
  withTransaction GetPokemons (fun d => (Resolved (getAll (pokemonsStore d)), d)).

Definition updatePokemon (pokemon : Pokemon.t) : M Pokemon.t :=
  withTransaction (UpdatePokemon pokemon) (fun d =>
    (Resolved pokemon,
     put_pokemonsStore (<[Pokemon.id pokemon := pokemon]> (pokemonsStore d)) d)).

Definition getTokenBalance : M TokenBalance.t :=
  withTransaction GetTokenBalance (fun d =>
    match tokenBalanceRow (settingsStore d) with
    | None =>
        let initialBalance := TokenBalance.mk 100 in
        (Resolved initialBalance,
         put_settingsStore
           {| tokenBalanceRow := Some initialBalance;
              dailyBonusRow := dailyBonusRow (settingsStore d);
              playerSettingsRow := playerSettingsRow (settingsStore d) |} d)
    | Some balance => (Resolved balance, d)
    end).

Definition updateTokenBalance (newAmount : Z) : M TokenBalance.t :=
  let newBalance := TokenBalance.mk newAmount in
  withTransaction (UpdateTokenBalance newAmount) (fun d =>
    (Resolved newBalance,
     put_settingsStore
       {| tokenBalanceRow := Some newBalance;
          dailyBonusRow := dailyBonusRow (settingsStore d);
          playerSettingsRow := playerSettingsRow (settingsStore d) |} d)).

Definition getDailyBonusStatus : M (option DailyBonusStatus.t) :=
  withTransaction GetDailyBonusStatus (fun d =>
    (Resolved (dailyBonusRow (settingsStore d)), d)).

Definition updateDailyBonusStatus (status : DailyBonusStatus.t) : M DailyBonusStatus.t :=
  withTransaction (UpdateDailyBonusStatus status) (fun d =>
    (Resolved status,
     put_settingsStore
       {| tokenBalanceRow := tokenBalanceRow (settingsStore d);
          dailyBonusRow := Some status;
          playerSettingsRow := playerSettingsRow (settingsStore d) |} d)).

Definition getPlayerSettings : M PlayerSettings.t :=
  withTransaction GetPlayerSettings (fun d =>
    match playerSettingsRow (settingsStore d) with
    | None =>
        let defaultSettings := PlayerSettings.mk dark true "Ash" in
        (Resolved defaultSettings,
         put_settingsStore
           {| tokenBalanceRow := tokenBalanceRow (settingsStore d);
              dailyBonusRow := dailyBonusRow (settingsStore d);
              playerSettingsRow := Some defaultSettings |} d)
    | Some s => (Resolved s, d)
    end).

Definition updatePlayerSettings (s : PlayerSettings.t) : M PlayerSettings.t :=
  withTransaction (UpdatePlayerSettings s) (fun d =>
    (Resolved s,
     put_settingsStore
       {| tokenBalanceRow := tokenBalanceRow (settingsStore d);
          dailyBonusRow := dailyBonusRow (settingsStore d);
          playerSettingsRow := Some s |} d)).

Definition getAchievements : M (list Achievement.t) :=
  withTransaction GetAchievements (fun d => (Resolved (getAll (achievementsStore d)), d)).

Definition updateAchievement (achievement : Achievement.t) : M Achievement.t :=
  withTransaction (UpdateAchievement achievement) (fun d =>
    (Resolved achievement,
     put_achievementsStore
       (<[Achievement.id achievement := achievement]> (achievementsStore d)) d)).

End indexedDbService.

(** ** The schema: [StoreNames], [DB_VERSION] and the upgrade of [openDatabase] *)

Module StoreNames.
(** ['pokemons'], ['settings'], ['achievements'] *)
Inductive t := Pokemons | Settings | Achievements.
End StoreNames.

Definition DB_VERSION : Z := 3.

(** [request.onupgradeneeded] of [openDatabase], run by the browser when the
    stored version [oldVersion] is below [DB_VERSION] (0 for a database that
    does not exist yet).  [objectStoreNames] tells which stores the database
    has when the upgrade starts; the result lists the stores the handler
    creates with [createObjectStore], in the order of creation. *)
Definition onupgradeneeded (oldVersion : Z) (objectStoreNames : StoreNames.t -> bool)
    : list StoreNames.t :=
  ((if (oldVersion <? 2)%Z then
      (if negb (objectStoreNames StoreNames.Pokemons) then [StoreNames.Pokemons] else [])
      ++ (if negb (objectStoreNames StoreNames.Settings) then [StoreNames.Settings] else [])
    else [])
   ++ (if (oldVersion <? 3)%Z then
         if negb (objectStoreNames StoreNames.Achievements)
         then [StoreNames.Achievements] else []
       else []))%list.


(** ** services/pokemonApiService.ts *)

Module pokemonApiService.

Definition API_BASE_URL : string := "https://epsi.journeesdecouverte.fr:22222/v1".
Definition REQUEST_TIMEOUT : Z := 30000.

Definition dquote : string := String "034"%char EmptyString.

(** JavaScript truthiness of a string property: present and not empty. *)
Definition truthy (o : option string) : bool :=
  match o with
  | Some (String _ _) => true
  | _ => false
  end.

Definition mapApiRarityToEnum (apiRarity : string) : M PokemonRarity :=
  if (apiRarity =? "F") || (apiRarity =? "E") then ret COMMON
  else if (apiRarity =? "D") || (apiRarity =? "C") then ret RARE
  else if apiRarity =? "B" then ret EPIC
  else if (apiRarity =? "A") || (apiRarity =? "S") then ret LEGENDARY
  else if apiRarity =? "S+" then ret MYTHIC
  else
    consoleWrite console_warn
      ("Unknown rarity received from API: " ++ dquote ++ apiRarity ++ dquote
       ++ ". Defaulting to Common.") ;;
    ret COMMON.

Definition invalidFormat : JsError :=
  Error "Invalid API response format received: missing expected fields.".

Definition timedOut : JsError :=
  Error ("The Pokémon generation request timed out after "
         ++ pretty (REQUEST_TIMEOUT / 1000)
         ++ " seconds. The API might be busy, please try again later.").

Definition couldNotConnect : JsError :=
  Error ("Could not connect to the Pokémon API. This might be a network issue, the API server being down, or a self-signed HTTPS certificate. If the API uses a self-signed certificate, please try opening "
         ++ API_BASE_URL ++ "/generate"
         ++ " in a new browser tab and accepting the security warning, then refresh this page. Also, verify the API server has correct CORS configuration for your client application's origin.").

(** The body of [generatePokemon] inside its [try]. *)
Definition requestPokemon : M Pokemon.t :=
  res <- fetch ;;
  match res with
  | FetchRejected e => throw e
  | FetchResponse ok http_status body =>
      if negb ok then
        errorMessage <-
          match body with
          | BodyUnparseable _ =>
              (* the object of the [catch] callback, with its [timestamp] *)
              newDate ;;
              ret (Some ("HTTP error! Status: " ++ pretty http_status))
          | BodyNull => ret None
          | BodyObject d => ret (api_error_message d)
          end ;;
        consoleWrite console_error "API Error Response:" ;;
        throw (Error (match errorMessage with
                      | Some (String c s) => String c s
                      | _ => "Failed to generate Pokémon (HTTP "
                             ++ pretty http_status ++ ")"
                      end))
      else
        match body with
        | BodyUnparseable e => throw e
        | BodyNull => throw invalidFormat
        | BodyObject data =>
            match api_imageBase64 data, api_metadata data, api_generatedAt data with
            | Some image, Some metadata, Some generatedAt =>
                match meta_id metadata, meta_name metadata, meta_rarity metadata with
                | Some id, Some name, Some apiRarity =>
                    if truthy (Some image) && truthy (Some id) && truthy (Some name)
                       && truthy (Some apiRarity)
                    then
                      rarity <- mapApiRarityToEnum apiRarity ;;
                      ret (Pokemon.mk id name rarity image generatedAt OWNED false)
                    else throw invalidFormat
                | _, _, _ => throw invalidFormat
                end
            | _, _, _ => throw invalidFormat
            end
        end
  end.

(** [generatePokemon]: the call is journalled when its promise settles. *)
Definition generatePokemon : M Pokemon.t :=
  fun w =>
    match
      try_catch requestPokemon (fun error =>
        consoleWrite console_error "Network or API processing error:" ;;
        if error_name error =? "AbortError" then throw timedOut
        else if (error_name error =? "TypeError")
                && (error_message error =? "Failed to fetch")
        then throw couldNotConnect
        else throw error) w
    with
    | (Resolved p, w') =>
        (Resolved p, journalEvent (GeneratePokemon (persistedBalance w)) true w')
    | (Rejected e, w') =>
        (Rejected e, journalEvent (GeneratePokemon (persistedBalance w)) false w')
    end.

End pokemonApiService.

(** ** App.tsx *)

Definition GENERATION_COST : Z := 10.
Definition INITIAL_TOKENS : Z := 100.

Definition ALL_ACHIEVEMENTS : list AchievementDef.t :=
  [ AchievementDef.mk "FIRST_FORGE" "Première Forge" "Générer votre premier Pokémon.";
    AchievementDef.mk "TEN_FORGES" "Forgeron Amateur" "Générer 10 Pokémon.";
    AchievementDef.mk "FIRST_SALE" "Premier Profit" "Revendre un Pokémon sur le marché.";
    AchievementDef.mk "LEGENDARY_FORGE" "Main de Midas"
      "Générer un Pokémon Légendaire ou Mythique." ].

(** [showMessage]: the message is set; the timer that clears it five
    seconds later is not part of the model. *)
Definition showMessage (type : MessageType) (text : string) : M unit :=
  setMessage (Some {| msg_type := type; msg_text := text |}).

(** [Array.prototype.findIndex]; [None] stands for [-1]. *)
Fixpoint findIndex {A} (f : A -> bool) (l : list A) : option nat :=
  match l with
  | [] => None
  | x :: l' => if f x then Some 0%nat else S <$> findIndex f l'
  end.

(** [Array.prototype.some] *)
Definition some {A} (f : A -> bool) (l : list A) : bool := existsb f l.

(** The [switch] of [checkAndUnlockAchievements]. *)
Definition shouldUnlock (id : string) (currentPokemons : list Pokemon.t) : bool :=
  if id =? "FIRST_FORGE" then (1 <=? length currentPokemons)%nat
  else if id =? "TEN_FORGES" then (10 <=? length currentPokemons)%nat
  else if id =? "FIRST_SALE" then
    some (fun p => PokemonStatus_eqb (Pokemon.status p) RESOLD) currentPokemons
  else if id =? "LEGENDARY_FORGE" then
    some (fun p => PokemonRarity_eqb (Pokemon.rarity p) LEGENDARY
                   || PokemonRarity_eqb (Pokemon.rarity p) MYTHIC) currentPokemons
  else false.

(** [currentAchievements.find(a => a.id === id)] *)
Definition findAchievement (id : string) (l : list Achievement.t) : option Achievement.t :=
  find (fun a => Achievement.id a =? id) l.

Definition alreadyUnlocked (id : string) (currentAchievements : list Achievement.t) : bool :=
  match findAchievement id currentAchievements with
  | Some existingAchievement => Achievement.unlocked existingAchievement
  | None => false
  end.

(** [{ ...achievementDef, unlocked: true, unlockedAt: now.toISOString() }] *)
Definition unlockedRecord (achievementDef : AchievementDef.t) (now : Instant)
    : Achievement.t :=
  Achievement.mk (AchievementDef.id achievementDef)
    (AchievementDef.name achievementDef)
    (AchievementDef.description achievementDef) true (Some now).

(** The [for ... of] loop over the definitions; the result is
    [unlockedAchievements]. *)
Fixpoint unlockLoop (defs : list AchievementDef.t)
    (currentPokemons : list Pokemon.t) (currentAchievements : list Achievement.t)
    (unlockedAchievements : list Achievement.t) : M (list Achievement.t) :=
  match defs with
  | [] => ret unlockedAchievements
  | achievementDef :: rest =>
      if alreadyUnlocked (AchievementDef.id achievementDef) currentAchievements
      then unlockLoop rest currentPokemons currentAchievements unlockedAchievements
      else if shouldUnlock (AchievementDef.id achievementDef) currentPokemons then
        now <- newDate ;;
        let newAchievement := unlockedRecord achievementDef now in
        indexedDbService.updateAchievement newAchievement ;;
        showMessage success
          ("Succès débloqué : " ++ Achievement.name newAchievement ++ " !") ;;
        unlockLoop rest currentPokemons currentAchievements
          (unlockedAchievements ++ [newAchievement])
      else unlockLoop rest currentPokemons currentAchievements unlockedAchievements
  end.

(** The body of [unlockedAchievements.forEach]. *)
Definition mergeOne (updated : list Achievement.t) (unlocked : Achievement.t)
    : list Achievement.t :=
  match findIndex (fun a => Achievement.id a =? Achievement.id unlocked) updated with
  | Some index => <[index := unlocked]> updated
  | None => (updated ++ [unlocked])%list
  end.

(** The updater passed to [setAchievements]. *)
Definition mergeUnlocked (unlockedAchievements prev : list Achievement.t)
    : list Achievement.t :=
  fold_left mergeOne unlockedAchievements prev.

Definition checkAndUnlockAchievements (currentPokemons : list Pokemon.t)
    (currentAchievements : list Achievement.t) : M unit :=
  unlockedAchievements <-
    unlockLoop ALL_ACHIEVEMENTS currentPokemons currentAchievements [] ;;
  match unlockedAchievements with
  | [] => ret tt
  | _ :: _ => updateAchievements (mergeUnlocked unlockedAchievements)
  end.

(** [list.sort((a, b) => time(b.generatedAt) - time(a.generatedAt))]: a
    stable sort, most recent first. *)
Fixpoint insertByGeneratedAt (p : Pokemon.t) (l : list Pokemon.t) : list Pokemon.t :=
  match l with
  | [] => [p]
  | q :: l' =>
      if (Pokemon.generatedAt q <=? Pokemon.generatedAt p)%Z then p :: q :: l'
      else q :: insertByGeneratedAt p l'
  end.

Definition sortByGeneratedAt (l : list Pokemon.t) : list Pokemon.t :=
  foldr insertByGeneratedAt [] l.

(** [p] settled, whatever the outcome: an arm of [Promise.all]. *)
Definition settled {A} (p : M A) : M (Completion A) :=
  fun w => let (r, w') := p w in (Resolved r, w').

(** [await] of a promise that has settled. *)
Definition awaitSettled {A} (r : Completion A) : M A :=
  match r with
  | Resolved a => ret a
  | Rejected e => throw e
  end.

(** [new Map(l.map(a => [a.id, a]))]: a later entry replaces an earlier one. *)
Definition achievementsMap (l : list Achievement.t) : gmap string Achievement.t :=
  fold_left (fun m a => <[Achievement.id a := a]> m) l ∅.

Definition fetchAppData : M unit :=
  setIsLoading true ;;
  try_finally
    (try_catch
       (indexedDbService.openDatabase ;;
        (* the five requests of [Promise.all] are all issued *)
        r1 <- settled indexedDbService.getPokemons ;;
        r2 <- settled indexedDbService.getTokenBalance ;;
        r3 <- settled indexedDbService.getAchievements ;;
        r4 <- settled indexedDbService.getDailyBonusStatus ;;
        r5 <- settled indexedDbService.getPlayerSettings ;;
        fetchedPokemons0 <- awaitSettled r1 ;;
        balance <- awaitSettled r2 ;;
        fetchedAchievements <- awaitSettled r3 ;;
        bonusStatus <- awaitSettled r4 ;;
        playerSettings <- awaitSettled r5 ;;
        (* [sort] works in place: [fetchedPokemons] is the sorted array *)
        let fetchedPokemons := sortByGeneratedAt fetchedPokemons0 in
        setPokemons fetchedPokemons ;;
        setTokenBalance (TokenBalance.amount balance) ;;
        setSettings (Some playerSettings) ;;
        todayDate <- newDate ;;
        (fun w =>
           let today := toDateString (env w) todayDate in
           if match bonusStatus with
              | None => true
              | Some b =>
                  negb (toDateString (env w) (DailyBonusStatus.lastClaimed b) =? today)%Z
              end
           then
             (r <- random ;;
              setDailyBonusAmount (Qfloor (r * 6)%Q + 5) ;; (* 5 to 10 tokens *)
              setIsDailyBonusModalOpen true) w
           else ret tt w) ;;
        let stored := achievementsMap fetchedAchievements in
        let allAchievements :=
          map (fun def =>
                 match stored !! AchievementDef.id def with
                 | Some a => a
                 | None =>
                     Achievement.mk (AchievementDef.id def) (AchievementDef.name def)
                       (AchievementDef.description def) false None
                 end) ALL_ACHIEVEMENTS in
        setAchievements allAchievements ;;
        checkAndUnlockAchievements fetchedPokemons allAchievements)
       (fun _ =>
          consoleWrite console_error "Failed to fetch app data:" ;;
          showMessage error "Failed to load app data."))
    (setIsLoading false).

Definition handleClaimDailyBonus (snap : UiState) : M unit :=
  let newBalance := tokenBalance snap + dailyBonusAmount snap in
  indexedDbService.updateTokenBalance newBalance ;;
  now <- newDate ;;
  indexedDbService.updateDailyBonusStatus (DailyBonusStatus.mk now) ;;
  setTokenBalance newBalance ;;
  setIsDailyBonusModalOpen false ;;
  showMessage success
    ("Vous avez reçu " ++ pretty (dailyBonusAmount snap) ++ " jetons !").

Definition getResellValue (rarity : PokemonRarity) : Z :=
  match rarity with
  | COMMON => 5
  | RARE => 10
  | EPIC => 20
  | LEGENDARY => 40
  | MYTHIC => 80
  end.

Definition getBuyPrice (rarity : PokemonRarity) : Z := getResellValue rarity * 2.

(** [(error as Error).message || fallback] *)
Definition messageOr (e : JsError) (fallback : string) : string :=
  match error_message e with
  | String c s => String c s
  | EmptyString => fallback
  end.

Definition handleGeneratePokemon (snap : UiState) : M unit :=
  if (tokenBalance snap <? GENERATION_COST)%Z then
    showMessage warning
      ("Il faut " ++ pretty GENERATION_COST ++ " jetons pour générer.")
  else
    setIsGeneratingPokemon true ;;
    let originalTokenBalance := tokenBalance snap in
    try_finally
      (try_catch
         (let newBalanceAfterDeduction := originalTokenBalance - GENERATION_COST in
          setTokenBalance newBalanceAfterDeduction ;;
          indexedDbService.updateTokenBalance newBalanceAfterDeduction ;;
          newPokemon <- pokemonApiService.generatePokemon ;;
          indexedDbService.addPokemon newPokemon ;;
          let updatedPokemons := sortByGeneratedAt (newPokemon :: pokemons snap) in
          setPokemons updatedPokemons ;;
          checkAndUnlockAchievements updatedPokemons (achievements snap) ;;
          showMessage success
            ("Nouveau Pokémon généré : " ++ Pokemon.name newPokemon ++ " !"))
         (fun caught =>
            consoleWrite console_error "Error generating Pokémon:" ;;
            setTokenBalance originalTokenBalance ;;
            indexedDbService.updateTokenBalance originalTokenBalance ;;
            showMessage error
              (messageOr caught "Échec de la génération. Jetons remboursés.")))
      (setIsGeneratingPokemon false).

(** [pokemons.map(p => p.id === updated.id ? updated : p)] *)
Definition replacePokemon (updated : Pokemon.t) (l : list Pokemon.t) : list Pokemon.t :=
  map (fun p => if Pokemon.id p =? Pokemon.id updated then updated else p) l.

(** The callback [handleResellConfirmation] installs as [modalOnConfirm]; it
    closes over the render in which the dialog was opened. *)
Definition resellOnConfirm (snap : UiState) (pokemon : Pokemon.t) : M unit :=
  let resellValue := getResellValue (Pokemon.rarity pokemon) in
  setIsModalConfirmLoading true ;;
  try_finally
    (try_catch
       (let updatedPokemon := Pokemon.with_status pokemon RESOLD in
        indexedDbService.updatePokemon updatedPokemon ;;
        let newBalance := tokenBalance snap + resellValue in
        indexedDbService.updateTokenBalance newBalance ;;
        let updatedPokemons := replacePokemon updatedPokemon (pokemons snap) in
        setPokemons updatedPokemons ;;
        setTokenBalance newBalance ;;
        checkAndUnlockAchievements updatedPokemons (achievements snap) ;;
        showMessage success
          (Pokemon.name pokemon ++ " revendu ! +" ++ pretty resellValue ++ " jetons."))
       (fun _ => showMessage error "Échec de la revente."))
    (setIsModalConfirmLoading false ;; setIsModalOpen false).

(** [handleResellConfirmation]: opens the dialog (title, text and button
    style are presentation). *)
Definition handleResellConfirmation (snap : UiState) (pokemon : Pokemon.t) : M unit :=
  setIsModalOpen true.

Definition handleToggleFavorite (snap : UiState) (pokemonId : string) : M unit :=
  match find (fun p => Pokemon.id p =? pokemonId) (pokemons snap) with
  | None => ret tt
  | Some pokemon =>
      let updatedPokemon :=
        Pokemon.with_isFavorite pokemon (negb (Pokemon.isFavorite pokemon)) in
      try_catch
        (indexedDbService.updatePokemon updatedPokemon ;;
         setPokemons
           (map (fun p => if Pokemon.id p =? pokemonId then updatedPokemon else p)
              (pokemons snap)))
        (fun _ => showMessage error "Failed to update favorite status.")
  end.

Definition handleBuyPokemon (snap : UiState) (pokemon : Pokemon.t) : M unit :=
  let buyPrice := getBuyPrice (Pokemon.rarity pokemon) in
  if (tokenBalance snap <? buyPrice)%Z then
    showMessage warning
      ("Pas assez de jetons. Il vous faut " ++ pretty buyPrice ++ " jetons.")
  else
    try_catch
      (let updatedPokemon := Pokemon.with_status pokemon OWNED in
       indexedDbService.updatePokemon updatedPokemon ;;
       let newBalance := tokenBalance snap - buyPrice in
       indexedDbService.updateTokenBalance newBalance ;;
       updatePokemons (replacePokemon updatedPokemon) ;;
       setTokenBalance newBalance ;;
       showMessage success
         (Pokemon.name pokemon ++ " acheté ! -" ++ pretty buyPrice ++ " jetons."))
      (fun _ => showMessage error "Échec de l'achat.").

(** ** User intents, one after the other

    Each intent is dispatched from the latest render, and the next one is
    dispatched once the previous protocol has settled. *)

Inductive Intent :=
| Generate
| Resell (pokemon : Pokemon.t)
| Buy (pokemon : Pokemon.t).

Definition dispatch (i : Intent) : M unit :=
  fun w =>
    match i with
    | Generate => handleGeneratePokemon (ui w) w
    | Resell pokemon =>
        (handleResellConfirmation (ui w) pokemon ;; resellOnConfirm (ui w) pokemon) w
    | Buy pokemon => handleBuyPokemon (ui w) pokemon w
    end.

Fixpoint run (intents : list Intent) (w : World) : World :=
  match intents with
  | [] => w
  | i :: rest => run rest (exec (dispatch i) w)
  end.

(** ** App.tsx: settings, views and cards *)

Module View.
(** ['studio' | 'collection' | 'market' | 'achievements' | 'leaderboard'] *)
Inductive t := studio | collection | market | achievements | leaderboard.

Definition eqb (a b : t) : bool :=
  match a, b with
  | studio, studio | collection, collection | market, market
  | achievements, achievements | leaderboard, leaderboard => true
  | _, _ => false
  end.
End View.

(** [PokemonStatus | 'ALL' | 'FAVORITES'] *)
Inductive CollectionFilter :=
| FilterStatus (s : PokemonStatus)
| FilterAll
| FilterFavorites.

Definition handleToggleTheme (snap : UiState) : M unit :=
  match settings snap with
  | None => ret tt
  | Some s =>
      let newTheme :=
        match PlayerSettings.theme s with dark => light | light => dark end in
      let newSettings :=
        PlayerSettings.mk newTheme (PlayerSettings.isMuted s)
          (PlayerSettings.playerName s) in
      setSettings (Some newSettings) ;;
      indexedDbService.updatePlayerSettings newSettings ;;
      ret tt
  end.

Definition handleToggleMute (snap : UiState) : M unit :=
  match settings snap with
  | None => ret tt
  | Some s =>
      let newSettings :=
        PlayerSettings.mk (PlayerSettings.theme s) (negb (PlayerSettings.isMuted s))
          (PlayerSettings.playerName s) in
      setSettings (Some newSettings) ;;
      indexedDbService.updatePlayerSettings newSettings ;;
      ret tt
  end.

(** The effect on [settings?.theme]: whether the document root carries the
    class [dark] once the effect has run. *)
Definition darkClass (s : option PlayerSettings.t) : bool :=
  match s with
  | Some s => match PlayerSettings.theme s with dark => true | light => false end
  | None => false
  end.

(** The props [App] hands to [Header]: [settings?.theme || 'dark'] and
    [settings?.isMuted || true]. *)
Definition headerTheme (s : option PlayerSettings.t) : Theme :=
  match s with
  | Some s => PlayerSettings.theme s
  | None => dark
  end.

Definition headerIsMuted (s : option PlayerSettings.t) : bool :=
  match s with
  | Some s => PlayerSettings.isMuted s
  | None => false
  end || true.

(** [collectionPokemons] *)
Definition collectionPokemons (pokemons : list Pokemon.t)
    (collectionFilter : CollectionFilter) : list Pokemon.t :=
  List.filter
    (fun p =>
       match collectionFilter with
       | FilterAll => true
       | FilterFavorites =>
           Pokemon.isFavorite p && PokemonStatus_eqb (Pokemon.status p) OWNED
       | FilterStatus s => PokemonStatus_eqb (Pokemon.status p) s
       end) pokemons.

(** [marketPokemons]; [None] is the filter ['ALL']. *)
Definition marketPokemons (pokemons : list Pokemon.t)
    (marketRarityFilter : option PokemonRarity) : list Pokemon.t :=
  List.filter
    (fun p =>
       PokemonStatus_eqb (Pokemon.status p) RESOLD
       && match marketRarityFilter with
          | None => true
          | Some r => PokemonRarity_eqb (Pokemon.rarity p) r
          end) pokemons.

(** The studio grid: the first four owned items, then the placeholders. *)
Definition studioShowcase (pokemons : list Pokemon.t) : list Pokemon.t :=
  take 4 (List.filter (fun p => PokemonStatus_eqb (Pokemon.status p) OWNED) pokemons).

Definition studioPlaceholders (pokemons : list Pokemon.t) : Z :=
  Z.max 0
    (4 - Z.of_nat
           (length (List.filter (fun p => PokemonStatus_eqb (Pokemon.status p) OWNED)
                      pokemons))).

(** What a [PokemonCard] shows for [pokemon] in [context]. *)
Definition showsFavoriteToggle (pokemon : Pokemon.t) (context : View.t) : bool :=
  PokemonStatus_eqb (Pokemon.status pokemon) OWNED
  && negb (View.eqb context View.studio).

Definition showsResell (pokemon : Pokemon.t) (context : View.t) : bool :=
  PokemonStatus_eqb (Pokemon.status pokemon) OWNED && View.eqb context View.collection.

Definition showsBuy (pokemon : Pokemon.t) (context : View.t) : bool :=
  View.eqb context View.market.

(** The cards of the current view, each with the context it is rendered in;
    while the data loads the grids show skeletons. *)
Definition cards (s : UiState) (currentView : View.t)
    (collectionFilter : CollectionFilter) (marketRarityFilter : option PokemonRarity)
    : list (Pokemon.t * View.t) :=
  if isLoading s then []
  else
    match currentView with
    | View.studio => (fun p => (p, View.studio)) <$> studioShowcase (pokemons s)
    | View.collection =>
        (fun p => (p, View.collection))
          <$> collectionPokemons (pokemons s) collectionFilter
    | View.market =>
        (fun p => (p, View.market)) <$> marketPokemons (pokemons s) marketRarityFilter
    | _ => []
    end.

(** ** Every handler, one after the other *)

Inductive Action :=
| Do (i : Intent)
| ToggleFavorite (pokemonId : string)
| ToggleTheme
| ToggleMute
| ClaimDailyBonus.

Definition perform (a : Action) : M unit :=
  fun w =>
    match a with
    | Do i => dispatch i w
    | ToggleFavorite pokemonId => handleToggleFavorite (ui w) pokemonId w
    | ToggleTheme => handleToggleTheme (ui w) w
    | ToggleMute => handleToggleMute (ui w) w
    | ClaimDailyBonus => handleClaimDailyBonus (ui w) w
    end.

(** A promise that is rejected without a handler leaves the state it had
    reached; the next action starts from there. *)
Fixpoint session (actions : list Action) (w : World) : World :=
  match actions with
  | [] => w
  | a :: rest => session rest (exec (perform a) w)
  end.

(** ** Handlers of earlier renders

    Every render of [App] creates its handlers anew, and each closes over
    the state of the render that created it.  A handler that is invoked
    after the state has moved on still works with the state of its own
    render: the callback of a resale dialog that was opened before another
    action settled, a button that is clicked again before the re-render.
    [performFrom snap a] invokes, in the current world, the handler that the
    render [snap] created. *)




(** * Vocabulary of the statements *)

(** The rarity codes the remote side is known to send. *)
Definition knownRarityCodes : list string := ["F"; "E"; "D"; "C"; "B"; "A"; "S"; "S+"].

Definition isResolved {A} (r : Completion A) : bool :=
  match r with
  | Resolved _ => true
  | Rejected _ => false
  end.

(** The world after one [generatePokemon]; [c] is the console it leaves.
    The clock is read once when the response is an error whose body cannot
    be parsed, and not at all otherwise. *)
Definition afterGenerate (w : World) (ok : bool) (c : list (ConsoleLevel * string)) : World :=
  {| env := env w; db := db w; ui := ui w;
     journal := (journal w
                 ++ [{| ev_call := GeneratePokemon (persistedBalance w);
                        ev_ok := ok |}])%list;
     console := c; txCount := txCount w;
     fetchCount := S (fetchCount w);
     clockCount := match fetchOutcome (env w) (fetchCount w) with
                   | FetchResponse false _ (BodyUnparseable _) => S (clockCount w)
                   | _ => clockCount w
                   end;
     randomCount := randomCount w |}.

(** What a well-formed success response is turned into. *)
Definition acceptedResponse (o : FetchOutcome) (p : Pokemon.t) (apiRarity : string) : Prop :=
  exists http_status data metadata c1 s1 c2 s2 c3 s3,
    o = FetchResponse true http_status (BodyObject data)
    /\ api_metadata data = Some metadata
    /\ api_imageBase64 data = Some (String c1 s1)
    /\ api_generatedAt data = Some (Pokemon.generatedAt p)
    /\ meta_id metadata = Some (String c2 s2)
    /\ meta_name metadata = Some (String c3 s3)
    /\ meta_rarity metadata = Some apiRarity
    /\ Pokemon.id p = String c2 s2
    /\ Pokemon.name p = String c3 s3
    /\ Pokemon.imageBase64 p = String c1 s1.

(** *** Sample worlds, for running the model *)

Definition sampleBody (n : nat) (apiRarity : string) : JsonBody :=
  BodyObject
    {| api_imageBase64 := Some "aGVsbG8=";
       api_metadata :=
         Some {| meta_id := Some ("mon-" ++ pretty n);
                 meta_name := Some "Forgemon";
                 meta_rarity := Some apiRarity |};
       api_generatedAt := Some (1793556420000 + Z.of_nat n);
       api_error_message := None |}.

Definition msPerDay : Z := 86400000.

(** Every request commits, the endpoint answers with a Legendary item, the
    clock starts on 1 November 2026 at 18:07:00.123 UTC and advances by one
    second per reading. *)
Definition calmEnvironment : Environment :=
  {| transactionOutcome := fun _ => None;
     fetchOutcome := fun n => FetchResponse true 200 (sampleBody n "A");
     clock := fun n => 1793556420123 + 1000 * Z.of_nat n;
     mathRandom := fun _ => (5 # 6)%Q;
     toDateString := fun t => t / msPerDay |}.

Definition QuotaExceededError : JsError :=
  {| error_name := "QuotaExceededError"; error_message := "The quota has been exceeded." |}.

Definition AbortError : JsError :=
  {| error_name := "AbortError"; error_message := "The user aborted a request." |}.

(** As [calmEnvironment], but the store requests listed in [failing] are
    rejected and the endpoint answers the n-th call with [answer n]. *)
Definition stormyEnvironment (failing : list nat) (answer : nat -> FetchOutcome)
    : Environment :=
  {| transactionOutcome :=
       fun n => if existsb (Nat.eqb n) failing then Some QuotaExceededError else None;
     fetchOutcome := answer;
     clock := clock calmEnvironment;
     mathRandom := mathRandom calmEnvironment;
     toDateString := toDateString calmEnvironment |}.

(** The application once [fetchAppData] has run on a fresh store. *)
Definition loadedWorld (e : Environment) : World :=
  exec fetchAppData (initialWorld e emptyDatabase).

(** The item the calm endpoint answers first. *)
Definition firstForgemon : Pokemon.t :=
  Pokemon.mk "mon-0" "Forgemon" LEGENDARY "aGVsbG8=" 1793556420000 OWNED false.

Definition sampleLegendary : Pokemon.t :=
  Pokemon.mk "mon-7" "Forgemon" LEGENDARY "aGVsbG8=" 1793556420007 OWNED false.

(** *** Achievement evaluation *)

(** A record the evaluation may create: unlocked, for a definition that was
    not unlocked in [cur] and whose predicate holds on [ps]. *)
Definition freshUnlock (cur : list Achievement.t) (ps : list Pokemon.t)
    (a : Achievement.t) : Prop :=
  Achievement.unlocked a = true
  /\ alreadyUnlocked (Achievement.id a) cur = false
  /\ shouldUnlock (Achievement.id a) ps = true.

(** A journalled write of such a record. *)
Definition isUnlockWrite (cur : list Achievement.t) (ps : list Pokemon.t)
    (ev : Event) : Prop :=
  exists a, ev_call ev = UpdateAchievement a /\ freshUnlock cur ps a.

(** The React state with the message and the achievement set blanked: what
    an evaluation leaves alone. *)
Definition besidesAchievements (s : UiState) : UiState :=
  put_message None (put_achievements [] s).

(** The definitions an evaluation acts on. *)
Definition toUnlock (cur : list Achievement.t) (ps : list Pokemon.t)
    (def : AchievementDef.t) : bool :=
  negb (alreadyUnlocked (AchievementDef.id def) cur)
  && shouldUnlock (AchievementDef.id def) ps.

(** Every store request from the [n]-th on commits. *)
Definition commitsFrom (e : Environment) (n : nat) : Prop :=
  forall k, (n <= k)%nat -> transactionOutcome e k = None.

(** The application after one generation in the calm environment: the
    first-forge and the Legendary achievements are unlocked. *)
Definition forgedWorld : World := run [Generate] (loadedWorld calmEnvironment).



(** *** Generation *)

(** The generation attempt fails after the debit with [e]: the remote call
    is rejected with [e], or it resolves and persisting the new item is
    rejected with [e] (by the store, or because the key is taken). *)
Definition failureAfterDebit (w : World) (e : JsError) : Prop :=
  outcome pokemonApiService.generatePokemon w = Rejected e
  \/ (exists p, outcome pokemonApiService.generatePokemon w = Resolved p
                /\ (transactionOutcome (env w) (S (txCount w)) = Some e
                    \/ (transactionOutcome (env w) (S (txCount w)) = None
                        /\ is_Some (pokemonsStore (db w) !! Pokemon.id p)
                        /\ e = indexedDbService.ConstraintError))).

(** The store request that carries the compensating credit of an attempt
    that fails after the debit. *)
Definition rollbackRequest (w : World) : nat :=
  match outcome pokemonApiService.generatePokemon w with
  | Rejected _ => S (txCount w)
  | Resolved _ => S (S (txCount w))
  end.

Definition refundMessage (e : JsError) : AppMessage :=
  {| msg_type := error;
     msg_text := messageOr e "Échec de la génération. Jetons remboursés." |}.

(** The rollback as an unconditional guarantee. *)
Definition rollbackAlwaysPersisted : Prop :=
  forall (snap : UiState) (w : World) (B : Z) (e : JsError),
    tokenBalance snap = B ->
    persistedBalance w = Some B ->
    GENERATION_COST <= B ->
    transactionOutcome (env w) (txCount w) = None ->
    failureAfterDebit w e ->
    let w' := exec (handleGeneratePokemon snap) w in
    persistedBalance w' = Some B
    /\ tokenBalance (ui w') = B
    /\ message (ui w') = Some (refundMessage e)
    /\ pokemons (ui w') = pokemons (ui w)
    /\ pokemonsStore (db w') = pokemonsStore (db w).

(** The remote call times out and the compensating write is rejected. *)
Definition doubleFailureWorld : World :=
  loadedWorld (stormyEnvironment [7%nat] (fun _ => FetchRejected AbortError)).

(** The remote call times out and every write commits. *)
Definition timeoutWorld : World :=
  loadedWorld (stormyEnvironment [] (fun _ => FetchRejected AbortError)).

Definition isAchievementWrite (ev : Event) : Prop :=
  exists a, ev_call ev = UpdateAchievement a.

(** The service calls of one generation attempt with starting balance [B],
    in the order in which they settle: the debit; if it committed, the
    remote call; if that resolved with [p], the insertion of [p]; if that
    committed, the achievement writes; and, after the first failure, the
    compensating credit and nothing else. *)
Inductive generationJournal (B : Z) : list Event -> Prop :=
| debit_rejected (r : bool) :
    generationJournal B
      [ {| ev_call := UpdateTokenBalance (B - GENERATION_COST); ev_ok := false |};
        {| ev_call := UpdateTokenBalance B; ev_ok := r |} ]
| remote_rejected (r : bool) :
    generationJournal B
      [ {| ev_call := UpdateTokenBalance (B - GENERATION_COST); ev_ok := true |};
        {| ev_call := GeneratePokemon (Some (B - GENERATION_COST)); ev_ok := false |};
        {| ev_call := UpdateTokenBalance B; ev_ok := r |} ]
| insertion_rejected (p : Pokemon.t) (r : bool) :
    generationJournal B
      [ {| ev_call := UpdateTokenBalance (B - GENERATION_COST); ev_ok := true |};
        {| ev_call := GeneratePokemon (Some (B - GENERATION_COST)); ev_ok := true |};
        {| ev_call := AddPokemon p; ev_ok := false |};
        {| ev_call := UpdateTokenBalance B; ev_ok := r |} ]
| evaluation_rejected (p : Pokemon.t) (ws : list Event) (a : Achievement.t) (r : bool) :
    Forall isAchievementWrite ws ->
    generationJournal B
      ({| ev_call := UpdateTokenBalance (B - GENERATION_COST); ev_ok := true |}
       :: {| ev_call := GeneratePokemon (Some (B - GENERATION_COST)); ev_ok := true |}
       :: {| ev_call := AddPokemon p; ev_ok := true |}
       :: ws ++ [ {| ev_call := UpdateAchievement a; ev_ok := false |};
                  {| ev_call := UpdateTokenBalance B; ev_ok := r |} ])
| generation_settled (p : Pokemon.t) (ws : list Event) :
    Forall isAchievementWrite ws ->
    generationJournal B
      ({| ev_call := UpdateTokenBalance (B - GENERATION_COST); ev_ok := true |}
       :: {| ev_call := GeneratePokemon (Some (B - GENERATION_COST)); ev_ok := true |}
       :: {| ev_call := AddPokemon p; ev_ok := true |}
       :: ws).

(** Writes journalled by a computation that settled with [r]: all of them
    committed when it resolved; all but the last committed, and the last was
    rejected, when it was rejected. *)
Definition writesSettleAs {A} (r : Completion A) (ws : list Event) : Prop :=
  match r with
  | Resolved _ => Forall (fun ev => ev_ok ev = true) ws
  | Rejected _ =>
      exists ws' ev, ws = (ws' ++ [ev])%list
                     /\ Forall (fun ev => ev_ok ev = true) ws'
                     /\ ev_ok ev = false
  end.

(** *** The balance along a run *)

(** Neither the in-memory balance, nor the persisted one, nor any balance
    ever handed to the store is negative. *)
Definition balanceNeverNegative (w : World) : Prop :=
  0 <= tokenBalance (ui w)
  /\ (forall b, persistedBalance w = Some b -> 0 <= b)
  /\ Forall (fun ev => forall n, ev_call ev = UpdateTokenBalance n -> 0 <= n)
        (journal w).

(** From [w] to [w'] the balance, in memory and in the store, either stays
    or takes a value of [allowed], and only values of [allowed] are handed to
    the store. *)
Definition balanceStep (allowed : list Z) (w w' : World) : Prop :=
  (tokenBalance (ui w') = tokenBalance (ui w) \/ tokenBalance (ui w') ∈ allowed)
  /\ (persistedBalance w' = persistedBalance w
      \/ exists n, n ∈ allowed /\ persistedBalance w' = Some n)
  /\ exists evs,
       journal w' = (journal w ++ evs)%list
       /\ Forall (fun ev => forall n, ev_call ev = UpdateTokenBalance n -> n ∈ allowed)
            evs.

(** *** Daily bonus *)

(** The amount [fetchAppData] offers for the random number [r]. *)
Definition offeredAmount (r : Q) : Z := Qfloor (r * 6)%Q + 5.

(** As [calmEnvironment], one hour later. *)
Definition laterEnvironment : Environment :=
  {| transactionOutcome := transactionOutcome calmEnvironment;
     fetchOutcome := fetchOutcome calmEnvironment;
     clock := fun n => clock calmEnvironment n + 3600000;
     mathRandom := mathRandom calmEnvironment;
     toDateString := toDateString calmEnvironment |}.

(** A reload of the page: the React state starts anew, the store stays. *)
Definition remount (w : World) : World := with_ui (fun _ => initialUiState) w.

(** The six store requests of [fetchAppData] commit. *)
Definition loadCommits (w : World) : Prop :=
  forall k, (txCount w <= k < txCount w + 6)%nat -> transactionOutcome (env w) k = None.

(** Store request 9 (the load takes requests 0 to 5, the debit 6, the
    insertion 7, the first achievement write 8), the second achievement
    write of the first generation, is rejected; everything else is as in
    [calmEnvironment]. *)
Definition interruptedEnvironment : Environment :=
  stormyEnvironment [9%nat] (fetchOutcome calmEnvironment).




(** *** The item store *)

(** Every stored item sits under its own [id], the key path of the store. *)
Definition keyedById (d : Database) : Prop :=
  forall k p, pokemonsStore d !! k = Some p -> Pokemon.id p = k.

(** *** Sessions *)

(** Every store request commits. *)
Definition everyRequestCommits (e : Environment) : Prop :=
  forall k, transactionOutcome e k = None.

(** The in-memory balance is the persisted one. *)
Definition balanceMirrored (w : World) : Prop :=
  persistedBalance w = Some (tokenBalance (ui w)).

(** The in-memory achievement set lists the four definitions, in their
    order. *)
Definition listsAllAchievements (s : UiState) : Prop :=
  Achievement.id <$> achievements s = AchievementDef.id <$> ALL_ACHIEVEMENTS.

(** Most recent first. *)
Definition newestFirst (l : list Pokemon.t) : Prop :=
  StronglySorted (fun p q => Pokemon.generatedAt q <= Pokemon.generatedAt p) l.
(** From [w] to [w'] the environment stays, no stored item is removed, a
    store keyed by id stays keyed by id, the ids of the list in memory stay
    as they are or the list gains one item whose id was not in the store and
    now is, and a list of the four achievements stays one. *)
Definition collectionStep (w w' : World) : Prop :=
  env w' = env w
  /\ (forall k, is_Some (pokemonsStore (db w) !! k) -> is_Some (pokemonsStore (db w') !! k))
  /\ (keyedById (db w) -> keyedById (db w'))
  /\ (Pokemon.id <$> pokemons (ui w') = Pokemon.id <$> pokemons (ui w)
      \/ exists p, pokemonsStore (db w) !! Pokemon.id p = None
                   /\ is_Some (pokemonsStore (db w') !! Pokemon.id p)
                   /\ pokemons (ui w') ≡ₚ p :: pokemons (ui w))
  /\ (listsAllAchievements (ui w) -> listsAllAchievements (ui w')).

(** The ids in memory are pairwise distinct and each is a key of the
    store. *)
Definition collectionConsistent (w : World) : Prop :=
  NoDup (Pokemon.id <$> pokemons (ui w))
  /\ forall id, id ∈ Pokemon.id <$> pokemons (ui w) -> is_Some (pokemonsStore (db w) !! id).

(** * Properties *)

(** ** The model at work *)

(** Starting balance 100, cost 10: three successful generations leave
    balance 70, in memory and in the store, and the three items newest
    first; the first-forge achievement is unlocked, ten-forges is not. *)
Example three_generations :
  let w := run [Generate; Generate; Generate] (loadedWorld calmEnvironment) in
  tokenBalance (ui w) = 70 /\ persistedBalance w = Some 70
  /\ Pokemon.id <$> pokemons (ui w) = ["mon-2"; "mon-1"; "mon-0"]
  /\ alreadyUnlocked "FIRST_FORGE" (achievements (ui w)) = true
  /\ alreadyUnlocked "TEN_FORGES" (achievements (ui w)) = false.
Proof. vm_compute. by repeat split. Qed.

(** A Legendary item resold: the balance grows by 40, the item is [RESOLD]
    in the store and in memory, and the first-sale achievement unlocks. *)
Example legendary_resold :
  let w := run [Resell firstForgemon] forgedWorld in
  tokenBalance (ui forgedWorld) = 90 /\ tokenBalance (ui w) = 130
  /\ persistedBalance w = Some 130
  /\ Pokemon.status <$> pokemonsStore (db w) !! "mon-0" = Some RESOLD
  /\ Pokemon.status <$> pokemons (ui w) = [RESOLD]
  /\ alreadyUnlocked "FIRST_SALE" (achievements (ui forgedWorld)) = false
  /\ alreadyUnlocked "FIRST_SALE" (achievements (ui w)) = true.
Proof. vm_compute. by repeat split. Qed.

(** ** Symbolic execution *)

Ltac unfold_monad :=
  unfold exec, outcome, bind, try_catch, try_finally, ret, throw, settled,
    awaitSettled, showMessage, setPokemons, updatePokemons, setTokenBalance,
    setAchievements, updateAchievements, setSettings, setIsLoading,
    setIsGeneratingPokemon, setMessage, setIsModalOpen, setIsModalConfirmLoading,
    setIsDailyBonusModalOpen, setDailyBonusAmount, setState, consoleWrite,
    newDate, random in *.

Ltac unfold_store :=
  unfold indexedDbService.openDatabase, indexedDbService.addPokemon,
    indexedDbService.getPokemons, indexedDbService.updatePokemon,
    indexedDbService.getTokenBalance, indexedDbService.updateTokenBalance,
    indexedDbService.getDailyBonusStatus, indexedDbService.updateDailyBonusStatus,
    indexedDbService.getPlayerSettings, indexedDbService.updatePlayerSettings,
    indexedDbService.getAchievements, indexedDbService.updateAchievement,
    indexedDbService.withTransaction in *.

Ltac symex := unfold_monad; unfold_store; cbn.

Lemma journal_two (l : list Event) (a b : Event) :
  ((l ++ [a]) ++ [b])%list = (l ++ [a; b])%list.
Proof. by rewrite <- app_assoc. Qed.

Lemma eventsSince_app (w w' : World) (evs : list Event) :
  journal w' = (journal w ++ evs)%list -> eventsSince w w' = evs.
Proof. intros H. unfold eventsSince. rewrite H. apply drop_app_length. Qed.

(** ** The remote client *)

Lemma mapApiRarityToEnum_unknown (apiRarity : string) (w : World) :
  apiRarity ∉ knownRarityCodes ->
  pokemonApiService.mapApiRarityToEnum apiRarity w
  = (Resolved COMMON,
     exec (consoleWrite console_warn
             ("Unknown rarity received from API: " ++ pokemonApiService.dquote
              ++ apiRarity ++ pokemonApiService.dquote
              ++ ". Defaulting to Common.")) w).
Proof.
  intros Hn. unfold pokemonApiService.mapApiRarityToEnum, knownRarityCodes in *.
  repeat match goal with
         | |- context [String.eqb apiRarity ?s] =>
             destruct (String.eqb_spec apiRarity s) as [->|?];
             [exfalso; apply Hn; set_solver|]
         end.
  reflexivity.
Qed.

Lemma mapApiRarityToEnum_frame (apiRarity : string) (w : World) :
  exists r c,
    pokemonApiService.mapApiRarityToEnum apiRarity w
    = (Resolved r,
       {| env := env w; db := db w; ui := ui w; journal := journal w;
          console := (console w ++ c)%list; txCount := txCount w;
          fetchCount := fetchCount w; clockCount := clockCount w;
          randomCount := randomCount w |}).
Proof.
  unfold pokemonApiService.mapApiRarityToEnum.
  assert (Hid : w = {| env := env w; db := db w; ui := ui w; journal := journal w;
          console := (console w ++ [])%list; txCount := txCount w;
          fetchCount := fetchCount w; clockCount := clockCount w;
          randomCount := randomCount w |}) by (rewrite app_nil_r; by destruct w).
  repeat match goal with
         | |- context [if ?b then _ else _] =>
             destruct b; [eexists _, []; unfold ret; by rewrite <- Hid|]
         end.
  eexists _, _. reflexivity.
Qed.

Ltac close_frame :=
  unfold pokemonApiService.invalidFormat, Error; cbn; first [ eexists (Rejected _), _; reflexivity | eexists (Resolved _), _; reflexivity ].

Lemma generatePokemon_frame (w : World) :
  exists r c,
    pokemonApiService.generatePokemon w = (r, afterGenerate w (isResolved r) c).
Proof.
  unfold pokemonApiService.generatePokemon, pokemonApiService.requestPokemon,
    pokemonApiService.mapApiRarityToEnum, afterGenerate.
  unfold_monad. unfold fetch, journalEvent.
  destruct (fetchOutcome (env w) (fetchCount w)) as [e|ok st body]; cbn.
  - destruct (error_name e =? "AbortError"); cbn; [close_frame|].
    destruct ((error_name e =? "TypeError") && (error_message e =? "Failed to fetch"));
      cbn; close_frame.
  - destruct ok; cbn.
    + destruct body as [e| |data]; cbn.
      * destruct (error_name e =? "AbortError"); cbn; [close_frame|].
        destruct ((error_name e =? "TypeError") && (error_message e =? "Failed to fetch"));
          cbn; close_frame.
      * close_frame.
      * destruct (api_imageBase64 data) as [image|]. 2: close_frame.
        destruct (api_metadata data) as [metadata|]; [|close_frame].
        destruct (api_generatedAt data) as [t|]; [|close_frame].
        destruct (meta_id metadata) as [id|]; [|close_frame].
        destruct (meta_name metadata) as [name|]; [|close_frame].
        destruct (meta_rarity metadata) as [code|]; [|close_frame].
        destruct image as [|c1 s1]; [close_frame|].
        destruct id as [|c2 s2]; [close_frame|].
        destruct name as [|c3 s3]; [close_frame|].
        destruct code as [|c4 s4]; [close_frame|]. cbn.
        repeat match goal with
               | |- context [if ?b then _ else _] =>
                   destruct b; [close_frame|]
               end.
        close_frame.
    + destruct body as [e| |data]; cbn; close_frame.
Qed.

Ltac unfold_api :=
  unfold pokemonApiService.generatePokemon, pokemonApiService.requestPokemon,
    pokemonApiService.mapApiRarityToEnum, pokemonApiService.invalidFormat, Error;
  unfold_monad; unfold fetch, journalEvent.

(** The promise a [generatePokemon] settles with is decided by what [fetch]
    answers, and by nothing else in the world. *)
Lemma generatePokemon_outcome (w1 w2 : World) :
  fetchOutcome (env w1) (fetchCount w1) = fetchOutcome (env w2) (fetchCount w2) ->
  outcome pokemonApiService.generatePokemon w1
  = outcome pokemonApiService.generatePokemon w2.
Proof.
  intros H. unfold_api. rewrite H.
  destruct (fetchOutcome (env w2) (fetchCount w2)) as [e|ok st body]; cbn.
  - destruct (error_name e =? "AbortError"); cbn; [done|].
    by destruct ((error_name e =? "TypeError") && (error_message e =? "Failed to fetch")).
  - destruct ok; cbn; [|by destruct body].
    destruct body as [e| |data]; cbn; [|done|].
    + destruct (error_name e =? "AbortError"); cbn; [done|].
      by destruct ((error_name e =? "TypeError") && (error_message e =? "Failed to fetch")).
    + destruct (api_imageBase64 data) as [image|]; [|done].
      destruct (api_metadata data) as [metadata|]; [|done].
      destruct (api_generatedAt data) as [t|]; [|done].
      destruct (meta_id metadata) as [id|]; [|done].
      destruct (meta_name metadata) as [name|]; [|done].
      destruct (meta_rarity metadata) as [code|]; [|done].
      destruct image as [|c1 s1]; [done|].
      destruct id as [|c2 s2]; [done|].
      destruct name as [|c3 s3]; [done|].
      destruct code as [|c4 s4]; [done|]. cbn.
      repeat match goal with
             | |- context [if ?b then _ else _] => destruct b; [done|]
             end.
      done.
Qed.

Lemma mapApiRarityToEnum_pure (apiRarity : string) (w1 w2 : World) :
  outcome (pokemonApiService.mapApiRarityToEnum apiRarity) w1
  = outcome (pokemonApiService.mapApiRarityToEnum apiRarity) w2.
Proof.
  unfold outcome, pokemonApiService.mapApiRarityToEnum.
  repeat match goal with
         | |- context [if ?b then _ else _] => destruct b; [done|]
         end.
  done.
Qed.

Lemma truthy_Some (s : string) :
  pokemonApiService.truthy (Some s) = true -> exists c s', s = String c s'.
Proof. destruct s; [done|]. by eexists _, _. Qed.

(** A resolved [generatePokemon] comes from a success response that carries
    every expected field, and the item is built from it. *)
Lemma generatePokemon_resolved (w : World) (p : Pokemon.t) :
  outcome pokemonApiService.generatePokemon w = Resolved p ->
  Pokemon.status p = OWNED /\ Pokemon.isFavorite p = false
  /\ exists apiRarity,
       acceptedResponse (fetchOutcome (env w) (fetchCount w)) p apiRarity
       /\ forall w', outcome (pokemonApiService.mapApiRarityToEnum apiRarity) w'
                     = Resolved (Pokemon.rarity p).
Proof.
  unfold acceptedResponse, pokemonApiService.generatePokemon,
    pokemonApiService.requestPokemon, pokemonApiService.invalidFormat, Error.
  unfold outcome at 1. unfold try_catch, bind, fetch, journalEvent.
  destruct (fetchOutcome (env w) (fetchCount w)) as [e|ok st body];
    cbn -[pokemonApiService.truthy pokemonApiService.mapApiRarityToEnum].
  - unfold_monad; cbn.
    destruct (error_name e =? "AbortError"); cbn; [done|].
    by destruct ((error_name e =? "TypeError") && (error_message e =? "Failed to fetch")).
  - destruct ok; cbn -[pokemonApiService.truthy pokemonApiService.mapApiRarityToEnum];
      [|by destruct body; unfold_monad; cbn].
    destruct body as [e| |data];
      cbn -[pokemonApiService.truthy pokemonApiService.mapApiRarityToEnum]; [|done|].
    + unfold_monad; cbn.
      destruct (error_name e =? "AbortError"); cbn; [done|].
      by destruct ((error_name e =? "TypeError") && (error_message e =? "Failed to fetch")).
    + destruct (api_imageBase64 data) as [image|] eqn:E1; [|done].
      destruct (api_metadata data) as [metadata|] eqn:E2; [|done].
      destruct (api_generatedAt data) as [t|] eqn:E3; [|done].
      destruct (meta_id metadata) as [id|] eqn:E4; [|done].
      destruct (meta_name metadata) as [name|] eqn:E5; [|done].
      destruct (meta_rarity metadata) as [code|] eqn:E6; [|done].
      destruct (pokemonApiService.truthy (Some image) && pokemonApiService.truthy (Some id)
                && pokemonApiService.truthy (Some name)
                && pokemonApiService.truthy (Some code)) eqn:Ht; [|done].
      apply andb_true_iff in Ht as [Ht H4]. apply andb_true_iff in Ht as [Ht H3].
      apply andb_true_iff in Ht as [H1 H2].
      apply truthy_Some in H1 as (c1 & s1 & ->). apply truthy_Some in H2 as (c2 & s2 & ->).
      apply truthy_Some in H3 as (c3 & s3 & ->).
      match goal with
      | |- context [pokemonApiService.mapApiRarityToEnum code ?W] =>
          destruct (mapApiRarityToEnum_frame code W) as (r & c & Hr); rewrite Hr
      end.
      cbn. intros [= <-]. cbn. split; [done|]. split; [done|].
      exists code. split.
      { by eexists st, data, metadata, c1, s1, c2, s2, c3, s3. }
      intros w'. erewrite mapApiRarityToEnum_pure. unfold outcome. by rewrite Hr.
Qed.

(** C9. The remote rarity code is mapped [F], [E] to Common; [D], [C] to
    Rare; [B] to Epic; [A], [S] to Legendary; [S+] to Mythic, without any
    console output; every other code is mapped to Common and a warning is
    written to the console.  Every item a resolved [generatePokemon] returns
    has status [OWNED] and [isFavorite = false]. *)
Theorem rarity_mapping_and_new_item_defaults :
  (forall w : World,
      pokemonApiService.mapApiRarityToEnum "F" w = (Resolved COMMON, w)
      /\ pokemonApiService.mapApiRarityToEnum "E" w = (Resolved COMMON, w)
      /\ pokemonApiService.mapApiRarityToEnum "D" w = (Resolved RARE, w)
      /\ pokemonApiService.mapApiRarityToEnum "C" w = (Resolved RARE, w)
      /\ pokemonApiService.mapApiRarityToEnum "B" w = (Resolved EPIC, w)
      /\ pokemonApiService.mapApiRarityToEnum "A" w = (Resolved LEGENDARY, w)
      /\ pokemonApiService.mapApiRarityToEnum "S" w = (Resolved LEGENDARY, w)
      /\ pokemonApiService.mapApiRarityToEnum "S+" w = (Resolved MYTHIC, w))
  /\ (forall (apiRarity : string) (w : World),
        apiRarity ∉ knownRarityCodes ->
        outcome (pokemonApiService.mapApiRarityToEnum apiRarity) w = Resolved COMMON
        /\ console (exec (pokemonApiService.mapApiRarityToEnum apiRarity) w)
           = (console w
              ++ [(console_warn,
                   "Unknown rarity received from API: " +:+ pokemonApiService.dquote
                   +:+ apiRarity +:+ pokemonApiService.dquote
                   +:+ ". Defaulting to Common.")])%list)
  /\ (forall (w : World) (p : Pokemon.t),
        outcome pokemonApiService.generatePokemon w = Resolved p ->
        Pokemon.status p = OWNED /\ Pokemon.isFavorite p = false).
Proof.
  split; [|split].
  - intros w. repeat split; reflexivity.
  - intros apiRarity w Hn. unfold outcome, exec.
    rewrite (mapApiRarityToEnum_unknown _ _ Hn). split; reflexivity.
  - intros w p H. apply generatePokemon_resolved in H as (Hs & Hf & _). done.
Qed.

Lemma rarity_mapping_and_new_item_defaults_witness :
  outcome (pokemonApiService.mapApiRarityToEnum "SS") (loadedWorld calmEnvironment)
  = Resolved COMMON
  /\ outcome pokemonApiService.generatePokemon (loadedWorld calmEnvironment)
     = Resolved firstForgemon
  /\ Pokemon.status firstForgemon = OWNED /\ Pokemon.isFavorite firstForgemon = false.
Proof.
  destruct rarity_mapping_and_new_item_defaults as (_ & Hunknown & Hnew).
  split.
  - apply Hunknown. unfold knownRarityCodes. intros H.
    repeat (apply elem_of_cons in H as [H|H]; [discriminate H|]).
    by apply elem_of_nil in H.
  - assert (Hp : outcome pokemonApiService.generatePokemon (loadedWorld calmEnvironment)
                 = Resolved firstForgemon) by (vm_compute; reflexivity).
    split; [exact Hp|]. exact (Hnew _ _ Hp).
Defined.

(** ** Guards *)

(** C4. A generation attempt with a balance below the generation cost, and a
    purchase attempt with a balance below the buy price, only set a warning
    message: the world is otherwise left as it was, so no service call is
    journalled (no persistence call, no remote call), the store and the
    in-memory balance are unchanged and the generation flag is not raised. *)
Theorem insufficient_funds_rejected :
  (forall (snap : UiState) (w : World),
      tokenBalance snap < GENERATION_COST ->
      let w' := exec (handleGeneratePokemon snap) w in
      handleGeneratePokemon snap w
      = (Resolved tt,
         with_ui (put_message
                    (Some {| msg_type := warning;
                             msg_text := "Il faut 10 jetons pour générer." |})) w)
      /\ journal w' = journal w /\ txCount w' = txCount w
      /\ fetchCount w' = fetchCount w /\ db w' = db w
      /\ tokenBalance (ui w') = tokenBalance (ui w)
      /\ isGeneratingPokemon (ui w') = isGeneratingPokemon (ui w))
  /\ (forall (snap : UiState) (pokemon : Pokemon.t) (w : World),
        tokenBalance snap < getBuyPrice (Pokemon.rarity pokemon) ->
        let w' := exec (handleBuyPokemon snap pokemon) w in
        handleBuyPokemon snap pokemon w
        = (Resolved tt,
           with_ui (put_message
                      (Some {| msg_type := warning;
                               msg_text :=
                                 "Pas assez de jetons. Il vous faut "
                                 ++ pretty (getBuyPrice (Pokemon.rarity pokemon))
                                 ++ " jetons." |})) w)
        /\ journal w' = journal w /\ txCount w' = txCount w
        /\ fetchCount w' = fetchCount w /\ db w' = db w
        /\ tokenBalance (ui w') = tokenBalance (ui w)
        /\ pokemons (ui w') = pokemons (ui w)).
Proof.
  split.
  - intros snap w H w'.
    assert (E : handleGeneratePokemon snap w
                = (Resolved tt,
                   with_ui (put_message
                              (Some {| msg_type := warning;
                                       msg_text := "Il faut 10 jetons pour générer." |})) w)).
    { unfold handleGeneratePokemon.
      destruct (Z.ltb_spec (tokenBalance snap) GENERATION_COST); [reflexivity|lia]. }
    subst w'. unfold exec. rewrite E. by repeat split.
  - intros snap pokemon w H w'.
    assert (E : handleBuyPokemon snap pokemon w
                = (Resolved tt,
                   with_ui (put_message
                      (Some {| msg_type := warning;
                               msg_text :=
                                 "Pas assez de jetons. Il vous faut "
                                 ++ pretty (getBuyPrice (Pokemon.rarity pokemon))
                                 ++ " jetons." |})) w)).
    { unfold handleBuyPokemon.
      destruct (Z.ltb_spec (tokenBalance snap) (getBuyPrice (Pokemon.rarity pokemon)));
        [reflexivity|lia]. }
    subst w'. unfold exec. rewrite E. by repeat split.
Qed.

Lemma insufficient_funds_rejected_witness :
  let w := with_ui (put_tokenBalance 5) (loadedWorld calmEnvironment) in
  (journal (exec (handleGeneratePokemon (ui w)) w) = journal w
   /\ db (exec (handleGeneratePokemon (ui w)) w) = db w)
  /\ (journal (exec (handleBuyPokemon (ui w) sampleLegendary) w) = journal w
      /\ db (exec (handleBuyPokemon (ui w) sampleLegendary) w) = db w).
Proof.
  intros w. destruct insufficient_funds_rejected as [Hgen Hbuy]. split.
  - assert (Hlow : tokenBalance (ui w) < GENERATION_COST) by (vm_compute; reflexivity).
    destruct (Hgen (ui w) w Hlow) as (_ & Hj & _ & _ & Hd & _). by split.
  - assert (Hlow : tokenBalance (ui w) < getBuyPrice (Pokemon.rarity sampleLegendary))
      by (vm_compute; reflexivity).
    destruct (Hbuy (ui w) sampleLegendary w Hlow) as (_ & Hj & _ & _ & Hd & _). by split.
Defined.

(** ** Resale and purchase *)

(** C10. Resale and purchase write the item first and the balance second.
    When the item write commits and the balance write is rejected, these two
    calls are the only ones made: nothing restores the item, which stays in
    the store with its new status, the settings store (the balance) is as
    before, the in-memory balance and list are as before, and an error
    message is shown. *)
Theorem resale_and_purchase_have_no_rollback :
  (forall (snap : UiState) (pokemon : Pokemon.t) (w : World) (e : JsError),
      transactionOutcome (env w) (txCount w) = None ->
      transactionOutcome (env w) (S (txCount w)) = Some e ->
      let w' := exec (resellOnConfirm snap pokemon) w in
      let resold :=
        Pokemon.mk (Pokemon.id pokemon) (Pokemon.name pokemon) (Pokemon.rarity pokemon)
          (Pokemon.imageBase64 pokemon) (Pokemon.generatedAt pokemon) RESOLD
          (Pokemon.isFavorite pokemon) in
      journal w'
      = (journal w
         ++ [ {| ev_call := UpdatePokemon resold; ev_ok := true |};
              {| ev_call := UpdateTokenBalance
                              (tokenBalance snap + getResellValue (Pokemon.rarity pokemon));
                 ev_ok := false |} ])%list
      /\ pokemonsStore (db w') !! Pokemon.id pokemon = Some resold
      /\ settingsStore (db w') = settingsStore (db w)
      /\ tokenBalance (ui w') = tokenBalance (ui w)
      /\ pokemons (ui w') = pokemons (ui w)
      /\ message (ui w')
         = Some {| msg_type := error; msg_text := "Échec de la revente." |})
  /\ (forall (snap : UiState) (pokemon : Pokemon.t) (w : World) (e : JsError),
        getBuyPrice (Pokemon.rarity pokemon) <= tokenBalance snap ->
        transactionOutcome (env w) (txCount w) = None ->
        transactionOutcome (env w) (S (txCount w)) = Some e ->
        let w' := exec (handleBuyPokemon snap pokemon) w in
        let bought :=
          Pokemon.mk (Pokemon.id pokemon) (Pokemon.name pokemon) (Pokemon.rarity pokemon)
            (Pokemon.imageBase64 pokemon) (Pokemon.generatedAt pokemon) OWNED
            (Pokemon.isFavorite pokemon) in
        journal w'
        = (journal w
           ++ [ {| ev_call := UpdatePokemon bought; ev_ok := true |};
                {| ev_call := UpdateTokenBalance
                                (tokenBalance snap - getBuyPrice (Pokemon.rarity pokemon));
                   ev_ok := false |} ])%list
        /\ pokemonsStore (db w') !! Pokemon.id pokemon = Some bought
        /\ settingsStore (db w') = settingsStore (db w)
        /\ tokenBalance (ui w') = tokenBalance (ui w)
        /\ pokemons (ui w') = pokemons (ui w)
        /\ message (ui w')
           = Some {| msg_type := error; msg_text := "Échec de l'achat." |}).
Proof.
  split.
  - intros snap pokemon w e H1 H2 w' resold. subst w' resold.
    unfold resellOnConfirm, Pokemon.with_status. symex. rewrite H1. cbn. rewrite H2. cbn.
    rewrite journal_two, lookup_insert_eq. by repeat split.
  - intros snap pokemon w e Hfunds H1 H2 w' bought. subst w' bought.
    unfold handleBuyPokemon, Pokemon.with_status.
    destruct (Z.ltb_spec (tokenBalance snap) (getBuyPrice (Pokemon.rarity pokemon)));
      [lia|].
    symex. rewrite H1. cbn. rewrite H2. cbn.
    rewrite journal_two, lookup_insert_eq. by repeat split.
Qed.

Lemma resale_and_purchase_have_no_rollback_witness :
  let w := with_ui (put_pokemons [sampleLegendary])
             (loadedWorld (stormyEnvironment [7%nat] (fun _ => FetchRejected AbortError))) in
  let sold :=
    Pokemon.mk "mon-7" "Forgemon" LEGENDARY "aGVsbG8=" 1793556420007 RESOLD false in
  let owned :=
    Pokemon.mk "mon-7" "Forgemon" LEGENDARY "aGVsbG8=" 1793556420007 OWNED false in
  (pokemonsStore (db (exec (resellOnConfirm (ui w) owned) w)) !! "mon-7" = Some sold
   /\ settingsStore (db (exec (resellOnConfirm (ui w) owned) w)) = settingsStore (db w))
  /\ (pokemonsStore (db (exec (handleBuyPokemon (ui w) sold) w)) !! "mon-7" = Some owned
      /\ settingsStore (db (exec (handleBuyPokemon (ui w) sold) w))
         = settingsStore (db w)).
Proof.
  intros w sold owned. destruct resale_and_purchase_have_no_rollback as [Hsell Hbuy].
  assert (H1 : transactionOutcome (env w) (txCount w) = None)
    by (vm_compute; reflexivity).
  assert (H2 : transactionOutcome (env w) (S (txCount w)) = Some QuotaExceededError)
    by (vm_compute; reflexivity).
  split.
  - destruct (Hsell (ui w) owned w _ H1 H2) as (_ & Hp & Hs & _). by split.
  - assert (Hfunds : getBuyPrice (Pokemon.rarity sold) <= tokenBalance (ui w))
      by (vm_compute; discriminate).
    destruct (Hbuy (ui w) sold w _ Hfunds H1 H2) as (_ & Hp & Hs & _). by split.
Defined.

(** ** Achievement evaluation *)

Lemma toUnlock_fresh (cur : list Achievement.t) (ps : list Pokemon.t)
    (def : AchievementDef.t) (t : Instant) :
  toUnlock cur ps def = true -> freshUnlock cur ps (unlockedRecord def t).
Proof.
  unfold toUnlock, freshUnlock. intros [H1 H2]%andb_true_iff.
  apply negb_true_iff in H1. by repeat split.
Qed.

(** What the loop leaves alone, whatever the store answers. *)
Lemma unlockLoop_spec (defs : list AchievementDef.t) (ps : list Pokemon.t)
    (cur acc : list Achievement.t) (w : World) :
  let r := outcome (unlockLoop defs ps cur acc) w in
  let w' := exec (unlockLoop defs ps cur acc) w in
  env w' = env w
  /\ pokemonsStore (db w') = pokemonsStore (db w)
  /\ settingsStore (db w') = settingsStore (db w)
  /\ put_message None (ui w') = put_message None (ui w)
  /\ fetchCount w' = fetchCount w /\ randomCount w' = randomCount w
  /\ console w' = console w
  /\ (clockCount w <= clockCount w')%nat
  /\ (exists ws, journal w' = (journal w ++ ws)%list
                  /\ Forall (isUnlockWrite cur ps) ws /\ writesSettleAs r ws)
  /\ (forall id,
        (forall def, def ∈ defs -> AchievementDef.id def = id ->
                     toUnlock cur ps def = false) ->
        achievementsStore (db w') !! id = achievementsStore (db w) !! id)
  /\ (forall res, r = Resolved res ->
        exists news, res = (acc ++ news)%list /\ Forall (freshUnlock cur ps) news).
Proof.
  revert acc w. induction defs as [|def rest IH]; intros acc w.
  - cbn. repeat split; try done.
    + exists []. rewrite app_nil_r. by repeat split.
    + intros res [= <-]. exists []. by rewrite app_nil_r.
  - cbn [unlockLoop].
    assert (Hrest : forall acc' W,
      (forall id,
          (forall d, d ∈ rest -> AchievementDef.id d = id -> toUnlock cur ps d = false) ->
          achievementsStore (db (exec (unlockLoop rest ps cur acc') W)) !! id
          = achievementsStore (db W) !! id) ->
      forall id,
        (forall d, d ∈ def :: rest -> AchievementDef.id d = id ->
                   toUnlock cur ps d = false) ->
        achievementsStore (db (exec (unlockLoop rest ps cur acc') W)) !! id
        = achievementsStore (db W) !! id).
    { intros acc' W H id Hid. apply H. intros d Hd. apply Hid. by right. }
    destruct (alreadyUnlocked (AchievementDef.id def) cur) eqn:Hal.
    { destruct (IH acc w) as (?&?&?&?&?&?&?&?&?&Hst&?). repeat split; try done.
      by apply Hrest. }
    destruct (shouldUnlock (AchievementDef.id def) ps) eqn:Hsh.
    2: { destruct (IH acc w) as (?&?&?&?&?&?&?&?&?&Hst&?). repeat split; try done.
         by apply Hrest. }
    assert (Hto : toUnlock cur ps def = true) by (unfold toUnlock; by rewrite Hal, Hsh).
    assert (Hfresh : forall t, freshUnlock cur ps (unlockedRecord def t))
      by (intros t; by apply toUnlock_fresh).
    symex.
    destruct (transactionOutcome (env w) (txCount w)) as [e|] eqn:Htx; cbn.
    + repeat split; try done; [lia|].
      eexists [_]. split; [done|]. split.
      * constructor; [|done]. eexists. by split.
      * by eexists [], _.
    + match goal with
      | |- context [unlockLoop rest ps cur ?acc' ?W] =>
          specialize (IH acc' W); specialize (Hrest acc' W); unfold exec in Hrest;
          cbn in IH;
          destruct (unlockLoop rest ps cur acc' W) as [r' w'] eqn:Hloop
      end.
      cbn in *.
      destruct IH as (He & Hp & Hs & Hu & Hf & Hr & Hc & Hck & (ws & Hj & Hws & Hok)
                      & Hst & Hres).
      repeat split; try done; [lia| | |].
      * eexists (_ :: ws). rewrite Hj, <- app_assoc. split; [done|]. split.
        -- constructor; [|done]. eexists. by split.
        -- destruct r' as [res|e]; cbn in *; [by constructor|].
           destruct Hok as (ws' & ev & -> & Hws' & Hev).
           eexists (_ :: ws'), ev. split; [done|]. split; [by constructor|done].
      * intros id Hid. rewrite (Hrest Hst id Hid). apply lookup_insert_ne.
        intros <-. specialize (Hid def). rewrite Hto in Hid.
        by discriminate Hid; [left|].
      * intros res Hr'. destruct (Hres res Hr') as (news & -> & Hnews).
        eexists (_ :: news). rewrite <- app_assoc. split; [done|].
        by constructor.
Qed.

(** *** Merging into the in-memory set *)




(** *** The loop when every write commits *)

Lemma unlockLoop_commits (defs : list AchievementDef.t) (ps : list Pokemon.t)
    (cur acc : list Achievement.t) (w : World) :
  commitsFrom (env w) (txCount w) ->
  NoDup (AchievementDef.id <$> defs) ->
  let w' := exec (unlockLoop defs ps cur acc) w in
  exists news,
    outcome (unlockLoop defs ps cur acc) w = Resolved (acc ++ news)%list
    /\ Forall2
         (fun a def =>
            exists k, (clockCount w <= k < clockCount w')%nat
                      /\ a = unlockedRecord def (clock (env w) k))
         news (filter (fun def => toUnlock cur ps def = true) defs)
    /\ (forall a, a ∈ news -> achievementsStore (db w') !! Achievement.id a = Some a).
Proof.
  revert acc w. induction defs as [|def rest IH]; intros acc w Hcommit Hnd w'.
  - exists []. subst w'. cbn. rewrite app_nil_r. repeat split; [constructor|].
    intros a Ha. by apply elem_of_nil in Ha.
  - rewrite fmap_cons in Hnd. apply NoDup_cons in Hnd as [Hdef Hnd].
    subst w'.
    destruct (decide (toUnlock cur ps def = true)) as [Hto|Hto].
    + rewrite filter_cons_True by done. cbn [unlockLoop]. pose proof Hto as Hto'. unfold toUnlock in Hto'.
      apply andb_true_iff in Hto' as [Hal%negb_true_iff Hsh]. rewrite Hal, Hsh.
      symex. rewrite (Hcommit (txCount w)) by lia. cbn.
      match goal with
      | |- context [unlockLoop rest ps cur ?acc' ?W] =>
          pose proof (unlockLoop_spec rest ps cur acc' W) as Hspec;
          unfold exec, outcome in Hspec;
          specialize (IH acc' W); unfold exec, outcome in IH; cbn in IH, Hspec;
          destruct (unlockLoop rest ps cur acc' W) as [r' w'] eqn:Hloop
      end.
      cbn in *.
      destruct IH as (news & -> & Hnews & Hstore); [intros k Hk; apply Hcommit; lia|done|].
      destruct Hspec as (He & _ & _ & _ & _ & _ & _ & Hck & _ & Hst & _).
      eexists (_ :: news). rewrite <- app_assoc. split; [done|]. split.
      * constructor.
        -- exists (clockCount w). split; [lia|done].
        -- eapply Forall2_impl; [exact Hnews|]. cbn.
           intros a d (k & Hk & ->). exists k. split; [lia|done].
      * intros a [->|Ha]%elem_of_cons; [|by apply Hstore].
        rewrite Hst; [cbn; by rewrite lookup_insert_eq|].
        intros d Hd Hid. exfalso. apply Hdef. cbn in Hid. rewrite <- Hid.
        by apply list_elem_of_fmap_2.
    + rewrite filter_cons_False by done.
      assert (Hskip : unlockLoop (def :: rest) ps cur acc
                      = unlockLoop rest ps cur acc).
      { cbn [unlockLoop]. unfold toUnlock in Hto.
        destruct (alreadyUnlocked (AchievementDef.id def) cur); [done|].
        destruct (shouldUnlock (AchievementDef.id def) ps); [by destruct Hto|done]. }
      rewrite Hskip. by apply IH.
Qed.



Lemma ALL_ACHIEVEMENTS_NoDup : NoDup (AchievementDef.id <$> ALL_ACHIEVEMENTS).
Proof.
  cbn. repeat (apply NoDup_cons; split;
               [intros H; repeat (apply elem_of_cons in H as [H|H]; [discriminate H|]);
                by apply elem_of_nil in H|]).
  apply NoDup_nil_2.
Qed.


(** What an evaluation leaves alone, whatever the store answers. *)
Lemma checkAndUnlockAchievements_spec (ps : list Pokemon.t)
    (cur : list Achievement.t) (w : World) :
  let w' := exec (checkAndUnlockAchievements ps cur) w in
  env w' = env w
  /\ pokemonsStore (db w') = pokemonsStore (db w)
  /\ settingsStore (db w') = settingsStore (db w)
  /\ besidesAchievements (ui w') = besidesAchievements (ui w)
  /\ fetchCount w' = fetchCount w /\ randomCount w' = randomCount w
  /\ console w' = console w
  /\ (exists ws, journal w' = (journal w ++ ws)%list
                  /\ Forall (isUnlockWrite cur ps) ws
                  /\ writesSettleAs (outcome (checkAndUnlockAchievements ps cur) w) ws)
  /\ (forall id, alreadyUnlocked id cur = true \/ shouldUnlock id ps = false ->
                 achievementsStore (db w') !! id = achievementsStore (db w) !! id)
  /\ (achievements (ui w') = achievements (ui w)
      \/ exists news, Forall (freshUnlock cur ps) news
                      /\ achievements (ui w') = mergeUnlocked news (achievements (ui w))).
Proof.
  unfold checkAndUnlockAchievements, exec, outcome, bind.
  pose proof (unlockLoop_spec ALL_ACHIEVEMENTS ps cur [] w) as Hspec.
  unfold exec, outcome in Hspec. cbn zeta in Hspec.
  destruct (unlockLoop ALL_ACHIEVEMENTS ps cur [] w) as [r w1].
  cbn [fst snd] in *.
  destruct Hspec as (He & Hp & Hs & Hu & Hf & Hr & Hc & _ & Hj & Hst & Hres).
  assert (Hst' : forall id, alreadyUnlocked id cur = true \/ shouldUnlock id ps = false ->
             achievementsStore (db w1) !! id = achievementsStore (db w) !! id).
  { intros id Hid. apply Hst. intros def _ <-. unfold toUnlock.
    destruct Hid as [->| ->]; [done|]. by rewrite andb_false_r. }
  assert (Hach : achievements (ui w1) = achievements (ui w))
    by (apply (f_equal achievements) in Hu; exact Hu).
  assert (Hb : besidesAchievements (ui w1) = besidesAchievements (ui w)).
  { unfold besidesAchievements.
    apply (f_equal (put_achievements [])) in Hu. exact Hu. }
  destruct r as [res|e]; cbn; [|by repeat split; try done; left].
  destruct (Hres res eq_refl) as (news & -> & Hnews). cbn [app].
  destruct news as [|a news]; cbn; [by repeat split; try done; left|].
  unfold_monad; cbn. repeat split; try done.
  right. exists (a :: news). by rewrite Hach.
Qed.




(** *** The loop, write by write *)







(** ** Resale *)

(** Run up to an achievement evaluation and replace it by what
    [checkAndUnlockAchievements_spec] says of it. *)
Ltac through_evaluation H r w1 :=
  match goal with
  | |- context [checkAndUnlockAchievements ?ps ?cur ?W] =>
      pose proof (checkAndUnlockAchievements_spec ps cur W) as H;
      unfold exec, outcome in H; cbn zeta in H;
      destruct (checkAndUnlockAchievements ps cur W) as [r w1];
      cbn in H
  end.

(** C7. The resale value is 5, 10, 20, 40, 80 tokens for Common, Rare, Epic,
    Legendary, Mythic, and the buy price is twice the resale value of the
    same rarity.  When the two writes of a confirmed resale commit, the
    store holds the item with status [RESOLD] and the persisted balance is
    the balance of the render the dialog was opened in plus the resale
    value; the same is the in-memory balance.  (The callback does not look
    at the item's current status; the interface offers it for Owned items.) *)
Theorem resale_value_and_confirmed_resale :
  (getResellValue COMMON = 5 /\ getResellValue RARE = 10 /\ getResellValue EPIC = 20
   /\ getResellValue LEGENDARY = 40 /\ getResellValue MYTHIC = 80)
  /\ (forall rarity, getBuyPrice rarity = 2 * getResellValue rarity)
  /\ (forall (snap : UiState) (pokemon : Pokemon.t) (w : World),
        transactionOutcome (env w) (txCount w) = None ->
        transactionOutcome (env w) (S (txCount w)) = None ->
        let w' := exec (resellOnConfirm snap pokemon) w in
        let resellValue := getResellValue (Pokemon.rarity pokemon) in
        let resold :=
          Pokemon.mk (Pokemon.id pokemon) (Pokemon.name pokemon) (Pokemon.rarity pokemon)
            (Pokemon.imageBase64 pokemon) (Pokemon.generatedAt pokemon) RESOLD
            (Pokemon.isFavorite pokemon) in
        pokemonsStore (db w') !! Pokemon.id pokemon = Some resold
        /\ persistedBalance w' = Some (tokenBalance snap + resellValue)
        /\ tokenBalance (ui w') = tokenBalance snap + resellValue
        /\ exists ws,
             journal w'
             = (journal w
                ++ {| ev_call := UpdatePokemon resold; ev_ok := true |}
                :: {| ev_call := UpdateTokenBalance (tokenBalance snap + resellValue);
                      ev_ok := true |}
                :: ws)%list
             /\ Forall (fun ev => exists a, ev_call ev = UpdateAchievement a) ws).
Proof.
  split; [by repeat split|]. split; [intros r; unfold getBuyPrice; lia|].
  intros snap pokemon w H1 H2 w' resellValue resold. subst w' resellValue resold.
  unfold resellOnConfirm, Pokemon.with_status. symex. rewrite H1. cbn. rewrite H2. cbn.
  through_evaluation Hev r w1.
  destruct Hev as (_ & Hp & Hs & Hu & _ & _ & _ & (ws & Hj & Hws & Hok) & _ & _).
  apply (f_equal tokenBalance) in Hu. cbn in Hu.
  assert (Hws' : Forall (fun ev => exists a, ev_call ev = UpdateAchievement a) ws).
  { eapply Forall_impl; [exact Hws|]. intros ev (a & Ha & _). by exists a. }
  unfold persistedBalance.
  destruct r as [[]|e]; cbn; rewrite Hp, Hs, Hu, Hj, lookup_insert_eq; cbn;
    (repeat split; try done); exists ws; by rewrite <- !app_assoc.
Qed.

Lemma resale_value_and_confirmed_resale_witness :
  let w := with_ui (put_pokemons [sampleLegendary]) (loadedWorld calmEnvironment) in
  let w' := exec (resellOnConfirm (ui w) sampleLegendary) w in
  Pokemon.status sampleLegendary = OWNED
  /\ pokemonsStore (db w') !! "mon-7"
     = Some (Pokemon.mk "mon-7" "Forgemon" LEGENDARY "aGVsbG8=" 1793556420007 RESOLD false)
  /\ persistedBalance w' = Some 140.
Proof.
  intros w w'. destruct resale_value_and_confirmed_resale as (_ & _ & Hresale).
  assert (H1 : transactionOutcome (env w) (txCount w) = None) by reflexivity.
  assert (H2 : transactionOutcome (env w) (S (txCount w)) = None) by reflexivity.
  destruct (Hresale (ui w) sampleLegendary w H1 H2) as (Hp & Hb & _).
  split; [reflexivity|]. split; [exact Hp|exact Hb].
Defined.

(** ** Generation: rollback *)

Ltac close_rollback :=
  split; [done|]; split; [done|]; split; [done|]; split; [done|]; split;
  [ intros HH; first [discriminate HH | (split; [done|]; split; done)]
  | intros e0 HH; first [discriminate HH | (injection HH as <-; done)] ].

Lemma generate_fails_after_debit (snap : UiState) (w : World) (e : JsError) :
  GENERATION_COST <= tokenBalance snap ->
  transactionOutcome (env w) (txCount w) = None ->
  failureAfterDebit w e ->
  let w' := exec (handleGeneratePokemon snap) w in
  let B := tokenBalance snap in
  tokenBalance (ui w') = B
  /\ pokemons (ui w') = pokemons (ui w)
  /\ pokemonsStore (db w') = pokemonsStore (db w)
  /\ isGeneratingPokemon (ui w') = false
  /\ (transactionOutcome (env w) (rollbackRequest w) = None ->
      persistedBalance w' = Some B
      /\ message (ui w') = Some (refundMessage e)
      /\ outcome (handleGeneratePokemon snap) w = Resolved tt)
  /\ (forall e', transactionOutcome (env w) (rollbackRequest w) = Some e' ->
      persistedBalance w' = Some (B - GENERATION_COST)
      /\ message (ui w') = message (ui w)
      /\ outcome (handleGeneratePokemon snap) w = Rejected e').
Proof.
  intros Hfunds Hdebit Hfail w' B. subst w' B.
  unfold handleGeneratePokemon, rollbackRequest, failureAfterDebit, refundMessage in *.
  destruct (Z.ltb_spec (tokenBalance snap) GENERATION_COST) as [?|_]; [lia|].
  symex. rewrite Hdebit. cbn.
  match goal with
  | |- context [pokemonApiService.generatePokemon ?W] =>
      destruct (generatePokemon_frame W) as (r & c & Hg);
      pose proof (generatePokemon_outcome w W eq_refl) as Hout;
      unfold outcome in Hout; rewrite Hg in Hout |- *; cbn [fst] in Hout
  end.
  unfold persistedBalance.
  destruct Hfail as [He|(p & Hp & Hadd)].
  - rewrite He in Hout |- *. subst r. cbn.
    destruct (transactionOutcome (env w) (S (txCount w))) as [e'|] eqn:Hroll; cbn;
      close_rollback.
  - rewrite Hp in Hout |- *. subst r. cbn.
    destruct Hadd as [Hadd|(Hadd & [q Hq] & ->)]; rewrite Hadd; cbn.
    + destruct (transactionOutcome (env w) (S (S (txCount w)))) as [e'|] eqn:Hroll; cbn;
        close_rollback.
    + rewrite Hq. cbn.
      destruct (transactionOutcome (env w) (S (S (txCount w)))) as [e'|] eqn:Hroll; cbn;
        close_rollback.
Qed.

(** C1, as stated, fails: in [doubleFailureWorld] the balance starts at 100
    in memory and in the store, the debit commits, the remote call times
    out, and the compensating write is rejected; the store is left with 90
    and no message is shown. *)
Lemma rollback_is_not_always_persisted : ~ rollbackAlwaysPersisted.
Proof.
  intros Hclaim.
  assert (Hend : persistedBalance
                   (exec (handleGeneratePokemon (ui doubleFailureWorld)) doubleFailureWorld)
                 = Some 90) by (vm_compute; reflexivity).
  destruct (Hclaim (ui doubleFailureWorld) doubleFailureWorld 100
              pokemonApiService.timedOut) as [Hrestored _].
  - vm_compute; reflexivity.
  - vm_compute; reflexivity.
  - vm_compute; discriminate.
  - vm_compute; reflexivity.
  - left. vm_compute; reflexivity.
  - rewrite Hend in Hrestored. discriminate Hrestored.
Qed.

(** C1, amended.  A generation attempt that starts with balance [B] in
    memory and in the store and fails after the debit, because the remote
    call is rejected or because persisting the new item is rejected, leaves
    the in-memory balance at [B] and adds no item to the in-memory list or
    to the store.  When the compensating write commits, the persisted
    balance is [B] again and the failure is shown as an error message
    carrying the failure's text.  When the compensating write is rejected,
    the persisted balance stays at [B] minus the generation cost, no message
    is set and the handler's promise is rejected with that write's error. *)
Theorem generation_rollback :
  forall (snap : UiState) (w : World) (B : Z) (e : JsError),
    tokenBalance snap = B ->
    persistedBalance w = Some B ->
    GENERATION_COST <= B ->
    transactionOutcome (env w) (txCount w) = None ->
    failureAfterDebit w e ->
    let w' := exec (handleGeneratePokemon snap) w in
    tokenBalance (ui w') = B
    /\ pokemons (ui w') = pokemons (ui w)
    /\ pokemonsStore (db w') = pokemonsStore (db w)
    /\ (transactionOutcome (env w) (rollbackRequest w) = None ->
        persistedBalance w' = Some B
        /\ message (ui w') = Some (refundMessage e)
        /\ outcome (handleGeneratePokemon snap) w = Resolved tt)
    /\ (forall e', transactionOutcome (env w) (rollbackRequest w) = Some e' ->
        persistedBalance w' = Some (B - GENERATION_COST)
        /\ message (ui w') = message (ui w)
        /\ outcome (handleGeneratePokemon snap) w = Rejected e').
Proof.
  intros snap w B e <- _ Hfunds Hdebit Hfail w'.
  destruct (generate_fails_after_debit snap w e Hfunds Hdebit Hfail)
    as (H1 & H2 & H3 & _ & H4 & H5).
  exact (conj H1 (conj H2 (conj H3 (conj H4 H5)))).
Qed.

Lemma generation_rollback_witness :
  let w := timeoutWorld in
  let w' := exec (handleGeneratePokemon (ui w)) w in
  persistedBalance w = Some 100
  /\ tokenBalance (ui w') = 100
  /\ persistedBalance w' = Some 100
  /\ message (ui w') = Some (refundMessage pokemonApiService.timedOut)
  /\ pokemonsStore (db w') = pokemonsStore (db w).
Proof.
  intros w w'.
  assert (HB : tokenBalance (ui w) = 100) by (vm_compute; reflexivity).
  assert (HP : persistedBalance w = Some 100) by (vm_compute; reflexivity).
  assert (Hcost : GENERATION_COST <= 100) by (vm_compute; discriminate).
  assert (Hdebit : transactionOutcome (env w) (txCount w) = None)
    by (vm_compute; reflexivity).
  assert (Hfail : failureAfterDebit w pokemonApiService.timedOut)
    by (left; vm_compute; reflexivity).
  destruct (generation_rollback (ui w) w 100 _ HB HP Hcost Hdebit Hfail)
    as (Hmem & _ & Hstore & Hcommit & _).
  destruct Hcommit as (Hpersisted & Hmsg & _); [vm_compute; reflexivity|].
  exact (conj HP (conj Hmem (conj Hpersisted (conj Hmsg Hstore)))).
Defined.

(** ** Generation: order of the steps *)

Lemma isUnlockWrite_isAchievementWrite (cur : list Achievement.t)
    (ps : list Pokemon.t) (ws : list Event) :
  Forall (isUnlockWrite cur ps) ws -> Forall isAchievementWrite ws.
Proof.
  intros H. eapply Forall_impl; [exact H|]. intros ev (a & Ha & _). by exists a.
Qed.

Lemma generation_journal (snap : UiState) (w : World) :
  GENERATION_COST <= tokenBalance snap ->
  generationJournal (tokenBalance snap)
    (eventsSince w (exec (handleGeneratePokemon snap) w)).
Proof.
  intros Hfunds. unfold handleGeneratePokemon.
  destruct (Z.ltb_spec (tokenBalance snap) GENERATION_COST) as [?|_]; [lia|].
  symex.
  destruct (transactionOutcome (env w) (txCount w)) as [e0|] eqn:Hdebit; cbn.
  { destruct (transactionOutcome (env w) (S (txCount w))) as [e1|]; cbn;
      (erewrite eventsSince_app; [|cbn; rewrite <- ?app_assoc; reflexivity]);
      apply debit_rejected. }
  match goal with
  | |- context [pokemonApiService.generatePokemon ?W] =>
      destruct (generatePokemon_frame W) as (r & c & ->)
  end.
  destruct r as [p|e]; cbn.
  2: { destruct (transactionOutcome (env w) (S (txCount w))) as [e1|]; cbn;
         (erewrite eventsSince_app; [|cbn; rewrite <- ?app_assoc; reflexivity]);
         apply remote_rejected. }
  destruct (transactionOutcome (env w) (S (txCount w))) as [e1|] eqn:Hadd; cbn.
  { destruct (transactionOutcome (env w) (S (S (txCount w)))) as [e2|]; cbn;
      (erewrite eventsSince_app; [|cbn; rewrite <- ?app_assoc; reflexivity]);
      apply insertion_rejected. }
  destruct (pokemonsStore (db w) !! Pokemon.id p) as [q|] eqn:Hkey; cbn.
  { destruct (transactionOutcome (env w) (S (S (txCount w)))) as [e2|]; cbn;
      (erewrite eventsSince_app; [|cbn; rewrite <- ?app_assoc; reflexivity]);
      apply insertion_rejected. }
  through_evaluation Hev r w1.
  destruct Hev as (He & _ & _ & _ & _ & _ & _ & (ws & Hj & Hws & Hok) & _ & _).
  apply isUnlockWrite_isAchievementWrite in Hws.
  destruct r as [[]|e]; cbn.
  - erewrite eventsSince_app; [|cbn; rewrite Hj, <- ?app_assoc; reflexivity].
    by apply generation_settled.
  - destruct Hok as (ws' & ev & -> & _ & Hev).
    apply Forall_app in Hws as [Hws' [[a Ha] _]%Forall_cons].
    destruct ev as [call ok]; cbn in Ha, Hev. subst call ok.
    unfold indexedDbService.withTransaction; cbn. rewrite He.
    destruct (transactionOutcome (env w) (txCount w1)) as [e2|]; cbn;
      (erewrite eventsSince_app; [|cbn; rewrite Hj, <- ?app_assoc; reflexivity]);
      by apply evaluation_rejected.
Qed.

Lemma lookup_after_achievement_writes (ws l : list Event) (i : nat) (ev : Event) :
  Forall isAchievementWrite ws ->
  (ws ++ l)%list !! i = Some ev ->
  isAchievementWrite ev
  \/ ((length ws <= i)%nat /\ l !! (i - length ws)%nat = Some ev).
Proof.
  intros Hws [Hi|[Hle Hi]]%lookup_app_Some.
  - left. by eapply Forall_lookup_1.
  - right. by split.
Qed.

Ltac journal_tail H Hws :=
  apply lookup_after_achievement_writes in H as [(? & Hcall)|[Hle H]];
  [discriminate Hcall
  |match type of H with
   | _ !! ?k = _ => destruct k as [|[|?]]; cbn in H; discriminate H
   end
  |exact Hws].

Lemma generationJournal_order (B : Z) (evs : list Event) :
  generationJournal B evs ->
  (exists ok, evs !! 0%nat
              = Some {| ev_call := UpdateTokenBalance (B - GENERATION_COST);
                        ev_ok := ok |})
  /\ (forall i b ok,
        evs !! i = Some {| ev_call := GeneratePokemon b; ev_ok := ok |} ->
        i = 1%nat /\ b = Some (B - GENERATION_COST)
        /\ evs !! 0%nat
           = Some {| ev_call := UpdateTokenBalance (B - GENERATION_COST);
                     ev_ok := true |})
  /\ (forall i p ok,
        evs !! i = Some {| ev_call := AddPokemon p; ev_ok := ok |} ->
        i = 2%nat
        /\ evs !! 1%nat
           = Some {| ev_call := GeneratePokemon (Some (B - GENERATION_COST));
                     ev_ok := true |})
  /\ (forall i a ok,
        evs !! i = Some {| ev_call := UpdateAchievement a; ev_ok := ok |} ->
        (3 <= i)%nat
        /\ exists p, evs !! 2%nat = Some {| ev_call := AddPokemon p; ev_ok := true |})
  /\ (forall i n ok,
        (0 < i)%nat ->
        evs !! i = Some {| ev_call := UpdateTokenBalance n; ev_ok := ok |} ->
        n = B /\ S i = length evs
        /\ exists ev, evs !! (i - 1)%nat = Some ev /\ ev_ok ev = false).
Proof.
  intros [r|r|p r|p ws a r Hws|p ws Hws].
  - split; [by eexists|]. split; [|split; [|split]].
    + intros [|[|[|i]]] b ok; by cbn.
    + intros [|[|[|i]]] p ok; by cbn.
    + intros [|[|[|i]]] a ok; by cbn.
    + intros [|[|[|i]]] n ok Hi; cbn; try done; try lia.
      intros [= <- <-]. split; [done|]. split; [done|]. by eexists.
  - split; [by eexists|]. split; [|split; [|split]].
    + intros [|[|[|[|i]]]] b ok; cbn; try done. by intros [= <- <-].
    + intros [|[|[|[|i]]]] p ok; by cbn.
    + intros [|[|[|[|i]]]] a ok; by cbn.
    + intros [|[|[|[|i]]]] n ok Hi; cbn; try done; try lia.
      intros [= <- <-]. split; [done|]. split; [done|]. by eexists.
  - split; [by eexists|]. split; [|split; [|split]].
    + intros [|[|[|[|[|i]]]]] b ok; cbn; try done. by intros [= <- <-].
    + intros [|[|[|[|[|i]]]]] p' ok; by cbn.
    + intros [|[|[|[|[|i]]]]] a ok; by cbn.
    + intros [|[|[|[|[|i]]]]] n ok Hi; cbn; try done; try lia.
      intros [= <- <-]. split; [done|]. split; [done|]. by eexists.
  - split; [by eexists|]. split; [|split; [|split]].
    + intros [|[|[|i]]] b ok; cbn; try done; [by intros [= <- <-]|]. intros H. journal_tail H Hws.
    + intros [|[|[|i]]] p' ok; cbn; try done. intros H. journal_tail H Hws.
    + intros [|[|[|i]]] a' ok; cbn; try done. intros H. split; [lia|by eexists].
    + intros [|[|[|i]]] n ok Hi; cbn; try done; try lia. intros H.
      apply lookup_after_achievement_writes in H as [(? & Hcall)|[Hle H]];
        [discriminate Hcall| |exact Hws].
      destruct (i - length ws)%nat as [|[|k]] eqn:Hk; cbn in H; try discriminate H.
      injection H as <- <-. split; [done|]. split.
      * rewrite length_app. cbn. lia.
      * exists {| ev_call := UpdateAchievement a; ev_ok := false |}.
        split; [|reflexivity].
        replace i with (S (length ws)) by lia.
        change ((ws ++ [ {| ev_call := UpdateAchievement a; ev_ok := false |};
                         {| ev_call := UpdateTokenBalance B; ev_ok := r |} ])%list
                !! length ws
                = Some {| ev_call := UpdateAchievement a; ev_ok := false |}).
        rewrite lookup_app_r by lia. by rewrite Nat.sub_diag.
  - split; [by eexists|]. split; [|split; [|split]].
    + intros [|[|[|i]]] b ok; cbn; try done; [by intros [= <- <-]|]. intros H.
      destruct (Forall_lookup_1 _ _ _ _ Hws H) as (? & Hcall). discriminate Hcall.
    + intros [|[|[|i]]] p' ok; cbn; try done. intros H.
      destruct (Forall_lookup_1 _ _ _ _ Hws H) as (? & Hcall). discriminate Hcall.
    + intros [|[|[|i]]] a ok; cbn; try done. intros H. split; [lia|by eexists].
    + intros [|[|[|i]]] n ok Hi; cbn; try done; try lia. intros H.
      destruct (Forall_lookup_1 _ _ _ _ Hws H) as (? & Hcall). discriminate Hcall.
Qed.

(** C3. In every generation attempt that passes the balance precondition
    the service calls settle in this order and no other: first the write of
    the balance minus the generation cost; the remote call is made only when
    that write has committed, it is the second call, and the store holds the
    decremented balance when it is issued; the new item is inserted only
    when the remote call has resolved, as the third call; achievement writes
    come only after a committed insertion; and a second balance write, the
    compensating credit of the starting balance, comes only directly after a
    rejected call and is the last call of the attempt. *)
Theorem generation_steps_in_sequence :
  forall (snap : UiState) (w : World),
    GENERATION_COST <= tokenBalance snap ->
    let evs := eventsSince w (exec (handleGeneratePokemon snap) w) in
    let B := tokenBalance snap in
    generationJournal B evs
    /\ (exists ok, evs !! 0%nat
                   = Some {| ev_call := UpdateTokenBalance (B - GENERATION_COST);
                             ev_ok := ok |})
    /\ (forall i b ok,
          evs !! i = Some {| ev_call := GeneratePokemon b; ev_ok := ok |} ->
          i = 1%nat /\ b = Some (B - GENERATION_COST)
          /\ evs !! 0%nat
             = Some {| ev_call := UpdateTokenBalance (B - GENERATION_COST);
                       ev_ok := true |})
    /\ (forall i p ok,
          evs !! i = Some {| ev_call := AddPokemon p; ev_ok := ok |} ->
          i = 2%nat
          /\ evs !! 1%nat
             = Some {| ev_call := GeneratePokemon (Some (B - GENERATION_COST));
                       ev_ok := true |})
    /\ (forall i a ok,
          evs !! i = Some {| ev_call := UpdateAchievement a; ev_ok := ok |} ->
          (3 <= i)%nat
          /\ exists p, evs !! 2%nat = Some {| ev_call := AddPokemon p; ev_ok := true |})
    /\ (forall i n ok,
          (0 < i)%nat ->
          evs !! i = Some {| ev_call := UpdateTokenBalance n; ev_ok := ok |} ->
          n = B /\ S i = length evs
          /\ exists ev, evs !! (i - 1)%nat = Some ev /\ ev_ok ev = false).
Proof.
  intros snap w Hfunds evs B.
  pose proof (generation_journal snap w Hfunds) as Hj. fold evs B in Hj.
  split; [exact Hj|]. by apply generationJournal_order.
Qed.

Lemma generation_steps_in_sequence_witness :
  let w := loadedWorld calmEnvironment in
  let evs := eventsSince w (exec (handleGeneratePokemon (ui w)) w) in
  evs !! 0%nat = Some {| ev_call := UpdateTokenBalance 90; ev_ok := true |}
  /\ evs !! 1%nat = Some {| ev_call := GeneratePokemon (Some 90); ev_ok := true |}
  /\ evs !! 2%nat = Some {| ev_call := AddPokemon firstForgemon; ev_ok := true |}
  /\ generationJournal 100 evs.
Proof.
  intros w evs.
  assert (Hfunds : GENERATION_COST <= tokenBalance (ui w)) by (vm_compute; discriminate).
  destruct (generation_steps_in_sequence (ui w) w Hfunds) as (Hshape & _).
  split; [vm_compute; reflexivity|]. split; [vm_compute; reflexivity|].
  split; [vm_compute; reflexivity|]. exact Hshape.
Defined.

(** ** The balance is never negative *)

Lemma achievement_writes_no_balance (cur : list Achievement.t) (ps : list Pokemon.t)
    (allowed : list Z) (ws : list Event) :
  Forall (isUnlockWrite cur ps) ws ->
  Forall (fun ev => forall n, ev_call ev = UpdateTokenBalance n -> n ∈ allowed) ws.
Proof.
  intros H. eapply Forall_impl; [exact H|].
  intros ev (a & Ha & _) n Hn. congruence.
Qed.

Ltac close_balance_events :=
  repeat first
    [ apply Forall_nil_2
    | apply Forall_cons; split; [cbn; intros ? Hn; try discriminate Hn;
                                 injection Hn as <-; set_solver|]
    | apply Forall_app; split
    | (eapply achievement_writes_no_balance; eassumption) ].

Ltac close_balance_step :=
  unfold balanceStep, persistedBalance; cbn;
  split; [first [by left | right; set_solver]|];
  split; [first [by left | right; eexists; split; [|reflexivity]; set_solver]|];
  eexists; split; [rewrite <- ?app_assoc; reflexivity|]; close_balance_events.

Lemma generation_balance_step (snap : UiState) (w : World) :
  GENERATION_COST <= tokenBalance snap ->
  balanceStep [tokenBalance snap - GENERATION_COST; tokenBalance snap] w
    (exec (handleGeneratePokemon snap) w).
Proof.
  intros Hfunds. unfold handleGeneratePokemon.
  destruct (Z.ltb_spec (tokenBalance snap) GENERATION_COST) as [?|_]; [lia|].
  symex.
  destruct (transactionOutcome (env w) (txCount w)) as [e0|] eqn:Hdebit; cbn.
  { destruct (transactionOutcome (env w) (S (txCount w))) as [e1|]; cbn;
      close_balance_step. }
  match goal with
  | |- context [pokemonApiService.generatePokemon ?W] =>
      destruct (generatePokemon_frame W) as (r & c & ->)
  end.
  destruct r as [p|e]; cbn.
  2: { destruct (transactionOutcome (env w) (S (txCount w))) as [e1|]; cbn;
         close_balance_step. }
  destruct (transactionOutcome (env w) (S (txCount w))) as [e1|] eqn:Hadd; cbn.
  { destruct (transactionOutcome (env w) (S (S (txCount w)))) as [e2|]; cbn;
      close_balance_step. }
  destruct (pokemonsStore (db w) !! Pokemon.id p) as [q|] eqn:Hkey; cbn.
  { destruct (transactionOutcome (env w) (S (S (txCount w)))) as [e2|]; cbn;
      close_balance_step. }
  through_evaluation Hev r w1.
  destruct Hev as (He & _ & Hs & Hu & _ & _ & _ & (ws & Hj & Hws & _) & _ & _).
  apply (f_equal tokenBalance) in Hu. cbn in Hu.
  destruct r as [[]|e]; cbn.
  - unfold balanceStep, persistedBalance; cbn. rewrite Hs, Hu, Hj. cbn.
    split; [right; set_solver|].
    split; [right; eexists; split; [|reflexivity]; set_solver|].
    eexists; split; [rewrite <- ?app_assoc; reflexivity|]. close_balance_events.
  - unfold indexedDbService.withTransaction; cbn. rewrite He.
    destruct (transactionOutcome (env w) (txCount w1)) as [e2|]; cbn;
      unfold balanceStep, persistedBalance; cbn; rewrite ?Hs, ?Hu, Hj; cbn;
      (split; [right; set_solver|]);
      (split; [right; eexists; split; [|reflexivity]; set_solver|]);
      (eexists; split; [rewrite <- ?app_assoc; reflexivity|]); close_balance_events.
Qed.

Lemma rejected_balance_step (snap : UiState) (w : World) :
  (tokenBalance snap < GENERATION_COST ->
   balanceStep [] w (exec (handleGeneratePokemon snap) w))
  /\ (forall pokemon,
        tokenBalance snap < getBuyPrice (Pokemon.rarity pokemon) ->
        balanceStep [] w (exec (handleBuyPokemon snap pokemon) w)).
Proof.
  split.
  - intros Hlow. unfold handleGeneratePokemon.
    destruct (Z.ltb_spec (tokenBalance snap) GENERATION_COST) as [_|?]; [|lia].
    symex. unfold balanceStep. split; [by left|]. split; [by left|].
    exists []. by rewrite app_nil_r.
  - intros pokemon Hlow. unfold handleBuyPokemon.
    destruct (Z.ltb_spec (tokenBalance snap) (getBuyPrice (Pokemon.rarity pokemon)))
      as [_|?]; [|lia].
    symex. unfold balanceStep. split; [by left|]. split; [by left|].
    exists []. by rewrite app_nil_r.
Qed.

Lemma purchase_balance_step (snap : UiState) (pokemon : Pokemon.t) (w : World) :
  getBuyPrice (Pokemon.rarity pokemon) <= tokenBalance snap ->
  balanceStep [tokenBalance snap - getBuyPrice (Pokemon.rarity pokemon)] w
    (exec (handleBuyPokemon snap pokemon) w).
Proof.
  intros Hfunds. unfold handleBuyPokemon.
  destruct (Z.ltb_spec (tokenBalance snap) (getBuyPrice (Pokemon.rarity pokemon)))
    as [?|_]; [lia|].
  symex.
  destruct (transactionOutcome (env w) (txCount w)) as [e0|]; cbn;
    [close_balance_step|].
  destruct (transactionOutcome (env w) (S (txCount w))) as [e1|]; cbn;
    close_balance_step.
Qed.

Lemma resale_balance_step (snap : UiState) (pokemon : Pokemon.t) (w : World) :
  balanceStep [tokenBalance snap + getResellValue (Pokemon.rarity pokemon)] w
    (exec (handleResellConfirmation snap pokemon ;; resellOnConfirm snap pokemon) w).
Proof.
  unfold handleResellConfirmation, resellOnConfirm. symex.
  destruct (transactionOutcome (env w) (txCount w)) as [e0|]; cbn;
    [close_balance_step|].
  destruct (transactionOutcome (env w) (S (txCount w))) as [e1|]; cbn;
    [close_balance_step|].
  through_evaluation Hev r w1.
  destruct Hev as (He & _ & Hs & Hu & _ & _ & _ & (ws & Hj & Hws & _) & _ & _).
  apply (f_equal tokenBalance) in Hu. cbn in Hu.
  destruct r as [[]|e]; cbn;
    unfold balanceStep, persistedBalance; cbn; rewrite Hs, Hu, Hj; cbn;
    (split; [right; set_solver|]);
    (split; [right; eexists; split; [|reflexivity]; set_solver|]);
    (eexists; split; [rewrite <- ?app_assoc; reflexivity|]); close_balance_events.
Qed.

Lemma balanceStep_invariant (allowed : list Z) (w w' : World) :
  Forall (fun n => 0 <= n) allowed ->
  balanceStep allowed w w' ->
  balanceNeverNegative w -> balanceNeverNegative w'.
Proof.
  intros Hall (Hmem & Hdb & evs & Hj & Hevs) (Im & Id & Ij).
  rewrite Forall_forall in Hall. split; [|split].
  - destruct Hmem as [->|Hin]; [done|by apply Hall].
  - intros b Hb. destruct Hdb as [Heq|(n & Hn & Heq)].
    + apply Id. by rewrite <- Heq.
    + rewrite Heq in Hb. injection Hb as <-. by apply Hall.
  - rewrite Hj. apply Forall_app. split; [done|].
    eapply Forall_impl; [exact Hevs|]. intros ev Hev n Hn. apply Hall. by apply Hev.
Qed.

Lemma dispatch_invariant (i : Intent) (w : World) :
  balanceNeverNegative w -> balanceNeverNegative (exec (dispatch i) w).
Proof.
  intros Hinv. pose proof Hinv as (Hmem & _ & _).
  destruct i as [|pokemon|pokemon]; unfold exec, dispatch.
  - destruct (Z.lt_ge_cases (tokenBalance (ui w)) GENERATION_COST) as [Hlow|Hfunds].
    + eapply balanceStep_invariant; [|by apply rejected_balance_step|done]. done.
    + eapply balanceStep_invariant; [|by apply generation_balance_step|done].
      repeat constructor; lia.
  - eapply balanceStep_invariant; [|apply resale_balance_step|done].
    repeat constructor. destruct (Pokemon.rarity pokemon); cbn; lia.
  - destruct (Z.lt_ge_cases (tokenBalance (ui w)) (getBuyPrice (Pokemon.rarity pokemon)))
      as [Hlow|Hfunds].
    + eapply balanceStep_invariant; [|by apply rejected_balance_step|done]. done.
    + eapply balanceStep_invariant; [|by apply purchase_balance_step|done].
      repeat constructor; lia.
Qed.

Lemma run_invariant (intents : list Intent) (w : World) :
  balanceNeverNegative w -> balanceNeverNegative (run intents w).
Proof.
  revert w. induction intents as [|i intents IH]; intros w Hinv; [done|].
  cbn. by apply IH, dispatch_invariant.
Qed.

(** C2. Along every sequence of generate, resell and buy intents, each
    dispatched once the previous one has settled and whatever the store and
    the endpoint answer, the balance is never negative after any of them: not
    in memory, not in the store, and no negative balance is ever handed to
    the store.  A generation or purchase that the balance cannot pay for is
    rejected with the journal and the store as they were. *)
Theorem balance_never_negative :
  forall (intents : list Intent) (w : World),
    balanceNeverNegative w ->
    (forall k, balanceNeverNegative (run (take k intents) w))
    /\ (tokenBalance (ui w) - GENERATION_COST < 0 ->
        journal (exec (dispatch Generate) w) = journal w
        /\ db (exec (dispatch Generate) w) = db w)
    /\ (forall pokemon,
          tokenBalance (ui w) - getBuyPrice (Pokemon.rarity pokemon) < 0 ->
          journal (exec (dispatch (Buy pokemon)) w) = journal w
          /\ db (exec (dispatch (Buy pokemon)) w) = db w).
Proof.
  intros intents w Hinv. split; [|split].
  - intros k. by apply run_invariant.
  - intros Hlow. unfold exec, dispatch, handleGeneratePokemon.
    destruct (Z.ltb_spec (tokenBalance (ui w)) GENERATION_COST) as [_|?]; [|lia].
    by symex.
  - intros pokemon Hlow. unfold exec, dispatch, handleBuyPokemon.
    destruct (Z.ltb_spec (tokenBalance (ui w)) (getBuyPrice (Pokemon.rarity pokemon)))
      as [_|?]; [|lia].
    by symex.
Qed.

Lemma balance_never_negative_witness :
  let w := loadedWorld (stormyEnvironment [9%nat; 10%nat] (fun _ => FetchRejected AbortError)) in
  let w' := run [Generate; Generate; Buy sampleLegendary] w in
  balanceNeverNegative w /\ balanceNeverNegative w'.
Proof.
  intros w w'.
  assert (Hstart : balanceNeverNegative w).
  { split; [vm_compute; discriminate|]. split.
    - intros b Hb. vm_compute in Hb. injection Hb as <-. discriminate.
    - vm_compute. repeat constructor; intros n Hn; discriminate Hn. }
  split; [exact Hstart|].
  destruct (balance_never_negative [Generate; Generate; Buy sampleLegendary] w Hstart)
    as [Hrun _].
  exact (Hrun 3%nat).
Defined.

(** ** Daily bonus *)

Lemma offeredAmount_range (r : Q) :
  (0 <= r)%Q -> (r < 1)%Q -> 5 <= offeredAmount r <= 10.
Proof.
  intros H0 H1. unfold offeredAmount.
  assert (Hlo : 0 <= Qfloor (r * 6)%Q).
  { change 0 with (Qfloor (inject_Z 0)). apply Qfloor_resp_le.
    change (inject_Z 0) with (0 * 6)%Q. apply Qmult_le_compat_r; [done|]. done. }
  assert (Hhi : Qfloor (r * 6)%Q < 6).
  { rewrite Zlt_Qlt. eapply Qle_lt_trans; [apply Qfloor_le|].
    change (inject_Z 6) with (1 * 6)%Q. apply Qmult_lt_compat_r; done. }
  lia.
Qed.

Lemma fetchAppData_offer (w : World) :
  loadCommits w ->
  ui w = initialUiState ->
  let w' := exec fetchAppData w in
  let today := toDateString (env w) (clock (env w) (clockCount w)) in
  match dailyBonusRow (settingsStore (db w)) with
  | Some b =>
      if (toDateString (env w) (DailyBonusStatus.lastClaimed b) =? today)%Z
      then isDailyBonusModalOpen (ui w') = false
      else isDailyBonusModalOpen (ui w') = true
           /\ dailyBonusAmount (ui w') = offeredAmount (mathRandom (env w) (randomCount w))
  | None =>
      isDailyBonusModalOpen (ui w') = true
      /\ dailyBonusAmount (ui w') = offeredAmount (mathRandom (env w) (randomCount w))
  end.
Proof.
  intros Hload Hui w' today. subst w' today. unfold fetchAppData, offeredAmount.
  symex.
  rewrite (Hload (txCount w)) by lia. cbn.
  rewrite (Hload (S (txCount w))) by lia. cbn.
  rewrite (Hload (S (S (txCount w)))) by lia. cbn.
  destruct (tokenBalanceRow (settingsStore (db w))) as [balance|]; cbn;
    rewrite (Hload (S (S (S (txCount w))))) by lia; cbn;
    rewrite (Hload (S (S (S (S (txCount w)))))) by lia; cbn;
    rewrite (Hload (S (S (S (S (S (txCount w))))))) by lia; cbn;
    (destruct (playerSettingsRow (settingsStore (db w))) as [playerSettings|]; cbn);
    (destruct (dailyBonusRow (settingsStore (db w))) as [b|]; cbn;
     [destruct (toDateString (env w) (DailyBonusStatus.lastClaimed b)
                =? toDateString (env w) (clock (env w) (clockCount w)))%Z; cbn|]);
    through_evaluation Hev r w1;
    destruct Hev as (_ & _ & _ & Hu & _);
    pose proof (f_equal isDailyBonusModalOpen Hu) as Hopen;
    pose proof (f_equal dailyBonusAmount Hu) as Hamount;
    cbn in Hopen, Hamount; rewrite ?Hui in Hopen, Hamount; cbn in Hopen, Hamount;
    destruct r as [[]|e]; cbn; by rewrite ?Hopen, ?Hamount.
Qed.

(** The claim: the balance is credited by the offered amount, in the store
    and in memory, and the instant of the claim is stored as [lastClaimed]. *)
Lemma claim_daily_bonus (snap : UiState) (w : World) :
  transactionOutcome (env w) (txCount w) = None ->
  transactionOutcome (env w) (S (txCount w)) = None ->
  let w' := exec (handleClaimDailyBonus snap) w in
  persistedBalance w' = Some (tokenBalance snap + dailyBonusAmount snap)
  /\ tokenBalance (ui w') = tokenBalance snap + dailyBonusAmount snap
  /\ dailyBonusRow (settingsStore (db w'))
     = Some (DailyBonusStatus.mk (clock (env w) (clockCount w)))
  /\ isDailyBonusModalOpen (ui w') = false.
Proof.
  intros H1 H2 w'. subst w'. unfold handleClaimDailyBonus. symex.
  rewrite H1. cbn. rewrite H2. by cbn.
Qed.

(** After a claim, a reload on the same calendar day offers nothing; a reload
    on another calendar day offers between 5 and 10 tokens. *)
Lemma offer_after_claim (snap : UiState) (w : World) :
  transactionOutcome (env w) (txCount w) = None ->
  transactionOutcome (env w) (S (txCount w)) = None ->
  let claimed := exec (handleClaimDailyBonus snap) w in
  let reloaded := exec fetchAppData (remount claimed) in
  let claimDay := toDateString (env w) (clock (env w) (clockCount w)) in
  let reloadDay := toDateString (env w) (clock (env w) (clockCount claimed)) in
  loadCommits (remount claimed) ->
  (claimDay = reloadDay -> isDailyBonusModalOpen (ui reloaded) = false)
  /\ (claimDay <> reloadDay ->
      (0 <= mathRandom (env w) (randomCount w))%Q ->
      (mathRandom (env w) (randomCount w) < 1)%Q ->
      isDailyBonusModalOpen (ui reloaded) = true
      /\ 5 <= dailyBonusAmount (ui reloaded) <= 10).
Proof.
  intros H1 H2 claimed reloaded claimDay reloadDay Hload.
  destruct (claim_daily_bonus snap w H1 H2) as (_ & _ & Hrow & _). fold claimed in Hrow.
  pose proof (fetchAppData_offer (remount claimed) Hload eq_refl) as Hoffer.
  cbn zeta in Hoffer. fold reloaded in Hoffer.
  assert (Henv : env claimed = env w).
  { subst claimed. unfold handleClaimDailyBonus. symex. rewrite H1. cbn. rewrite H2.
    by cbn. }
  assert (Hrand : randomCount claimed = randomCount w).
  { subst claimed. unfold handleClaimDailyBonus. symex. rewrite H1. cbn. rewrite H2.
    by cbn. }
  change (db (remount claimed)) with (db claimed) in Hoffer.
  change (env (remount claimed)) with (env claimed) in Hoffer.
  change (clockCount (remount claimed)) with (clockCount claimed) in Hoffer.
  change (randomCount (remount claimed)) with (randomCount claimed) in Hoffer.
  rewrite Hrow, Henv, Hrand in Hoffer. cbn [DailyBonusStatus.lastClaimed] in Hoffer.
  fold claimDay reloadDay in Hoffer.
  destruct (Z.eqb_spec claimDay reloadDay) as [Heq|Hne]; split; try done.
  intros _ Hr0 Hr1. destruct Hoffer as [Hopen ->]. split; [done|].
  by apply offeredAmount_range.
Qed.

(** C8, the part the code does not do.  Two claims on the same calendar day,
    one hour apart, store two different [lastClaimed] values, each the full
    instant of its claim: what is stored is a timestamp, not the calendar
    date. *)
Theorem daily_bonus_claim_persists_a_timestamp :
  let w := loadedWorld calmEnvironment in
  let w1 := exec (handleClaimDailyBonus (ui w)) w in
  let v := loadedWorld laterEnvironment in
  let v1 := exec (handleClaimDailyBonus (ui v)) v in
  dailyBonusRow (settingsStore (db w1)) = Some (DailyBonusStatus.mk 1793556421123)
  /\ dailyBonusRow (settingsStore (db v1)) = Some (DailyBonusStatus.mk 1793560021123)
  /\ toDateString calmEnvironment 1793556421123
     = toDateString calmEnvironment 1793560021123
  /\ persistedBalance w1 = Some 110.
Proof. vm_compute. by repeat split. Qed.

(** ** Unlocked achievements along a run *)






(** *** Handlers of any render *)






(** * Further properties of the services *)

(** ** The settings rows *)

(** The first read creates the row.  [getTokenBalance] on a store without a
    balance row creates the row with 100 tokens and resolves with it;
    [getPlayerSettings] on a store without a settings row creates the row
    with the dark theme, sound muted and the player name "Ash", and resolves
    with it.  On a store that has the row each resolves with the stored row
    and changes nothing.  Each leaves the other rows and the other stores
    alone, and a second read resolves with the same row and changes
    nothing. *)
Theorem settings_rows_are_created_on_first_read (w : World) :
  transactionOutcome (env w) (txCount w) = None ->
  transactionOutcome (env w) (S (txCount w)) = None ->
  let initialBalance := TokenBalance.mk 100 in
  let defaultSettings := PlayerSettings.mk dark true "Ash" in
  let b := exec indexedDbService.getTokenBalance w in
  let s := exec indexedDbService.getPlayerSettings w in
  (outcome indexedDbService.getTokenBalance w
   = Resolved (default initialBalance (tokenBalanceRow (settingsStore (db w))))
   /\ tokenBalanceRow (settingsStore (db b))
      = Some (default initialBalance (tokenBalanceRow (settingsStore (db w))))
   /\ dailyBonusRow (settingsStore (db b)) = dailyBonusRow (settingsStore (db w))
   /\ playerSettingsRow (settingsStore (db b)) = playerSettingsRow (settingsStore (db w))
   /\ pokemonsStore (db b) = pokemonsStore (db w)
   /\ achievementsStore (db b) = achievementsStore (db w)
   /\ outcome indexedDbService.getTokenBalance b
      = outcome indexedDbService.getTokenBalance w
   /\ db (exec indexedDbService.getTokenBalance b) = db b)
  /\ (outcome indexedDbService.getPlayerSettings w
      = Resolved (default defaultSettings (playerSettingsRow (settingsStore (db w))))
      /\ playerSettingsRow (settingsStore (db s))
         = Some (default defaultSettings (playerSettingsRow (settingsStore (db w))))
      /\ tokenBalanceRow (settingsStore (db s)) = tokenBalanceRow (settingsStore (db w))
      /\ dailyBonusRow (settingsStore (db s)) = dailyBonusRow (settingsStore (db w))
      /\ pokemonsStore (db s) = pokemonsStore (db w)
      /\ achievementsStore (db s) = achievementsStore (db w)
      /\ outcome indexedDbService.getPlayerSettings s
         = outcome indexedDbService.getPlayerSettings w
      /\ db (exec indexedDbService.getPlayerSettings s) = db s).
Proof.
  intros H1 H2 initialBalance defaultSettings b s.
  subst initialBalance defaultSettings b s. symex. rewrite H1. split.
  - destruct (tokenBalanceRow (settingsStore (db w))) as [row|] eqn:Hrow; cbn;
      rewrite H2; cbn; rewrite ?Hrow; cbn; by repeat split.
  - destruct (playerSettingsRow (settingsStore (db w))) as [row|] eqn:Hrow; cbn;
      rewrite H2; cbn; rewrite ?Hrow; cbn; by repeat split.
Qed.

Lemma settings_rows_are_created_on_first_read_witness :
  let w := initialWorld calmEnvironment emptyDatabase in
  outcome indexedDbService.getTokenBalance w = Resolved (TokenBalance.mk 100)
  /\ persistedBalance (exec indexedDbService.getTokenBalance w) = Some 100
  /\ outcome indexedDbService.getPlayerSettings w
     = Resolved (PlayerSettings.mk dark true "Ash").
Proof.
  intros w.
  destruct (settings_rows_are_created_on_first_read w eq_refl eq_refl)
    as ((Hout & Hrow & _) & (Hset & _)).
  split; [exact Hout|]. split; [|exact Hset]. unfold persistedBalance. by rewrite Hrow.
Defined.

(** The last write wins, row by row.  A balance written with
    [updateTokenBalance], a status written with [updateDailyBonusStatus] and
    settings written with [updatePlayerSettings] are what the next read of
    that row resolves with, whatever the store held before; each write leaves
    the two other rows and the two other stores as they were. *)
Theorem settings_rows_last_write_wins (w : World) (n : Z) (status : DailyBonusStatus.t)
    (s : PlayerSettings.t) :
  transactionOutcome (env w) (txCount w) = None ->
  transactionOutcome (env w) (S (txCount w)) = None ->
  let wb := exec (indexedDbService.updateTokenBalance n) w in
  let wd := exec (indexedDbService.updateDailyBonusStatus status) w in
  let ws := exec (indexedDbService.updatePlayerSettings s) w in
  (outcome indexedDbService.getTokenBalance wb = Resolved (TokenBalance.mk n)
   /\ dailyBonusRow (settingsStore (db wb)) = dailyBonusRow (settingsStore (db w))
   /\ playerSettingsRow (settingsStore (db wb)) = playerSettingsRow (settingsStore (db w)))
  /\ (outcome indexedDbService.getDailyBonusStatus wd = Resolved (Some status)
      /\ tokenBalanceRow (settingsStore (db wd)) = tokenBalanceRow (settingsStore (db w))
      /\ playerSettingsRow (settingsStore (db wd))
         = playerSettingsRow (settingsStore (db w)))
  /\ (outcome indexedDbService.getPlayerSettings ws = Resolved s
      /\ tokenBalanceRow (settingsStore (db ws)) = tokenBalanceRow (settingsStore (db w))
      /\ dailyBonusRow (settingsStore (db ws)) = dailyBonusRow (settingsStore (db w)))
  /\ pokemonsStore (db wb) = pokemonsStore (db w)
  /\ pokemonsStore (db wd) = pokemonsStore (db w)
  /\ pokemonsStore (db ws) = pokemonsStore (db w)
  /\ achievementsStore (db wb) = achievementsStore (db w)
  /\ achievementsStore (db wd) = achievementsStore (db w)
  /\ achievementsStore (db ws) = achievementsStore (db w).
Proof.
  intros H1 H2 wb wd ws. subst wb wd ws. symex. rewrite H1. cbn. rewrite H2. by cbn.
Qed.

Lemma settings_rows_last_write_wins_witness :
  let w := loadedWorld calmEnvironment in
  outcome indexedDbService.getTokenBalance
    (exec (indexedDbService.updateTokenBalance 42) w)
  = Resolved (TokenBalance.mk 42).
Proof.
  intros w.
  by destruct (settings_rows_last_write_wins w 42 (DailyBonusStatus.mk 0)
                 (PlayerSettings.mk light false "Red") eq_refl eq_refl) as ((H & _) & _).
Defined.

(** ** The item store *)

Lemma getAll_Permutation {V} (m : gmap string V) :
  indexedDbService.getAll m ≡ₚ snd <$> map_to_list m.
Proof. unfold indexedDbService.getAll. by rewrite merge_sort_Permutation. Qed.

Lemma stored_ids (m : gmap string Pokemon.t) :
  (forall k p, m !! k = Some p -> Pokemon.id p = k) ->
  Pokemon.id <$> (snd <$> map_to_list m) = fst <$> map_to_list m.
Proof.
  intros Hkey. rewrite <- list_fmap_compose. apply list_fmap_ext.
  intros i [k p] Hi. cbn. apply Hkey. apply elem_of_map_to_list.
  apply list_elem_of_lookup. by exists i.
Qed.

Lemma filter_all {A} (P : A -> Prop) `{forall x, Decision (P x)} (l : list A) :
  Forall P l -> filter P l = l.
Proof.
  induction 1 as [|x l Hx _ IH]; [done|]. by rewrite filter_cons_True, IH.
Qed.

Lemma keyedById_insert (p : Pokemon.t) (d : Database) :
  keyedById d ->
  keyedById (indexedDbService.put_pokemonsStore
               (<[Pokemon.id p := p]> (pokemonsStore d)) d).
Proof.
  intros Hkey k q. cbn. destruct (decide (Pokemon.id p = k)) as [<-|Hne].
  - rewrite lookup_insert_eq. by intros [= <-].
  - rewrite lookup_insert_ne by done. apply Hkey.
Qed.

(** [addPokemon] of an item whose id is not in the store commits, and
    [getPokemons] then resolves with the items it resolved with before and
    the new one; [addPokemon] of an item whose id is in the store is rejected
    with a [ConstraintError] and leaves the store as it was. *)
Theorem addPokemon_then_getPokemons (p : Pokemon.t) (w : World) :
  transactionOutcome (env w) (txCount w) = None ->
  transactionOutcome (env w) (S (txCount w)) = None ->
  let w1 := exec (indexedDbService.addPokemon p) w in
  match pokemonsStore (db w) !! Pokemon.id p with
  | None =>
      outcome (indexedDbService.addPokemon p) w = Resolved p
      /\ exists before after,
           outcome indexedDbService.getPokemons w = Resolved before
           /\ outcome indexedDbService.getPokemons w1 = Resolved after
           /\ after ≡ₚ p :: before
  | Some _ =>
      outcome (indexedDbService.addPokemon p) w
      = Rejected indexedDbService.ConstraintError
      /\ db w1 = db w
      /\ outcome indexedDbService.getPokemons w1
         = outcome indexedDbService.getPokemons w
  end.
Proof.
  intros H1 H2 w1. subst w1. symex. rewrite H1.
  destruct (pokemonsStore (db w) !! Pokemon.id p) as [q|] eqn:Hkey; cbn;
    rewrite H2; cbn; [done|].
  split; [done|]. eexists _, _. split; [done|]. split; [done|].
  rewrite !getAll_Permutation, map_to_list_insert by done. by rewrite fmap_cons.
Qed.

Lemma addPokemon_then_getPokemons_witness :
  let w := loadedWorld calmEnvironment in
  outcome (indexedDbService.addPokemon firstForgemon) w = Resolved firstForgemon
  /\ outcome (indexedDbService.addPokemon firstForgemon) forgedWorld
     = Rejected indexedDbService.ConstraintError.
Proof.
  intros w. split.
  - pose proof (addPokemon_then_getPokemons firstForgemon w eq_refl eq_refl) as H.
    cbn zeta in H.
    assert (Hkey : pokemonsStore (db w) !! Pokemon.id firstForgemon = None)
      by (vm_compute; reflexivity).
    rewrite Hkey in H. by destruct H as (H & _).
  - pose proof (addPokemon_then_getPokemons firstForgemon forgedWorld eq_refl eq_refl)
      as H.
    cbn zeta in H.
    assert (Hkey : pokemonsStore (db forgedWorld) !! Pokemon.id firstForgemon
                   = Some firstForgemon) by (vm_compute; reflexivity).
    rewrite Hkey in H. by destruct H as (H & _).
Defined.

(** [updatePokemon] never fails on the key: it replaces the stored item of
    the same id, or inserts the item when the id is not in the store.  In a
    store keyed by id, [getPokemons] afterwards resolves with the given item
    and the items of other ids it resolved with before; the ids it resolves
    with are pairwise distinct. *)
Theorem updatePokemon_then_getPokemons (p : Pokemon.t) (w : World) :
  keyedById (db w) ->
  transactionOutcome (env w) (txCount w) = None ->
  transactionOutcome (env w) (S (txCount w)) = None ->
  let w1 := exec (indexedDbService.updatePokemon p) w in
  outcome (indexedDbService.updatePokemon p) w = Resolved p
  /\ pokemonsStore (db w1) !! Pokemon.id p = Some p
  /\ keyedById (db w1)
  /\ exists before after,
       outcome indexedDbService.getPokemons w = Resolved before
       /\ outcome indexedDbService.getPokemons w1 = Resolved after
       /\ after ≡ₚ p :: filter (fun q => Pokemon.id q <> Pokemon.id p) before
       /\ NoDup (Pokemon.id <$> after).
Proof.
  intros Hkeyed H1 H2 w1. subst w1.
  pose proof (keyedById_insert p (db w) Hkeyed) as Hkeyed'.
  symex. rewrite H1. cbn. rewrite H2. cbn.
  split; [done|]. split; [by rewrite lookup_insert_eq|]. split; [exact Hkeyed'|].
  eexists _, _. split; [done|]. split; [done|]. split.
  - assert (Hrest : filter (fun q => Pokemon.id q <> Pokemon.id p)
                      (snd <$> map_to_list (delete (Pokemon.id p) (pokemonsStore (db w))))
                    = snd <$> map_to_list (delete (Pokemon.id p) (pokemonsStore (db w)))).
    { apply filter_all. apply Forall_forall. intros q Hq.
      apply list_elem_of_fmap in Hq as ([k q'] & -> & Hq). cbn.
      apply elem_of_map_to_list in Hq.
      apply lookup_delete_Some in Hq as [Hne Hq]. rewrite (Hkeyed _ _ Hq). done. }
    rewrite !getAll_Permutation.
    rewrite <- insert_delete_eq.
    rewrite map_to_list_insert by apply lookup_delete_eq. rewrite fmap_cons. cbn [snd].
    apply Permutation_skip.
    destruct (pokemonsStore (db w) !! Pokemon.id p) as [q|] eqn:Hq.
    + rewrite <- (map_to_list_delete _ _ _ Hq). rewrite fmap_cons. cbn [snd].
      rewrite filter_cons_False by (rewrite (Hkeyed _ _ Hq); by intros []).
      by rewrite Hrest.
    + rewrite delete_id in * by done. by rewrite Hrest.
  - pose proof (stored_ids _ Hkeyed') as Hids. cbn in Hids.
    rewrite getAll_Permutation, Hids.
    apply NoDup_fst_map_to_list.
Qed.

Lemma updatePokemon_then_getPokemons_witness :
  let p := Pokemon.with_isFavorite firstForgemon true in
  pokemonsStore (db (exec (indexedDbService.updatePokemon p) forgedWorld)) !! "mon-0"
  = Some p.
Proof.
  intros p.
  assert (Hkeyed : keyedById (db forgedWorld)).
  { intros k q. replace (pokemonsStore (db forgedWorld))
      with ({["mon-0" := firstForgemon]} : gmap string Pokemon.t)
      by (vm_compute; reflexivity).
    intros [<- <-]%lookup_singleton_Some. reflexivity. }
  by destruct (updatePokemon_then_getPokemons p forgedWorld Hkeyed eq_refl eq_refl)
    as (_ & H & _).
Defined.

(** ** The schema upgrade *)

(** The upgrade handler of [openDatabase] creates only stores the database
    does not have yet, and none twice, so that no [createObjectStore] can
    fail on an existing name and no existing store is replaced.  From a
    version below 2 every one of the three stores exists afterwards; from
    version 2, the achievements store exists afterwards and the two other
    stores are left to what version 2 created; from version 3 on nothing is
    created. *)
Theorem upgrade_creates_the_missing_stores (oldVersion : Z)
    (objectStoreNames : StoreNames.t -> bool) :
  let created := onupgradeneeded oldVersion objectStoreNames in
  let existsAfter (name : StoreNames.t) :=
    objectStoreNames name = true \/ name ∈ created in
  NoDup created
  /\ (forall name, name ∈ created -> objectStoreNames name = false)
  /\ (oldVersion < 2 -> forall name, existsAfter name)
  /\ (oldVersion < DB_VERSION -> existsAfter StoreNames.Achievements)
  /\ (2 <= oldVersion -> forall name, name ∈ created -> name = StoreNames.Achievements)
  /\ (DB_VERSION <= oldVersion -> created = []).
Proof.
  unfold onupgradeneeded, DB_VERSION. cbn zeta.
  assert (Hmem : forall (name : StoreNames.t) l, name ∈ l <-> In name l)
    by (intros; apply list_elem_of_In).
  setoid_rewrite Hmem.
  destruct (Z.ltb_spec oldVersion 2), (Z.ltb_spec oldVersion 3); try lia;
    destruct (objectStoreNames StoreNames.Pokemons) eqn:Hp,
             (objectStoreNames StoreNames.Settings) eqn:Hs,
             (objectStoreNames StoreNames.Achievements) eqn:Ha; cbn;
    (split; [repeat (apply NoDup_cons; split; [rewrite Hmem; cbn; intuition discriminate|]);
             apply NoDup_nil_2|]);
    (split; [intros name Hin; intuition (subst; done)|]);
    (split; [intros ? name; try lia; destruct name; intuition done|]);
    (split; [intros ?; try lia; intuition done|]);
    (split; [intros ? name Hin; try lia; intuition (subst; done)|intros ?; by try lia]).
Qed.

Lemma upgrade_creates_the_missing_stores_witness :
  onupgradeneeded 0 (fun _ => false)
  = [StoreNames.Pokemons; StoreNames.Settings; StoreNames.Achievements]
  /\ onupgradeneeded 2 (fun name => match name with
                                    | StoreNames.Achievements => false
                                    | _ => true
                                    end)
     = [StoreNames.Achievements]
  /\ (StoreNames.Achievements
      ∈ onupgradeneeded 2 (fun name => match name with
                                       | StoreNames.Achievements => false
                                       | _ => true
                                       end)).
Proof.
  split; [reflexivity|]. split; [reflexivity|].
  destruct (upgrade_creates_the_missing_stores 2
              (fun name => match name with
                           | StoreNames.Achievements => false
                           | _ => true
                           end))
    as (_ & _ & _ & Hach & _).
  destruct Hach as [Hfalse|Hin]; [unfold DB_VERSION; lia|discriminate Hfalse|exact Hin].
Defined.

(** ** The remote client: what it reports and what it touches *)

(** When [fetch] itself is rejected, [generatePokemon] rejects: with the
    30-second time-out text when the rejection is an [AbortError], whatever its
    message; with the connection text, which names the [/generate] address,
    when it is a [TypeError] with the message "Failed to fetch"; and with the
    caught error itself otherwise. *)
Theorem fetch_rejections_classified (w : World) (e : JsError) :
  fetchOutcome (env w) (fetchCount w) = FetchRejected e ->
  let r := outcome pokemonApiService.generatePokemon w in
  (error_name e = "AbortError" ->
   r = Rejected (Error "The Pokémon generation request timed out after 30 seconds. The API might be busy, please try again later."))
  /\ (error_name e = "TypeError" -> error_message e = "Failed to fetch" ->
      r = Rejected (Error "Could not connect to the Pokémon API. This might be a network issue, the API server being down, or a self-signed HTTPS certificate. If the API uses a self-signed certificate, please try opening https://epsi.journeesdecouverte.fr:22222/v1/generate in a new browser tab and accepting the security warning, then refresh this page. Also, verify the API server has correct CORS configuration for your client application's origin."))
  /\ (error_name e <> "AbortError" ->
      error_name e <> "TypeError" \/ error_message e <> "Failed to fetch" ->
      r = Rejected e).
Proof.
  intros Hfetch r. subst r. unfold_api. rewrite Hfetch. cbn.
  split; [|split].
  - intros ->. reflexivity.
  - intros -> ->. reflexivity.
  - intros Hn Hor. destruct (String.eqb_spec (error_name e) "AbortError"); [done|].
    destruct (String.eqb_spec (error_name e) "TypeError"); cbn; [|done].
    destruct (String.eqb_spec (error_message e) "Failed to fetch"); cbn; [|done].
    by destruct Hor.
Qed.

Lemma fetch_rejections_classified_witness :
  let offline := {| error_name := "TypeError"; error_message := "Failed to fetch" |} in
  let reset :=
    {| error_name := "TypeError";
       error_message := "NetworkError when attempting to fetch resource." |} in
  outcome pokemonApiService.generatePokemon timeoutWorld
  = Rejected pokemonApiService.timedOut
  /\ outcome pokemonApiService.generatePokemon
       (loadedWorld (stormyEnvironment [] (fun _ => FetchRejected offline)))
     = Rejected pokemonApiService.couldNotConnect
  /\ outcome pokemonApiService.generatePokemon
       (loadedWorld (stormyEnvironment [] (fun _ => FetchRejected reset)))
     = Rejected reset.
Proof.
  intros offline reset. split; [|split].
  - assert (H : fetchOutcome (env timeoutWorld) (fetchCount timeoutWorld)
                = FetchRejected AbortError) by (vm_compute; reflexivity).
    destruct (fetch_rejections_classified timeoutWorld AbortError H) as (Ht & _).
    exact (Ht eq_refl).
  - set (w := loadedWorld (stormyEnvironment [] (fun _ => FetchRejected offline))).
    assert (H : fetchOutcome (env w) (fetchCount w) = FetchRejected offline)
      by (vm_compute; reflexivity).
    destruct (fetch_rejections_classified w offline H) as (_ & Hc & _).
    exact (Hc eq_refl eq_refl).
  - set (w := loadedWorld (stormyEnvironment [] (fun _ => FetchRejected reset))).
    assert (H : fetchOutcome (env w) (fetchCount w) = FetchRejected reset)
      by (vm_compute; reflexivity).
    destruct (fetch_rejections_classified w reset H) as (_ & _ & Ho).
    apply Ho; [discriminate|]. right. discriminate.
Defined.

(** A response whose [ok] flag is false never yields an item: whatever its
    body, [generatePokemon] rejects with an [Error] (so the failure is
    reported neither as a time-out nor as a connection failure) whose message
    is not empty: the body's [error.message] when there is a non-empty one,
    "HTTP error! Status: n" when the body cannot be parsed, and "Failed to
    generate Pokémon (HTTP n)" otherwise. *)
Theorem http_error_is_rejected (w : World) (http_status : Z) (body : JsonBody) :
  fetchOutcome (env w) (fetchCount w) = FetchResponse false http_status body ->
  exists m,
    outcome pokemonApiService.generatePokemon w = Rejected (Error m)
    /\ m <> EmptyString
    /\ m = match body with
           | BodyUnparseable _ => "HTTP error! Status: " ++ pretty http_status
           | BodyNull => "Failed to generate Pokémon (HTTP " ++ pretty http_status ++ ")"
           | BodyObject d =>
               match api_error_message d with
               | Some (String c s) => String c s
               | _ => "Failed to generate Pokémon (HTTP " ++ pretty http_status ++ ")"
               end
           end.
Proof.
  intros Hfetch. unfold_api. rewrite Hfetch. cbn.
  destruct body as [e| |d]; cbn.
  - eexists. split; [reflexivity|]. split; [discriminate|reflexivity].
  - eexists. split; [reflexivity|]. split; [discriminate|reflexivity].
  - destruct (api_error_message d) as [[|c s]|]; cbn;
      (eexists; split; [reflexivity|]; split; [discriminate|reflexivity]).
Qed.

Lemma http_error_is_rejected_witness :
  let busy :=
    {| api_imageBase64 := None; api_metadata := None; api_generatedAt := None;
       api_error_message := Some "Rate limit exceeded" |} in
  outcome pokemonApiService.generatePokemon
    (loadedWorld (stormyEnvironment [] (fun _ => FetchResponse false 429 (BodyObject busy))))
  = Rejected (Error "Rate limit exceeded").
Proof.
  intros busy.
  set (w := loadedWorld
              (stormyEnvironment [] (fun _ => FetchResponse false 429 (BodyObject busy)))).
  assert (H : fetchOutcome (env w) (fetchCount w)
              = FetchResponse false 429 (BodyObject busy)) by (vm_compute; reflexivity).
  destruct (http_error_is_rejected w 429 (BodyObject busy) H) as (m & Hout & _ & ->).
  exact Hout.
Defined.

(** [generatePokemon] resolves exactly when the response is a success
    response that carries a non-empty image, id, name and rarity code and a
    generation instant; the item it resolves with takes its id, name, image
    and generation instant from the response.  Every other success response
    with a parsed body is rejected as an invalid format. *)
Theorem generatePokemon_resolves_iff_accepted (w : World) :
  let o := fetchOutcome (env w) (fetchCount w) in
  (forall p, outcome pokemonApiService.generatePokemon w = Resolved p ->
             exists apiRarity, apiRarity <> EmptyString /\ acceptedResponse o p apiRarity)
  /\ (forall q apiRarity,
        apiRarity <> EmptyString -> acceptedResponse o q apiRarity ->
        exists p, outcome pokemonApiService.generatePokemon w = Resolved p
                  /\ acceptedResponse o p apiRarity)
  /\ (forall http_status body,
        o = FetchResponse true http_status body ->
        (forall e, body <> BodyUnparseable e) ->
        (forall q apiRarity, apiRarity <> EmptyString -> ~ acceptedResponse o q apiRarity) ->
        outcome pokemonApiService.generatePokemon w
        = Rejected pokemonApiService.invalidFormat).
Proof.
  intros o. subst o.
  assert (Hcases :
    match fetchOutcome (env w) (fetchCount w) with
    | FetchResponse true _ (BodyObject data) =>
        match api_imageBase64 data, api_metadata data, api_generatedAt data with
        | Some (String c1 s1), Some metadata, Some t =>
            match meta_id metadata, meta_name metadata, meta_rarity metadata with
            | Some (String c2 s2), Some (String c3 s3), Some (String c4 s4) =>
                exists rarity,
                  outcome pokemonApiService.generatePokemon w
                  = Resolved (Pokemon.mk (String c2 s2) (String c3 s3) rarity
                                (String c1 s1) t OWNED false)
            | _, _, _ =>
                outcome pokemonApiService.generatePokemon w
                = Rejected pokemonApiService.invalidFormat
            end
        | _, _, _ =>
            outcome pokemonApiService.generatePokemon w
            = Rejected pokemonApiService.invalidFormat
        end
    | FetchResponse true _ BodyNull =>
        outcome pokemonApiService.generatePokemon w
        = Rejected pokemonApiService.invalidFormat
    | _ => exists e, outcome pokemonApiService.generatePokemon w = Rejected e
    end).
  { unfold_api.
    destruct (fetchOutcome (env w) (fetchCount w)) as [e|ok st body]; cbn.
    - destruct (error_name e =? "AbortError"); cbn; [by eexists|].
      destruct ((error_name e =? "TypeError") && (error_message e =? "Failed to fetch"));
        by eexists.
    - destruct ok; cbn; [|destruct body; cbn; by eexists].
      destruct body as [e| |data]; cbn.
      + destruct (error_name e =? "AbortError"); cbn; [by eexists|].
        destruct ((error_name e =? "TypeError") && (error_message e =? "Failed to fetch"));
          by eexists.
      + done.
      + destruct (api_imageBase64 data) as [[|c1 s1]|]; [| |done];
          (destruct (api_metadata data) as [metadata|]; [|done]);
          (destruct (api_generatedAt data) as [t|]; [|done]);
          (destruct (meta_id metadata) as [[|c2 s2]|];
           destruct (meta_name metadata) as [[|c3 s3]|];
           destruct (meta_rarity metadata) as [[|c4 s4]|]; try done).
        cbn.
        repeat match goal with
               | |- context [if ?b then _ else _] => destruct b; [by eexists|]
               end.
        by eexists. }
  split; [|split].
  - intros p Hp. unfold acceptedResponse.
    destruct (fetchOutcome (env w) (fetchCount w)) as [e|[] st [e| |data]];
      try (destruct Hcases as (e' & He'); congruence); try congruence.
    destruct (api_imageBase64 data) as [[|c1 s1]|] eqn:E1; try congruence;
      (destruct (api_metadata data) as [metadata|] eqn:E2; [|congruence]);
      (destruct (api_generatedAt data) as [t|] eqn:E3; [|congruence]);
      (destruct (meta_id metadata) as [[|c2 s2]|] eqn:E4;
       destruct (meta_name metadata) as [[|c3 s3]|] eqn:E5;
       destruct (meta_rarity metadata) as [[|c4 s4]|] eqn:E6; try congruence).
    destruct Hcases as (rarity & Hr). rewrite Hr in Hp. injection Hp as <-.
    exists (String c4 s4). split; [done|].
    by eexists st, data, metadata, c1, s1, c2, s2, c3, s3.
  - intros q code Hcode (st & data & metadata & c1 & s1 & c2 & s2 & c3 & s3
                         & Ho & E2 & E1 & E3 & E4 & E5 & E6 & Hid & Hname & Himg).
    rewrite Ho in Hcases |- *. rewrite E1, E2, E3, E4, E5, E6 in Hcases.
    destruct code as [|c4 s4]; [done|]. destruct Hcases as (rarity & Hr).
    eexists. split; [exact Hr|].
    by eexists st, data, metadata, c1, s1, c2, s2, c3, s3.
  - intros st body Ho Hparsed Hnot. rewrite Ho in Hcases.
    destruct body as [e| |data]; [by destruct (Hparsed e)|done|].
    destruct (api_imageBase64 data) as [[|c1 s1]|] eqn:E1; try done;
      (destruct (api_metadata data) as [metadata|] eqn:E2; [|done]);
      (destruct (api_generatedAt data) as [t|] eqn:E3; [|done]);
      (destruct (meta_id metadata) as [[|c2 s2]|] eqn:E4;
       destruct (meta_name metadata) as [[|c3 s3]|] eqn:E5;
       destruct (meta_rarity metadata) as [[|c4 s4]|] eqn:E6; try done).
    exfalso.
    apply (Hnot (Pokemon.mk (String c2 s2) (String c3 s3) COMMON (String c1 s1) t
                   OWNED false) (String c4 s4)); [done|].
    rewrite Ho. by eexists st, data, metadata, c1, s1, c2, s2, c3, s3.
Qed.
Lemma generatePokemon_resolves_iff_accepted_witness :
  let w := loadedWorld calmEnvironment in
  let v := loadedWorld (stormyEnvironment [] (fun _ => FetchResponse true 200 BodyNull)) in
  (exists apiRarity, acceptedResponse (fetchOutcome (env w) (fetchCount w))
                       firstForgemon apiRarity)
  /\ (exists p, outcome pokemonApiService.generatePokemon w = Resolved p)
  /\ outcome pokemonApiService.generatePokemon v
     = Rejected pokemonApiService.invalidFormat.
Proof.
  intros w v.
  destruct (generatePokemon_resolves_iff_accepted w) as (Honly & Hif & _).
  destruct (generatePokemon_resolves_iff_accepted v) as (_ & _ & Hinvalid).
  cbn zeta in *.
  assert (Hp : outcome pokemonApiService.generatePokemon w = Resolved firstForgemon)
    by (vm_compute; reflexivity).
  destruct (Honly firstForgemon Hp) as (code & Hcode & Hacc).
  split; [by exists code|]. split.
  - destruct (Hif firstForgemon code Hcode Hacc) as (p & Hr & _). by exists p.
  - apply (Hinvalid 200 BodyNull); [by vm_compute|done|].
    intros q code' _ (st & data & metadata & c1 & s1 & c2 & s2 & c3 & s3 & Ho & _).
    vm_compute in Ho. discriminate Ho.
Defined.

(** ** The order of the collection *)

Lemma insertByGeneratedAt_Permutation (p : Pokemon.t) (l : list Pokemon.t) :
  insertByGeneratedAt p l ≡ₚ p :: l.
Proof.
  induction l as [|q l IH]; [done|]. cbn.
  destruct (Pokemon.generatedAt q <=? Pokemon.generatedAt p)%Z; [done|].
  rewrite IH. apply Permutation_swap.
Qed.

Lemma sortByGeneratedAt_Permutation (l : list Pokemon.t) : sortByGeneratedAt l ≡ₚ l.
Proof.
  induction l as [|p l IH]; [done|]. unfold sortByGeneratedAt in *. cbn.
  by rewrite insertByGeneratedAt_Permutation, IH.
Qed.

Lemma sortByGeneratedAt_length (l : list Pokemon.t) :
  length (sortByGeneratedAt l) = length l.
Proof. by rewrite sortByGeneratedAt_Permutation. Qed.

Lemma insertByGeneratedAt_newestFirst (p : Pokemon.t) (l : list Pokemon.t) :
  newestFirst l -> newestFirst (insertByGeneratedAt p l).
Proof.
  unfold newestFirst. induction 1 as [|q l Hl IH Hq]; cbn.
  - by repeat constructor.
  - destruct (Z.leb_spec (Pokemon.generatedAt q) (Pokemon.generatedAt p)) as [Hle|Hgt].
    + constructor; [by constructor|]. constructor; [done|].
      eapply Forall_impl; [exact Hq|]. cbn. intros; lia.
    + constructor; [done|]. rewrite insertByGeneratedAt_Permutation.
      constructor; [lia|done].
Qed.

Lemma sortByGeneratedAt_newestFirst (l : list Pokemon.t) :
  newestFirst (sortByGeneratedAt l).
Proof.
  induction l as [|p l IH]; [constructor|].
  by apply insertByGeneratedAt_newestFirst.
Qed.

Lemma insertByGeneratedAt_stable (t : Instant) (p : Pokemon.t) (l : list Pokemon.t) :
  filter (fun q => Pokemon.generatedAt q = t) (insertByGeneratedAt p l)
  = filter (fun q => Pokemon.generatedAt q = t) (p :: l).
Proof.
  induction l as [|q l IH]; [done|]. cbn [insertByGeneratedAt].
  destruct (Z.leb_spec (Pokemon.generatedAt q) (Pokemon.generatedAt p)) as [Hle|Hgt];
    [done|].
  rewrite (filter_cons _ q), IH, !filter_cons.
  repeat case_decide; try done; lia.
Qed.

Lemma sortByGeneratedAt_sorted_id (l : list Pokemon.t) :
  newestFirst l -> sortByGeneratedAt l = l.
Proof.
  unfold newestFirst, sortByGeneratedAt. induction 1 as [|p l Hl IH Hp]; [done|].
  cbn. rewrite IH. destruct Hp as [|q l' Hq _]; [done|]. cbn.
  by destruct (Z.leb_spec (Pokemon.generatedAt q) (Pokemon.generatedAt p)); [|lia].
Qed.

(** The sort applied to the collection when it is loaded and when an item
    is added rearranges the items (none is lost or duplicated), puts them
    most recent first, keeps items generated at the same instant in the order
    they had, and leaves a list that is already most recent first as it
    is. *)
Theorem sortByGeneratedAt_newest_first_and_stable (l : list Pokemon.t) :
  sortByGeneratedAt l ≡ₚ l
  /\ newestFirst (sortByGeneratedAt l)
  /\ (forall t : Instant,
        filter (fun q => Pokemon.generatedAt q = t) (sortByGeneratedAt l)
        = filter (fun q => Pokemon.generatedAt q = t) l)
  /\ (newestFirst l -> sortByGeneratedAt l = l)
  /\ sortByGeneratedAt (sortByGeneratedAt l) = sortByGeneratedAt l.
Proof.
  split; [apply sortByGeneratedAt_Permutation|].
  split; [apply sortByGeneratedAt_newestFirst|]. split; [|split].
  - intros t. induction l as [|p l IH]; [done|].
    change (sortByGeneratedAt (p :: l)) with (insertByGeneratedAt p (sortByGeneratedAt l)).
    by rewrite insertByGeneratedAt_stable, !filter_cons, IH.
  - apply sortByGeneratedAt_sorted_id.
  - apply sortByGeneratedAt_sorted_id, sortByGeneratedAt_newestFirst.
Qed.

Lemma sortByGeneratedAt_newest_first_and_stable_witness :
  let twin := Pokemon.mk "mon-8" "Twin" RARE "aGVsbG8=" 1793556420007 OWNED false in
  sortByGeneratedAt [firstForgemon; sampleLegendary; twin]
  = [sampleLegendary; twin; firstForgemon]
  /\ sortByGeneratedAt [sampleLegendary; twin; firstForgemon]
     = [sampleLegendary; twin; firstForgemon].
Proof.
  intros twin. split; [reflexivity|].
  destruct (sortByGeneratedAt_newest_first_and_stable [sampleLegendary; twin; firstForgemon])
    as (_ & _ & _ & Hid & _).
  apply Hid. unfold newestFirst. repeat constructor; cbn; lia.
Defined.

(** ** Views *)

Lemma elem_of_List_filter {A} (f : A -> bool) (l : list A) (x : A) :
  x ∈ List.filter f l <-> x ∈ l /\ f x = true.
Proof. rewrite !list_elem_of_In. apply filter_In. Qed.

Lemma List_filter_complement {A} (f : A -> bool) (l : list A) :
  (List.filter f l ++ List.filter (fun x => negb (f x)) l)%list ≡ₚ l.
Proof.
  induction l as [|x l IH]; [done|]. cbn. destruct (f x); cbn.
  - by rewrite IH.
  - rewrite <- Permutation_middle. by rewrite IH.
Qed.

(** The owned collection and the unfiltered market split the items: every
    item is in exactly one of them.  The filter "all" shows every item, the
    filter "resold" shows what the unfiltered market shows, the favourites
    are the owned items that are marked favourite (a resold item is not
    among them, marked or not), and a rarity filter narrows the market to
    that rarity. *)
Theorem collection_and_market_split_the_items (l : list Pokemon.t) :
  collectionPokemons l FilterAll = l
  /\ (collectionPokemons l (FilterStatus OWNED) ++ marketPokemons l None)%list ≡ₚ l
  /\ collectionPokemons l (FilterStatus RESOLD) = marketPokemons l None
  /\ (forall p, p ∈ collectionPokemons l (FilterStatus OWNED) ->
                p ∈ marketPokemons l None -> False)
  /\ (forall p, p ∈ collectionPokemons l FilterFavorites
                <-> p ∈ collectionPokemons l (FilterStatus OWNED)
                    /\ Pokemon.isFavorite p = true)
  /\ (forall r p, p ∈ marketPokemons l (Some r)
                  <-> p ∈ marketPokemons l None /\ Pokemon.rarity p = r).
Proof.
  unfold collectionPokemons, marketPokemons.
  assert (Hmarket :
    List.filter (fun p => PokemonStatus_eqb (Pokemon.status p) RESOLD && true) l
    = List.filter (fun p => PokemonStatus_eqb (Pokemon.status p) RESOLD) l).
  { apply filter_ext. intros p. by rewrite andb_true_r. }
  split; [|split; [|split; [|split; [|split]]]].
  - clear Hmarket. induction l as [|p l IH]; [done|]. cbn. by rewrite IH.
  - rewrite Hmarket.
    rewrite <- (List_filter_complement
                  (fun p => PokemonStatus_eqb (Pokemon.status p) OWNED) l) at 3.
    apply Permutation_app; [done|].
    rewrite (filter_ext _ (fun p => negb (PokemonStatus_eqb (Pokemon.status p) OWNED)));
      [done|].
    intros p. by destruct (Pokemon.status p).
  - by rewrite Hmarket.
  - intros p [_ H1]%elem_of_List_filter [_ H2]%elem_of_List_filter.
    by destruct (Pokemon.status p).
  - intros p. rewrite !elem_of_List_filter, andb_true_iff. tauto.
  - intros r p. rewrite !elem_of_List_filter, !andb_true_iff.
    assert (PokemonRarity_eqb (Pokemon.rarity p) r = true <-> Pokemon.rarity p = r)
      by (destruct (Pokemon.rarity p), r; by split).
    tauto.
Qed.

Lemma collection_and_market_split_the_items_witness :
  let sold := Pokemon.with_status (Pokemon.with_isFavorite sampleLegendary true) RESOLD in
  let l := [firstForgemon; sold] in
  collectionPokemons l (FilterStatus OWNED) = [firstForgemon]
  /\ marketPokemons l None = [sold]
  /\ collectionPokemons l FilterFavorites = []
  /\ (sold ∈ collectionPokemons l (FilterStatus OWNED) -> False).
Proof.
  intros sold l. split; [reflexivity|]. split; [reflexivity|]. split; [reflexivity|].
  destruct (collection_and_market_split_the_items l) as (_ & _ & _ & Hsplit & _).
  intros H. apply (Hsplit sold H). cbn. constructor.
Defined.

(** Whatever the view and its filters, a card that offers the purchase is
    the card of a resold item, a card that offers the resale or the favourite
    toggle is the card of an owned item, and no card offers both the purchase
    and the resale; every card shows an item of the collection in memory, in
    the context of the current view. *)
Theorem cards_offer_what_the_status_allows (s : UiState) (currentView : View.t)
    (collectionFilter : CollectionFilter) (marketRarityFilter : option PokemonRarity)
    (p : Pokemon.t) (context : View.t) :
  (p, context) ∈ cards s currentView collectionFilter marketRarityFilter ->
  p ∈ pokemons s /\ context = currentView /\ isLoading s = false
  /\ (showsBuy p context = true -> Pokemon.status p = RESOLD)
  /\ (showsResell p context = true -> Pokemon.status p = OWNED)
  /\ (showsFavoriteToggle p context = true -> Pokemon.status p = OWNED)
  /\ showsBuy p context && showsResell p context = false
  /\ (context = View.studio ->
      showsBuy p context = false /\ showsResell p context = false
      /\ showsFavoriteToggle p context = false).
Proof.
  unfold cards, showsBuy, showsResell, showsFavoriteToggle.
  destruct (isLoading s); [by intros ?%elem_of_nil|].
  destruct currentView; try (by intros ?%elem_of_nil);
    intros (q & [= -> ->] & Hq)%list_elem_of_fmap; cbn.
  - unfold studioShowcase in Hq. apply elem_of_take in Hq as (i & Hq & _).
    apply list_elem_of_lookup_2, elem_of_List_filter in Hq as [Hin Hs].
    repeat split; try done; by destruct (Pokemon.status q).
  - unfold collectionPokemons in Hq. apply elem_of_List_filter in Hq as [Hin _].
    repeat split; try done; by destruct (Pokemon.status q).
  - unfold marketPokemons in Hq.
    apply elem_of_List_filter in Hq as [Hin [Hs _]%andb_true_iff].
    repeat split; try done; by destruct (Pokemon.status q).
Qed.

Lemma cards_offer_what_the_status_allows_witness :
  let sold := Pokemon.with_status sampleLegendary RESOLD in
  let s := put_isLoading false (put_pokemons [firstForgemon; sold] initialUiState) in
  cards s View.market FilterAll None = [(sold, View.market)]
  /\ showsBuy sold View.market = true /\ Pokemon.status sold = RESOLD.
Proof.
  intros sold s. split; [reflexivity|].
  assert (Hin : (sold, View.market) ∈ cards s View.market FilterAll None)
    by (cbn; set_solver).
  destruct (cards_offer_what_the_status_allows s View.market FilterAll None sold
              View.market Hin) as (_ & _ & _ & Hbuy & _).
  split; [reflexivity|]. by apply Hbuy.
Defined.

(** The studio grid always has exactly four cells: the first four owned
    items in collection order, then as many placeholders as are missing. *)
Theorem studio_grid_has_four_cells (l : list Pokemon.t) :
  Z.of_nat (length (studioShowcase l)) + studioPlaceholders l = 4
  /\ studioShowcase l `prefix_of` collectionPokemons l (FilterStatus OWNED)
  /\ (studioPlaceholders l = 0
      <-> (4 <= length (collectionPokemons l (FilterStatus OWNED)))%nat).
Proof.
  unfold studioShowcase, studioPlaceholders, collectionPokemons.
  set (owned := List.filter (fun p => PokemonStatus_eqb (Pokemon.status p) OWNED) l).
  split; [rewrite length_take; lia|]. split; [|lia].
  exists (drop 4 owned). by rewrite take_drop.
Qed.

(** * Further properties of the controller *)

(** ** Favourites *)

Lemma find_id_Some (pokemonId : string) (l : list Pokemon.t) (pokemon : Pokemon.t) :
  find (fun p => Pokemon.id p =? pokemonId) l = Some pokemon ->
  pokemon ∈ l /\ Pokemon.id pokemon = pokemonId.
Proof.
  intros [Hin Hid]%find_some. split; [by apply list_elem_of_In|].
  by apply String.eqb_eq.
Qed.

(** In a list with pairwise distinct ids, an id picks one item. *)
Lemma NoDup_ids_inj (l : list Pokemon.t) (p q : Pokemon.t) :
  NoDup (Pokemon.id <$> l) -> p ∈ l -> q ∈ l -> Pokemon.id p = Pokemon.id q -> p = q.
Proof.
  intros Hnd [i Hi]%list_elem_of_lookup [j Hj]%list_elem_of_lookup Hid.
  assert (i = j) as ->.
  { eapply NoDup_lookup; [exact Hnd| |]; rewrite list_lookup_fmap.
    - by rewrite Hi.
    - rewrite Hj. cbn. by rewrite Hid. }
  congruence.
Qed.

(** [handleToggleFavorite] for an id that is in the list of the render, in
    which ids are pairwise distinct, when the write commits: the stored item
    and the item in memory are the item with its favourite mark inverted,
    every other item stays as it was at its place, and nothing else changes
    (balance, settings rows, achievements, message). *)
Theorem toggle_favorite_inverts_one_mark (snap : UiState) (pokemonId : string)
    (pokemon : Pokemon.t) (w : World) :
  NoDup (Pokemon.id <$> pokemons snap) ->
  pokemon ∈ pokemons snap ->
  Pokemon.id pokemon = pokemonId ->
  transactionOutcome (env w) (txCount w) = None ->
  let w' := exec (handleToggleFavorite snap pokemonId) w in
  let inverted :=
    Pokemon.mk (Pokemon.id pokemon) (Pokemon.name pokemon) (Pokemon.rarity pokemon)
      (Pokemon.imageBase64 pokemon) (Pokemon.generatedAt pokemon) (Pokemon.status pokemon)
      (negb (Pokemon.isFavorite pokemon)) in
  outcome (handleToggleFavorite snap pokemonId) w = Resolved tt
  /\ pokemonsStore (db w') !! pokemonId = Some inverted
  /\ (forall k, k <> pokemonId -> pokemonsStore (db w') !! k = pokemonsStore (db w) !! k)
  /\ (forall i, pokemons snap !! i = Some pokemon -> pokemons (ui w') !! i = Some inverted)
  /\ (forall i q, pokemons snap !! i = Some q -> q <> pokemon ->
        pokemons (ui w') !! i = Some q)
  /\ length (pokemons (ui w')) = length (pokemons snap)
  /\ settingsStore (db w') = settingsStore (db w)
  /\ achievementsStore (db w') = achievementsStore (db w)
  /\ put_pokemons [] (ui w') = put_pokemons [] (ui w).
Proof.
  intros Hnd Hin Hid Hcommit w' inverted. subst w' inverted.
  assert (Hfind : find (fun p => Pokemon.id p =? pokemonId) (pokemons snap) = Some pokemon).
  { destruct (find (fun p => Pokemon.id p =? pokemonId) (pokemons snap)) as [q|] eqn:Hq.
    - apply find_id_Some in Hq as [Hq Hqid]. f_equal.
      apply (NoDup_ids_inj _ _ _ Hnd Hq Hin). congruence.
    - pose proof (find_none _ _ Hq pokemon) as Hnone.
      rewrite <- list_elem_of_In in Hnone. specialize (Hnone Hin).
      by apply String.eqb_neq in Hnone. }
  unfold handleToggleFavorite, Pokemon.with_isFavorite. rewrite Hfind. symex.
  rewrite Hcommit. cbn.
  split; [done|]. split; [by rewrite Hid, lookup_insert_eq|].
  split; [intros k Hk; rewrite lookup_insert_ne; [done|congruence]|].
  split; [|split; [|by rewrite length_map]].
  - intros i Hi. rewrite list_lookup_fmap, Hi. cbn. by rewrite Hid, String.eqb_refl.
  - intros i q Hq Hne. rewrite list_lookup_fmap, Hq. cbn. f_equal.
    assert (Hqin : q ∈ pokemons snap) by (apply list_elem_of_lookup; by exists i).
    destruct (String.eqb_spec (Pokemon.id q) pokemonId) as [Heq|?]; [|done].
    destruct Hne. apply (NoDup_ids_inj _ _ _ Hnd Hqin Hin). congruence.
Qed.

Lemma toggle_favorite_inverts_one_mark_witness :
  let w' := exec (handleToggleFavorite (ui forgedWorld) "mon-0") forgedWorld in
  Pokemon.isFavorite firstForgemon = false
  /\ pokemons (ui w')
     = [Pokemon.mk "mon-0" "Forgemon" LEGENDARY "aGVsbG8=" 1793556420000 OWNED true]
  /\ pokemonsStore (db w') !! "mon-0"
     = Some (Pokemon.mk "mon-0" "Forgemon" LEGENDARY "aGVsbG8=" 1793556420000 OWNED true).
Proof.
  intros w'.
  assert (Hl : pokemons (ui forgedWorld) = [firstForgemon]) by (vm_compute; reflexivity).
  assert (Hnd : NoDup (Pokemon.id <$> pokemons (ui forgedWorld))).
  { rewrite Hl. cbn. apply NoDup_singleton. }
  assert (Hin : firstForgemon ∈ pokemons (ui forgedWorld)) by (rewrite Hl; constructor).
  destruct (toggle_favorite_inverts_one_mark (ui forgedWorld) "mon-0" firstForgemon
              forgedWorld Hnd Hin eq_refl eq_refl) as (_ & Hs & _ & Hm & _ & Hlen & _).
  fold w' in Hs, Hm, Hlen. split; [reflexivity|]. split; [|exact Hs].
  specialize (Hm 0%nat). rewrite Hl in Hm, Hlen. specialize (Hm eq_refl).
  destruct (pokemons (ui w')) as [|q [|q' l]]; try discriminate Hlen.
  by injection Hm as ->.
Defined.

(** [handleToggleFavorite] without effect: for an id that is not in the list
    of the render nothing at all happens (no write is issued); when the
    write is rejected the store and the list stay as they were, an error
    message is shown and the promise still resolves. *)
Theorem toggle_favorite_without_effect (snap : UiState) (pokemonId : string) (w : World) :
  let w' := exec (handleToggleFavorite snap pokemonId) w in
  (pokemonId ∉ Pokemon.id <$> pokemons snap ->
   handleToggleFavorite snap pokemonId w = (Resolved tt, w))
  /\ (forall e, transactionOutcome (env w) (txCount w) = Some e ->
        pokemonId ∈ Pokemon.id <$> pokemons snap ->
        outcome (handleToggleFavorite snap pokemonId) w = Resolved tt
        /\ db w' = db w
        /\ pokemons (ui w') = pokemons (ui w)
        /\ message (ui w')
           = Some {| msg_type := error; msg_text := "Failed to update favorite status." |}
        /\ put_message None (ui w') = put_message None (ui w)).
Proof.
  intros w'. subst w'. split.
  - intros Hnot. unfold handleToggleFavorite.
    destruct (find (fun p => Pokemon.id p =? pokemonId) (pokemons snap)) as [q|] eqn:Hq;
      [|done].
    apply find_id_Some in Hq as [Hq Hqid]. exfalso. apply Hnot.
    apply list_elem_of_fmap. by exists q.
  - intros e Hreject (q & -> & Hq)%list_elem_of_fmap. unfold handleToggleFavorite.
    destruct (find (fun p => Pokemon.id p =? Pokemon.id q) (pokemons snap)) as [q'|] eqn:Hq'.
    + symex. rewrite Hreject. by cbn.
    + pose proof (find_none _ _ Hq' q) as Hnone.
      rewrite <- list_elem_of_In in Hnone. specialize (Hnone Hq).
      by rewrite String.eqb_refl in Hnone.
Qed.

Lemma toggle_favorite_without_effect_witness :
  handleToggleFavorite (ui forgedWorld) "mon-9" forgedWorld = (Resolved tt, forgedWorld)
  /\ let w := run [Generate] (loadedWorld (stormyEnvironment [10%nat]
                                             (fetchOutcome calmEnvironment))) in
     pokemons (ui (exec (handleToggleFavorite (ui w) "mon-0") w)) = pokemons (ui w).
Proof.
  split.
  - destruct (toggle_favorite_without_effect (ui forgedWorld) "mon-9" forgedWorld)
      as (Hnone & _).
    apply Hnone.
    replace (pokemons (ui forgedWorld)) with [firstForgemon] by (vm_compute; reflexivity).
    cbn. intros [Heq|Hnil]%elem_of_cons; [discriminate Heq|by apply elem_of_nil in Hnil].
  - intros w.
    destruct (toggle_favorite_without_effect (ui w) "mon-0" w) as (_ & Hfail).
    destruct (Hfail QuotaExceededError) as (_ & _ & Hl & _).
    + by vm_compute.
    + vm_compute. constructor.
    + exact Hl.
Defined.

Lemma with_isFavorite_twice (p : Pokemon.t) :
  let inverted := Pokemon.with_isFavorite p (negb (Pokemon.isFavorite p)) in
  Pokemon.with_isFavorite inverted (negb (Pokemon.isFavorite inverted)) = p.
Proof. destruct p as [? ? ? ? ? ? []]; reflexivity. Qed.

(** Replacing, in a list with pairwise distinct ids, the item of [p]'s id by
    [p] itself changes nothing when [p] is in the list. *)
Lemma replace_by_itself (p : Pokemon.t) (l : list Pokemon.t) :
  NoDup (Pokemon.id <$> l) -> p ∈ l ->
  map (fun q => if Pokemon.id q =? Pokemon.id p then p else q) l = l.
Proof.
  intros Hnd Hin. rewrite <- (map_id l) at 2. apply map_ext_in.
  intros q Hq%list_elem_of_In.
  destruct (String.eqb_spec (Pokemon.id q) (Pokemon.id p)) as [Heq|?]; [|done].
  by apply (NoDup_ids_inj l).
Qed.

Lemma find_by_id (l : list Pokemon.t) (p : Pokemon.t) :
  NoDup (Pokemon.id <$> l) -> p ∈ l ->
  find (fun q => Pokemon.id q =? Pokemon.id p) l = Some p.
Proof.
  intros Hl Hp.
  destruct (find (fun q => Pokemon.id q =? Pokemon.id p) l) as [q|] eqn:Hq.
  - apply find_id_Some in Hq as [Hq Hqid]. f_equal. by apply (NoDup_ids_inj l).
  - pose proof (find_none _ _ Hq p) as Hnone.
    rewrite <- list_elem_of_In in Hnone. specialize (Hnone Hp).
    by rewrite String.eqb_refl in Hnone.
Qed.

(** The world a committed [handleToggleFavorite] leaves. *)
Lemma toggle_favorite_commits (snap : UiState) (pokemon : Pokemon.t) (w : World) :
  find (fun q => Pokemon.id q =? Pokemon.id pokemon) (pokemons snap) = Some pokemon ->
  transactionOutcome (env w) (txCount w) = None ->
  let inverted := Pokemon.with_isFavorite pokemon (negb (Pokemon.isFavorite pokemon)) in
  exec (handleToggleFavorite snap (Pokemon.id pokemon)) w
  = with_ui
      (put_pokemons
         (map (fun q => if Pokemon.id q =? Pokemon.id pokemon then inverted else q)
            (pokemons snap)))
      (completeRequest (UpdatePokemon inverted) true
         (indexedDbService.put_pokemonsStore
            (<[Pokemon.id pokemon := inverted]> (pokemonsStore (db w))) (db w)) w).
Proof.
  intros Hfind Hcommit inverted. subst inverted. unfold handleToggleFavorite.
  rewrite Hfind. symex. by rewrite Hcommit.
Qed.

Lemma exec_perform (a : Action) (w : World) :
  exec (perform a) w
  = match a with
    | Do i => exec (dispatch i) w
    | ToggleFavorite pokemonId => exec (handleToggleFavorite (ui w) pokemonId) w
    | ToggleTheme => exec (handleToggleTheme (ui w)) w
    | ToggleMute => exec (handleToggleMute (ui w)) w
    | ClaimDailyBonus => exec (handleClaimDailyBonus (ui w)) w
    end.
Proof. by destruct a. Qed.

(** Marking an item as favourite and unmarking it again (or the reverse),
    each from the render that follows the previous step and with both writes
    committing, leaves the React state as it was and the item stored as it
    was in the list. *)
Theorem toggle_favorite_twice_restores (pokemon : Pokemon.t) (w : World) :
  NoDup (Pokemon.id <$> pokemons (ui w)) ->
  pokemon ∈ pokemons (ui w) ->
  transactionOutcome (env w) (txCount w) = None ->
  transactionOutcome (env w) (S (txCount w)) = None ->
  let pokemonId := Pokemon.id pokemon in
  let w' := session [ToggleFavorite pokemonId; ToggleFavorite pokemonId] w in
  ui w' = ui w
  /\ pokemonsStore (db w') = <[pokemonId := pokemon]> (pokemonsStore (db w))
  /\ settingsStore (db w') = settingsStore (db w)
  /\ achievementsStore (db w') = achievementsStore (db w).
Proof.
  intros Hnd Hin H1 H2 pokemonId w'. subst w' pokemonId. cbn [session].
  rewrite !exec_perform.
  set (inverted := Pokemon.with_isFavorite pokemon (negb (Pokemon.isFavorite pokemon))).
  set (l1 := map (fun q => if Pokemon.id q =? Pokemon.id pokemon then inverted else q)
               (pokemons (ui w))).
  assert (Hids : Pokemon.id <$> l1 = Pokemon.id <$> pokemons (ui w)).
  { subst l1. rewrite <- list_fmap_compose. apply list_fmap_ext. intros i q _. cbn.
    by destruct (String.eqb_spec (Pokemon.id q) (Pokemon.id pokemon)). }
  assert (Hin1 : inverted ∈ l1).
  { subst l1. apply list_elem_of_In, in_map_iff. exists pokemon.
    rewrite String.eqb_refl. split; [done|]. by apply list_elem_of_In. }
  assert (Hback : map (fun q => if Pokemon.id q =? Pokemon.id pokemon then pokemon else q) l1
                  = pokemons (ui w)).
  { subst l1. rewrite map_map. rewrite <- (replace_by_itself pokemon _ Hnd Hin) at 2.
    apply map_ext. intros q.
    destruct (String.eqb_spec (Pokemon.id q) (Pokemon.id pokemon)) as [Heq|Hne]; cbn.
    - by rewrite String.eqb_refl.
    - by destruct (String.eqb_spec (Pokemon.id q) (Pokemon.id pokemon)). }
  rewrite (toggle_favorite_commits (ui w) pokemon w (find_by_id _ _ Hnd Hin) H1).
  cbn zeta. fold inverted l1.
  match goal with
  | |- context [exec _ ?W] => set (w1 := W)
  end.
  assert (Hfind1 : find (fun q => Pokemon.id q =? Pokemon.id inverted) (pokemons (ui w1))
                   = Some inverted).
  { apply find_by_id; [|done]. subst w1. cbn. by rewrite Hids. }
  pose proof (toggle_favorite_commits (ui w1) inverted w1 Hfind1 H2) as Hsecond.
  cbn zeta in Hsecond. subst inverted. rewrite with_isFavorite_twice in Hsecond.
  change (Pokemon.id (Pokemon.with_isFavorite pokemon (negb (Pokemon.isFavorite pokemon))))
    with (Pokemon.id pokemon) in Hsecond.
  rewrite Hsecond. subst w1. cbn. rewrite Hback, insert_insert_eq.
  split; [by destruct w as [? ? []]|done].
Qed.

Lemma toggle_favorite_twice_restores_witness :
  ui (session [ToggleFavorite "mon-0"; ToggleFavorite "mon-0"] forgedWorld)
  = ui forgedWorld.
Proof.
  assert (Hl : pokemons (ui forgedWorld) = [firstForgemon]) by (vm_compute; reflexivity).
  assert (Hnd : NoDup (Pokemon.id <$> pokemons (ui forgedWorld))).
  { rewrite Hl. cbn. apply NoDup_singleton. }
  assert (Hin : firstForgemon ∈ pokemons (ui forgedWorld)) by (rewrite Hl; constructor).
  by destruct (toggle_favorite_twice_restores firstForgemon forgedWorld Hnd Hin
                 eq_refl eq_refl) as (H & _).
Defined.

(** ** Player settings *)

(** The theme and sound toggles change the React state first and write
    afterwards, outside any [try]: the setting in memory is inverted whatever
    the store answers; when the write commits the stored row is the row in
    memory; when it is rejected the store keeps the old row, the promise is
    rejected, and memory and store disagree.  Each toggle leaves the two
    other fields of the settings alone. *)
Theorem settings_toggles_are_optimistic (snap : UiState) (s : PlayerSettings.t)
    (w : World) :
  settings snap = Some s ->
  let t := exec (handleToggleTheme snap) w in
  let m := exec (handleToggleMute snap) w in
  settings (ui t)
  = Some (PlayerSettings.mk (match PlayerSettings.theme s with dark => light | light => dark end)
            (PlayerSettings.isMuted s) (PlayerSettings.playerName s))
  /\ settings (ui m)
     = Some (PlayerSettings.mk (PlayerSettings.theme s) (negb (PlayerSettings.isMuted s))
               (PlayerSettings.playerName s))
  /\ match transactionOutcome (env w) (txCount w) with
     | None =>
         outcome (handleToggleTheme snap) w = Resolved tt
         /\ outcome (handleToggleMute snap) w = Resolved tt
         /\ playerSettingsRow (settingsStore (db t)) = settings (ui t)
         /\ playerSettingsRow (settingsStore (db m)) = settings (ui m)
     | Some e =>
         outcome (handleToggleTheme snap) w = Rejected e
         /\ outcome (handleToggleMute snap) w = Rejected e
         /\ db t = db w /\ db m = db w
     end
  /\ tokenBalanceRow (settingsStore (db t)) = tokenBalanceRow (settingsStore (db w))
  /\ tokenBalanceRow (settingsStore (db m)) = tokenBalanceRow (settingsStore (db w))
  /\ put_settings None (ui t) = put_settings None (ui w)
  /\ put_settings None (ui m) = put_settings None (ui w).
Proof.
  intros Hs t m. subst t m. unfold handleToggleTheme, handleToggleMute. rewrite Hs.
  symex. destruct (transactionOutcome (env w) (txCount w)) as [e|]; by cbn.
Qed.

Lemma settings_toggles_are_optimistic_witness :
  let w := loadedWorld calmEnvironment in
  let v := loadedWorld (stormyEnvironment [6%nat] (fetchOutcome calmEnvironment)) in
  settings (ui (exec (handleToggleTheme (ui w)) w))
  = Some (PlayerSettings.mk light true "Ash")
  /\ settings (ui (exec (handleToggleTheme (ui v)) v))
     = Some (PlayerSettings.mk light true "Ash")
  /\ playerSettingsRow (settingsStore (db (exec (handleToggleTheme (ui v)) v)))
     = Some (PlayerSettings.mk dark true "Ash").
Proof.
  intros w v.
  assert (Hw : settings (ui w) = Some (PlayerSettings.mk dark true "Ash"))
    by (vm_compute; reflexivity).
  assert (Hv : settings (ui v) = Some (PlayerSettings.mk dark true "Ash"))
    by (vm_compute; reflexivity).
  destruct (settings_toggles_are_optimistic (ui w) _ w Hw) as (Ht & _).
  destruct (settings_toggles_are_optimistic (ui v) _ v Hv) as (Ht' & _ & Hstore & _).
  split; [exact Ht|]. split; [exact Ht'|].
  replace (transactionOutcome (env v) (txCount v)) with (Some QuotaExceededError)
    in Hstore by (vm_compute; reflexivity).
  destruct Hstore as (_ & _ & -> & _). vm_compute. reflexivity.
Defined.

(** Two theme toggles, or two sound toggles, each from the render that
    follows the previous one and with both writes committing, bring the
    settings back, in memory and in the store; and the two toggles commute. *)
Theorem settings_toggles_twice_restore (s : PlayerSettings.t) (w : World) :
  settings (ui w) = Some s ->
  transactionOutcome (env w) (txCount w) = None ->
  transactionOutcome (env w) (S (txCount w)) = None ->
  let restored (w' : World) :=
    ui w' = ui w /\ playerSettingsRow (settingsStore (db w')) = Some s in
  restored (session [ToggleTheme; ToggleTheme] w)
  /\ restored (session [ToggleMute; ToggleMute] w)
  /\ ui (session [ToggleTheme; ToggleMute] w) = ui (session [ToggleMute; ToggleTheme] w)
  /\ db (session [ToggleTheme; ToggleMute] w) = db (session [ToggleMute; ToggleTheme] w).
Proof.
  intros Hs H1 H2 restored. subst restored. cbn [session]. rewrite !exec_perform.
  unfold handleToggleTheme, handleToggleMute. rewrite Hs. symex. rewrite H1. cbn.
  rewrite H2. cbn.
  destruct s as [[] [] name]; cbn; repeat split; try done;
    destruct w as [? ? u]; cbn in *; destruct u; cbn in *; by subst.
Qed.

Lemma settings_toggles_twice_restore_witness :
  let w := loadedWorld calmEnvironment in
  ui (session [ToggleTheme; ToggleTheme] w) = ui w.
Proof.
  intros w.
  assert (Hw : settings (ui w) = Some (PlayerSettings.mk dark true "Ash"))
    by (vm_compute; reflexivity).
  by destruct (settings_toggles_twice_restore _ w Hw eq_refl eq_refl) as ((H & _) & _).
Defined.

(** What the header is handed: the theme of the settings, which the theme
    toggle inverts together with the [dark] class of the document; and a
    sound flag that is [true] whatever the settings are, so that the sound
    toggle inverts the stored flag without changing what the header is
    handed. *)
Theorem header_follows_theme_but_not_sound (snap : UiState) (s : PlayerSettings.t)
    (w : World) :
  settings snap = Some s ->
  let t := exec (handleToggleTheme snap) w in
  let m := exec (handleToggleMute snap) w in
  headerTheme (settings (ui t)) <> headerTheme (settings snap)
  /\ darkClass (settings (ui t)) = negb (darkClass (settings snap))
  /\ (headerTheme (settings (ui t)) = dark <-> darkClass (settings (ui t)) = true)
  /\ PlayerSettings.isMuted <$> settings (ui m) = Some (negb (PlayerSettings.isMuted s))
  /\ headerIsMuted (settings (ui m)) = headerIsMuted (settings snap)
  /\ (forall o : option PlayerSettings.t, headerIsMuted o = true).
Proof.
  intros Hs t m. subst t m. unfold handleToggleTheme, handleToggleMute. rewrite Hs.
  symex. unfold headerIsMuted.
  destruct (transactionOutcome (env w) (txCount w)) as [e|]; cbn;
    destruct s as [[] [] name]; cbn; repeat split; try done; intros o;
    apply orb_true_r.
Qed.

Lemma header_follows_theme_but_not_sound_witness :
  let w := loadedWorld calmEnvironment in
  let m := exec (handleToggleMute (ui w)) w in
  PlayerSettings.isMuted <$> settings (ui m) = Some false
  /\ headerIsMuted (settings (ui m)) = true.
Proof.
  intros w m.
  assert (Hw : settings (ui w) = Some (PlayerSettings.mk dark true "Ash"))
    by (vm_compute; reflexivity).
  destruct (header_follows_theme_but_not_sound (ui w) _ w Hw)
    as (_ & _ & _ & Hflag & _ & Hheader).
  split; [exact Hflag|apply Hheader].
Defined.

(** ** Purchases *)

(** A purchase the balance of the render can pay for, with both writes
    committing: the store holds the item with status [OWNED] and the balance
    of the render minus the buy price, which is also the balance in memory;
    the item of that id is replaced in the current list in memory; a success
    message is shown; exactly these two requests are issued. *)
Theorem purchase_commits (snap : UiState) (pokemon : Pokemon.t) (w : World) :
  getBuyPrice (Pokemon.rarity pokemon) <= tokenBalance snap ->
  transactionOutcome (env w) (txCount w) = None ->
  transactionOutcome (env w) (S (txCount w)) = None ->
  let w' := exec (handleBuyPokemon snap pokemon) w in
  let buyPrice := getBuyPrice (Pokemon.rarity pokemon) in
  let bought :=
    Pokemon.mk (Pokemon.id pokemon) (Pokemon.name pokemon) (Pokemon.rarity pokemon)
      (Pokemon.imageBase64 pokemon) (Pokemon.generatedAt pokemon) OWNED
      (Pokemon.isFavorite pokemon) in
  outcome (handleBuyPokemon snap pokemon) w = Resolved tt
  /\ pokemonsStore (db w') !! Pokemon.id pokemon = Some bought
  /\ persistedBalance w' = Some (tokenBalance snap - buyPrice)
  /\ tokenBalance (ui w') = tokenBalance snap - buyPrice
  /\ 0 <= tokenBalance (ui w')
  /\ pokemons (ui w') = replacePokemon bought (pokemons (ui w))
  /\ (bought ∈ pokemons (ui w') <-> Pokemon.id pokemon ∈ Pokemon.id <$> pokemons (ui w))
  /\ message (ui w')
     = Some {| msg_type := success;
               msg_text := Pokemon.name pokemon ++ " acheté ! -" ++ pretty buyPrice
                           ++ " jetons." |}
  /\ eventsSince w w'
     = [ {| ev_call := UpdatePokemon bought; ev_ok := true |};
         {| ev_call := UpdateTokenBalance (tokenBalance snap - buyPrice); ev_ok := true |} ].
Proof.
  intros Hfunds H1 H2 w' buyPrice bought. subst w' buyPrice bought.
  unfold handleBuyPokemon, Pokemon.with_status.
  destruct (Z.ltb_spec (tokenBalance snap) (getBuyPrice (Pokemon.rarity pokemon)))
    as [?|_]; [lia|].
  symex. rewrite H1. cbn. rewrite H2. cbn. unfold persistedBalance. cbn.
  rewrite lookup_insert_eq.
  repeat split; try done; try lia.
  - unfold replacePokemon. intros (q & Hq & Hin)%list_elem_of_In%in_map_iff.
    apply list_elem_of_fmap. exists q. split; [|by apply list_elem_of_In].
    cbn in Hq. revert Hq.
    destruct (String.eqb_spec (Pokemon.id q) (Pokemon.id pokemon)); [done|].
    by intros ->.
  - intros (q & Hid & Hin)%list_elem_of_fmap. unfold replacePokemon.
    apply list_elem_of_In, in_map_iff. exists q. cbn. rewrite <- Hid, String.eqb_refl.
    split; [done|]. by apply list_elem_of_In.
  - erewrite eventsSince_app; [done|]. cbn. by rewrite <- app_assoc.
Qed.

Lemma purchase_commits_witness :
  let sold :=
    Pokemon.mk "mon-0" "Forgemon" LEGENDARY "aGVsbG8=" 1793556420000 RESOLD false in
  let w := run [Resell firstForgemon] forgedWorld in
  let w' := exec (handleBuyPokemon (ui w) sold) w in
  pokemonsStore (db w) !! "mon-0" = Some sold
  /\ tokenBalance (ui w) = 130 /\ tokenBalance (ui w') = 50
  /\ persistedBalance w' = Some 50
  /\ pokemonsStore (db w') !! "mon-0"
     = Some (Pokemon.mk "mon-0" "Forgemon" LEGENDARY "aGVsbG8=" 1793556420000 OWNED false).
Proof.
  intros sold w w'.
  assert (Hb : tokenBalance (ui w) = 130) by (vm_compute; reflexivity).
  assert (Hfunds : getBuyPrice (Pokemon.rarity sold) <= tokenBalance (ui w))
    by (rewrite Hb; by vm_compute).
  assert (H1 : transactionOutcome (env w) (txCount w) = None) by (vm_compute; reflexivity).
  assert (H2 : transactionOutcome (env w) (S (txCount w)) = None)
    by (vm_compute; reflexivity).
  destruct (purchase_commits (ui w) sold w Hfunds H1 H2) as (_ & Hs & Hp & Hm & _).
  fold w' in Hs, Hp, Hm. rewrite Hb in Hp, Hm.
  split; [vm_compute; reflexivity|].
  split; [exact Hb|]. split; [exact Hm|]. split; [exact Hp|exact Hs].
Defined.

(** ** Resale followed by a purchase *)

(** What a confirmed resale leaves when its two writes commit, whatever the
    achievement writes that follow do. *)
Lemma resale_commits_state (snap : UiState) (pokemon : Pokemon.t) (w : World) :
  transactionOutcome (env w) (txCount w) = None ->
  transactionOutcome (env w) (S (txCount w)) = None ->
  let w' := exec (resellOnConfirm snap pokemon) w in
  let sold := Pokemon.with_status pokemon RESOLD in
  let newBalance := tokenBalance snap + getResellValue (Pokemon.rarity pokemon) in
  env w' = env w
  /\ pokemonsStore (db w') = <[Pokemon.id pokemon := sold]> (pokemonsStore (db w))
  /\ persistedBalance w' = Some newBalance
  /\ tokenBalance (ui w') = newBalance
  /\ pokemons (ui w') = replacePokemon sold (pokemons snap).
Proof.
  intros H1 H2 w' sold newBalance. subst w' sold newBalance.
  unfold resellOnConfirm. symex. rewrite H1. cbn. rewrite H2. cbn.
  through_evaluation Hev r w1.
  destruct Hev as (He & Hp & Hs & Hu & _).
  pose proof (f_equal tokenBalance Hu) as Hb. pose proof (f_equal pokemons Hu) as Hl.
  cbn in Hb, Hl. unfold persistedBalance.
  destruct r as [[]|e]; cbn; by rewrite He, Hp, Hs, Hb, Hl.
Qed.

(** What a purchase leaves when the balance covers the price and its two
    writes commit. *)
Lemma purchase_commits_state (snap : UiState) (pokemon : Pokemon.t) (w : World) :
  getBuyPrice (Pokemon.rarity pokemon) <= tokenBalance snap ->
  transactionOutcome (env w) (txCount w) = None ->
  transactionOutcome (env w) (S (txCount w)) = None ->
  let w' := exec (handleBuyPokemon snap pokemon) w in
  let bought := Pokemon.with_status pokemon OWNED in
  let newBalance := tokenBalance snap - getBuyPrice (Pokemon.rarity pokemon) in
  env w' = env w
  /\ pokemonsStore (db w') = <[Pokemon.id pokemon := bought]> (pokemonsStore (db w))
  /\ persistedBalance w' = Some newBalance
  /\ tokenBalance (ui w') = newBalance
  /\ pokemons (ui w') = replacePokemon bought (pokemons (ui w)).
Proof.
  intros Hfunds H1 H2 w' bought newBalance. subst w' bought newBalance.
  unfold handleBuyPokemon.
  destruct (Z.ltb_spec (tokenBalance snap) (getBuyPrice (Pokemon.rarity pokemon)))
    as [?|_]; [lia|].
  symex. rewrite H1. cbn. rewrite H2. by cbn.
Qed.

Lemma exec_dispatch (i : Intent) (w : World) :
  exec (dispatch i) w
  = match i with
    | Generate => exec (handleGeneratePokemon (ui w)) w
    | Resell pokemon =>
        exec (resellOnConfirm (ui w) pokemon) (with_ui (put_isModalOpen true) w)
    | Buy pokemon => exec (handleBuyPokemon (ui w) pokemon) w
    end.
Proof. by destruct i. Qed.

(** Reselling an owned item of the collection and buying it back, each from
    the render that follows the previous step and with every request
    committing, costs the resale value: the balance, in memory and in the
    store, ends below where it started by the resale value of the item,
    while the list in memory is as it was and the store holds the item as it
    was in the list. *)
Theorem resell_then_buy_back_costs_the_resale_value (pokemon : Pokemon.t) (w : World) :
  everyRequestCommits (env w) ->
  Pokemon.status pokemon = OWNED ->
  NoDup (Pokemon.id <$> pokemons (ui w)) ->
  pokemon ∈ pokemons (ui w) ->
  getResellValue (Pokemon.rarity pokemon) <= tokenBalance (ui w) ->
  let w' := run [Resell pokemon; Buy (Pokemon.with_status pokemon RESOLD)] w in
  let resellValue := getResellValue (Pokemon.rarity pokemon) in
  tokenBalance (ui w') = tokenBalance (ui w) - resellValue
  /\ persistedBalance w' = Some (tokenBalance (ui w) - resellValue)
  /\ pokemons (ui w') = pokemons (ui w)
  /\ pokemonsStore (db w') = <[Pokemon.id pokemon := pokemon]> (pokemonsStore (db w)).
Proof.
  intros Hcommit Howned Hnd Hin Hfunds w' resellValue. subst w' resellValue.
  cbn [run]. rewrite !exec_dispatch.
  set (w0 := with_ui (put_isModalOpen true) w).
  destruct (resale_commits_state (ui w) pokemon w0 (Hcommit _) (Hcommit _))
    as (He & Hp & Hs & Hb & Hl).
  set (w1 := exec (resellOnConfirm (ui w) pokemon) w0) in *.
  assert (Hfunds1 : getBuyPrice (Pokemon.rarity (Pokemon.with_status pokemon RESOLD))
                    <= tokenBalance (ui w1)).
  { rewrite Hb. cbn. unfold getBuyPrice. lia. }
  assert (Hc1 : forall k, transactionOutcome (env w1) k = None)
    by (intros k; rewrite He; apply Hcommit).
  destruct (purchase_commits_state (ui w1) _ w1 Hfunds1 (Hc1 _) (Hc1 _))
    as (_ & Hp' & Hs' & Hb' & Hl').
  rewrite Hb', Hs', Hl', Hp', Hb, Hl, Hp. cbn. unfold getBuyPrice.
  assert (Hsame : Pokemon.with_status (Pokemon.with_status pokemon RESOLD) OWNED = pokemon)
    by (destruct pokemon; cbn in *; by subst).
  rewrite Hsame, insert_insert_eq.
  split; [lia|]. split; [f_equal; lia|]. split; [|done].
  unfold replacePokemon. rewrite map_map. cbn.
  rewrite <- (replace_by_itself pokemon _ Hnd Hin) at 2. apply map_ext. intros q.
  destruct (String.eqb_spec (Pokemon.id q) (Pokemon.id pokemon)) as [Heq|Hne]; cbn.
  - by rewrite String.eqb_refl.
  - by destruct (String.eqb_spec (Pokemon.id q) (Pokemon.id pokemon)).
Qed.

Lemma resell_then_buy_back_costs_the_resale_value_witness :
  let w' := run [Resell firstForgemon; Buy (Pokemon.with_status firstForgemon RESOLD)]
              forgedWorld in
  tokenBalance (ui forgedWorld) = 90 /\ tokenBalance (ui w') = 50
  /\ pokemons (ui w') = pokemons (ui forgedWorld).
Proof.
  intros w'.
  assert (Hb : tokenBalance (ui forgedWorld) = 90) by (vm_compute; reflexivity).
  assert (Hl : pokemons (ui forgedWorld) = [firstForgemon]) by (vm_compute; reflexivity).
  assert (Hnd : NoDup (Pokemon.id <$> pokemons (ui forgedWorld))).
  { rewrite Hl. cbn. apply NoDup_singleton. }
  assert (Hin : firstForgemon ∈ pokemons (ui forgedWorld)) by (rewrite Hl; constructor).
  assert (Hfunds : getResellValue (Pokemon.rarity firstForgemon)
                   <= tokenBalance (ui forgedWorld)) by (rewrite Hb; by vm_compute).
  assert (Hcommit : everyRequestCommits (env forgedWorld)) by (intros k; reflexivity).
  destruct (resell_then_buy_back_costs_the_resale_value firstForgemon forgedWorld
              Hcommit eq_refl Hnd Hin Hfunds) as (Hm & _ & Hlist & _).
  fold w' in Hm, Hlist. rewrite Hb in Hm.
  split; [exact Hb|]. split; [exact Hm|exact Hlist].
Defined.

(** ** The daily bonus, interrupted *)

(** A claim whose balance write commits and whose status write is rejected
    leaves the credited balance in the store, but neither the balance in
    memory nor the open dialog nor the stored status changes, and the
    promise is rejected.  Repeating the claim from that same render, with
    both writes committing, stores the same credited balance once more: the
    bonus is credited once, not twice. *)
Theorem interrupted_claim_can_be_repeated (w : World) (e : JsError) :
  transactionOutcome (env w) (txCount w) = None ->
  transactionOutcome (env w) (S (txCount w)) = Some e ->
  transactionOutcome (env w) (S (S (txCount w))) = None ->
  transactionOutcome (env w) (S (S (S (txCount w)))) = None ->
  let credited := tokenBalance (ui w) + dailyBonusAmount (ui w) in
  let w1 := exec (perform ClaimDailyBonus) w in
  let w2 := exec (perform ClaimDailyBonus) w1 in
  outcome (perform ClaimDailyBonus) w = Rejected e
  /\ persistedBalance w1 = Some credited
  /\ dailyBonusRow (settingsStore (db w1)) = dailyBonusRow (settingsStore (db w))
  /\ ui w1 = ui w
  /\ outcome (perform ClaimDailyBonus) w1 = Resolved tt
  /\ persistedBalance w2 = Some credited
  /\ tokenBalance (ui w2) = credited
  /\ isDailyBonusModalOpen (ui w2) = false
  /\ dailyBonusRow (settingsStore (db w2))
     = Some (DailyBonusStatus.mk (clock (env w) (S (clockCount w)))).
Proof.
  intros H1 H2 H3 H4 credited w1 w2. subst credited w1 w2.
  unfold perform, handleClaimDailyBonus. symex.
  rewrite H1. cbn. rewrite H2. cbn. rewrite H3. cbn. rewrite H4. by cbn.
Qed.

Lemma interrupted_claim_can_be_repeated_witness :
  let w := loadedWorld (stormyEnvironment [7%nat] (fetchOutcome calmEnvironment)) in
  let w1 := exec (perform ClaimDailyBonus) w in
  let w2 := exec (perform ClaimDailyBonus) w1 in
  tokenBalance (ui w) = 100 /\ dailyBonusAmount (ui w) = 10
  /\ persistedBalance w1 = Some 110 /\ tokenBalance (ui w1) = 100
  /\ persistedBalance w2 = Some 110 /\ tokenBalance (ui w2) = 110.
Proof.
  intros w w1 w2.
  assert (Hb : tokenBalance (ui w) = 100) by (vm_compute; reflexivity).
  assert (Ha : dailyBonusAmount (ui w) = 10) by (vm_compute; reflexivity).
  destruct (interrupted_claim_can_be_repeated w QuotaExceededError
              eq_refl eq_refl eq_refl eq_refl)
    as (_ & Hp1 & _ & Hu1 & _ & Hp2 & Hm2 & _).
  fold w1 in Hp1, Hu1, Hp2, Hm2. fold w2 in Hp2, Hm2. rewrite Hb, Ha in *.
  split; [exact Hb|]. split; [exact Ha|]. split; [exact Hp1|].
  split; [by rewrite Hu1|]. split; [exact Hp2|exact Hm2].
Defined.

(** ** Settling and busy flags *)

Lemma try_finally_total {A} (body : M A) (fin : M unit) (F : World -> World)
    (w : World) :
  (forall v, fin v = (Resolved tt, F v)) ->
  try_finally body fin w = (outcome body w, F (exec body w)).
Proof.
  intros Hfin. unfold try_finally, outcome, exec. destruct (body w) as [r w'].
  by rewrite Hfin.
Qed.

Lemma bind_setState {A} (f : UiState -> UiState) (k : M A) (w : World) :
  (setState f ;; k) w = k (with_ui f w).
Proof. reflexivity. Qed.

Lemma try_catch_total {A} (body : M A) (handler : JsError -> M A) (a : A) (w : World) :
  (forall r, outcome body w = Resolved r -> r = a) ->
  (forall e v, outcome (handler e) v = Resolved a) ->
  outcome (try_catch body handler) w = Resolved a.
Proof.
  intros Hbody Hhandler. unfold try_catch, outcome in *.
  destruct (body w) as [[r|e] w']; cbn; [by rewrite (Hbody r)|apply Hhandler].
Qed.

(** [fetchAppData], a confirmed resale, a purchase and a favourite toggle
    always resolve, whatever the store answers: their failures end in a
    message.  The loading flag is lowered when [fetchAppData] settles, the
    generation flag when a generation that passed the guard settles (even
    when its promise is rejected), and the dialog is closed with its button
    released when a confirmed resale settles. *)
Theorem handlers_settle_and_lower_their_flags (snap : UiState) (w : World) :
  (outcome fetchAppData w = Resolved tt /\ isLoading (ui (exec fetchAppData w)) = false)
  /\ (GENERATION_COST <= tokenBalance snap ->
      isGeneratingPokemon (ui (exec (handleGeneratePokemon snap) w)) = false)
  /\ (forall pokemon : Pokemon.t,
        let w' := exec (resellOnConfirm snap pokemon) w in
        outcome (resellOnConfirm snap pokemon) w = Resolved tt
        /\ isModalConfirmLoading (ui w') = false /\ isModalOpen (ui w') = false)
  /\ (forall pokemon : Pokemon.t, outcome (handleBuyPokemon snap pokemon) w = Resolved tt)
  /\ (forall pokemonId : string,
        outcome (handleToggleFavorite snap pokemonId) w = Resolved tt).
Proof.
  assert (Hunit : forall (body : M unit) v r, outcome body v = Resolved r -> r = tt)
    by (by intros body v []).
  split; [|split; [|split; [|split]]].
  - unfold fetchAppData, setIsLoading, outcome, exec. rewrite !bind_setState.
    rewrite (try_finally_total _ _ (with_ui (put_isLoading false))) by done.
    cbn. split; [|done].
    apply try_catch_total; [apply Hunit|]. intros e v. by symex.
  - intros Hfunds. unfold handleGeneratePokemon.
    destruct (Z.ltb_spec (tokenBalance snap) GENERATION_COST) as [?|_]; [lia|].
    unfold setIsGeneratingPokemon, exec. rewrite !bind_setState.
    by rewrite (try_finally_total _ _ (with_ui (put_isGeneratingPokemon false))).
  - intros pokemon w'. subst w'. unfold resellOnConfirm.
    unfold setIsModalConfirmLoading, exec, outcome. rewrite !bind_setState.
    rewrite (try_finally_total _ _
               (fun v => with_ui (put_isModalOpen false)
                           (with_ui (put_isModalConfirmLoading false) v))) by done.
    cbn. split; [|done].
    apply try_catch_total; [apply Hunit|]. intros e v. by symex.
  - intros pokemon. unfold handleBuyPokemon.
    destruct (tokenBalance snap <? getBuyPrice (Pokemon.rarity pokemon))%Z; [by symex|].
    apply try_catch_total; [apply Hunit|]. intros e v. by symex.
  - intros pokemonId. unfold handleToggleFavorite.
    destruct (find (fun p => Pokemon.id p =? pokemonId) (pokemons snap)); [|done].
    apply try_catch_total; [apply Hunit|]. intros e v. by symex.
Qed.

Lemma handlers_settle_and_lower_their_flags_witness :
  isGeneratingPokemon (ui (exec (handleGeneratePokemon (ui doubleFailureWorld))
                             doubleFailureWorld)) = false.
Proof.
  destruct (handlers_settle_and_lower_their_flags (ui doubleFailureWorld)
              doubleFailureWorld) as (_ & Hflag & _).
  apply Hflag. by vm_compute.
Defined.

(** ** The achievement list *)

Lemma findIndex_Some {A} (f : A -> bool) (l : list A) (i : nat) :
  findIndex f l = Some i -> exists x, l !! i = Some x /\ f x = true.
Proof.
  revert i. induction l as [|y l IH]; intros i; [done|]. cbn.
  destruct (f y) eqn:Hy.
  - intros [= <-]. by exists y.
  - destruct (findIndex f l) as [j|]; [|done]. cbn. intros [= <-]. by apply IH.
Qed.

Lemma findIndex_None {A} (f : A -> bool) (l : list A) :
  findIndex f l = None -> Forall (fun x => f x = false) l.
Proof.
  induction l as [|y l IH]; [done|]. cbn. destruct (f y) eqn:Hy; [done|].
  destruct (findIndex f l) as [j|]; [done|]. intros _. constructor; [done|by apply IH].
Qed.

(** Merging a record whose id is in the list replaces in place. *)
Lemma mergeOne_ids (updated : list Achievement.t) (u : Achievement.t) :
  Achievement.id u ∈ Achievement.id <$> updated ->
  Achievement.id <$> mergeOne updated u = Achievement.id <$> updated.
Proof.
  intros Hin. unfold mergeOne.
  destruct (findIndex (fun a => Achievement.id a =? Achievement.id u) updated)
    as [i|] eqn:Hi.
  - apply findIndex_Some in Hi as (x & Hx & Hid%String.eqb_eq).
    rewrite list_fmap_insert. apply list_insert_id.
    rewrite list_lookup_fmap, Hx. cbn. by rewrite Hid.
  - apply findIndex_None in Hi. apply list_elem_of_fmap in Hin as (x & Hid & Hx).
    rewrite Forall_forall in Hi. specialize (Hi x Hx).
    by rewrite <- Hid, String.eqb_refl in Hi.
Qed.

Lemma mergeUnlocked_ids (news prev : list Achievement.t) :
  Forall (fun a => Achievement.id a ∈ Achievement.id <$> prev) news ->
  Achievement.id <$> mergeUnlocked news prev = Achievement.id <$> prev.
Proof.
  unfold mergeUnlocked. revert prev. induction news as [|u news IH]; intros prev H; [done|].
  apply Forall_cons in H as [Hu H]. cbn [fold_left].
  rewrite IH; [by apply mergeOne_ids|].
  eapply Forall_impl; [exact H|]. cbn. intros a Ha. by rewrite mergeOne_ids.
Qed.

(** Only the four definitions have a predicate that can hold. *)
Lemma shouldUnlock_known (id : string) (ps : list Pokemon.t) :
  shouldUnlock id ps = true -> id ∈ AchievementDef.id <$> ALL_ACHIEVEMENTS.
Proof.
  unfold shouldUnlock. cbn.
  repeat match goal with
         | |- context [String.eqb id ?s] =>
             destruct (String.eqb_spec id s) as [->|?]; [intros _; set_solver|]
         end.
  done.
Qed.

(** An evaluation keeps a list of the four definitions a list of the four
    definitions. *)
Lemma merged_lists_all (cur : list Achievement.t) (ps : list Pokemon.t)
    (news prev : list Achievement.t) :
  Achievement.id <$> prev = AchievementDef.id <$> ALL_ACHIEVEMENTS ->
  Forall (freshUnlock cur ps) news ->
  Achievement.id <$> mergeUnlocked news prev = AchievementDef.id <$> ALL_ACHIEVEMENTS.
Proof.
  intros Hprev Hnews. rewrite mergeUnlocked_ids; [done|].
  eapply Forall_impl; [exact Hnews|]. cbn. intros a (_ & _ & Hsh).
  rewrite Hprev. by eapply shouldUnlock_known.
Qed.

Lemma achievementsMap_keyed (l : list Achievement.t) (k : string) (a : Achievement.t) :
  achievementsMap l !! k = Some a -> Achievement.id a = k.
Proof.
  unfold achievementsMap.
  assert (H : forall (m : gmap string Achievement.t),
    (forall k a, m !! k = Some a -> Achievement.id a = k) ->
    forall k a, fold_left (fun m a => <[Achievement.id a := a]> m) l m !! k = Some a ->
                Achievement.id a = k).
  { induction l as [|x l IH]; intros m Hm k' a'; [apply Hm|]. cbn. apply IH.
    intros k'' a''. destruct (decide (Achievement.id x = k'')) as [<-|Hne].
    - rewrite lookup_insert_eq. by intros [= <-].
    - rewrite lookup_insert_ne by done. apply Hm. }
  apply H. intros k' a'. by rewrite lookup_empty.
Qed.

(** ** Loading *)

(** When the six requests of [fetchAppData] commit, the React state mirrors
    the store: the balance in memory is the stored one (100 on a store
    without a balance row, and then stored), the settings in memory are the
    stored ones (the defaults on a store without a settings row, and then
    stored), the list in memory holds exactly the stored items, most recent
    first, and the achievement list names the four definitions in their
    order; this holds whatever the achievement writes that follow do.  In a
    store keyed by id the ids in memory are pairwise distinct. *)
Theorem load_mirrors_the_store (w : World) :
  loadCommits w ->
  let w' := exec fetchAppData w in
  let balance := default (TokenBalance.mk 100) (tokenBalanceRow (settingsStore (db w))) in
  let playerSettings :=
    default (PlayerSettings.mk dark true "Ash") (playerSettingsRow (settingsStore (db w))) in
  tokenBalance (ui w') = TokenBalance.amount balance
  /\ balanceMirrored w'
  /\ settings (ui w') = Some playerSettings
  /\ playerSettingsRow (settingsStore (db w')) = Some playerSettings
  /\ dailyBonusRow (settingsStore (db w')) = dailyBonusRow (settingsStore (db w))
  /\ pokemonsStore (db w') = pokemonsStore (db w)
  /\ pokemons (ui w') ≡ₚ snd <$> map_to_list (pokemonsStore (db w))
  /\ newestFirst (pokemons (ui w'))
  /\ (keyedById (db w) -> NoDup (Pokemon.id <$> pokemons (ui w')))
  /\ listsAllAchievements (ui w')
  /\ isLoading (ui w') = false
  /\ env w' = env w.
Proof.
  intros Hload w' balance playerSettings. subst w' balance playerSettings.
  unfold balanceMirrored, persistedBalance, listsAllAchievements, fetchAppData.
  symex.
  rewrite (Hload (txCount w)) by lia. cbn.
  rewrite (Hload (S (txCount w))) by lia. cbn.
  rewrite (Hload (S (S (txCount w)))) by lia. cbn.
  set (listing := indexedDbService.getAll (pokemonsStore (db w))).
  assert (Hperm : sortByGeneratedAt listing ≡ₚ snd <$> map_to_list (pokemonsStore (db w)))
    by (subst listing; by rewrite sortByGeneratedAt_Permutation, getAll_Permutation).
  assert (Hsorted : newestFirst (sortByGeneratedAt listing))
    by apply sortByGeneratedAt_newestFirst.
  assert (Hnd : keyedById (db w) -> NoDup (Pokemon.id <$> sortByGeneratedAt listing)).
  { intros Hkeyed. rewrite Hperm.
    rewrite (stored_ids _ Hkeyed). apply NoDup_fst_map_to_list. }
  (destruct (tokenBalanceRow (settingsStore (db w))) as [balance|] eqn:Hrow1; cbn;
    rewrite (Hload (S (S (S (txCount w))))) by lia; cbn;
    rewrite (Hload (S (S (S (S (txCount w)))))) by lia; cbn;
    rewrite (Hload (S (S (S (S (S (txCount w))))))) by lia; cbn;
    (destruct (playerSettingsRow (settingsStore (db w))) as [playerSettings|] eqn:Hrow2;
     cbn);
    (destruct (dailyBonusRow (settingsStore (db w))) as [b|] eqn:Hrow3; cbn;
     [destruct (toDateString (env w) (DailyBonusStatus.lastClaimed b)
                =? toDateString (env w) (clock (env w) (clockCount w)))%Z; cbn|])).
  all: (through_evaluation Hev r w1;
    destruct Hev as (He & Hp & Hs & Hu & _ & _ & _ & _ & _ & Hach);
    pose proof (f_equal tokenBalance Hu) as Hbal;
    pose proof (f_equal settings Hu) as Hset;
    pose proof (f_equal pokemons Hu) as Hlist;
    cbn in Hbal, Hset, Hlist).
  all: (assert (Hall : Achievement.id <$> achievements (ui w1)
                    = AchievementDef.id <$> ALL_ACHIEVEMENTS);
     [destruct Hach as [->|(news & Hnews & ->)]; cbn;
      [|eapply merged_lists_all; [|exact Hnews]; cbn];
      repeat (f_equal;
              try match goal with
                  | |- Achievement.id (match ?o with _ => _ end) = _ =>
                      let E := fresh in
                      destruct o eqn:E; [by apply achievementsMap_keyed in E|done]
                  end)
     |]).
  all: (destruct r as [[]|e]; cbn).
  all: (rewrite ?He, ?Hp, ?Hs, ?Hbal, ?Hset, ?Hlist; cbn).
  all: (rewrite ?Hrow1, ?Hrow2, ?Hrow3).
  all: repeat split.
  all: done.
Qed.

Lemma load_mirrors_the_store_witness :
  let w := initialWorld calmEnvironment emptyDatabase in
  let w' := exec fetchAppData w in
  tokenBalance (ui w') = 100 /\ persistedBalance w' = Some 100
  /\ settings (ui w') = Some (PlayerSettings.mk dark true "Ash")
  /\ Achievement.id <$> achievements (ui w')
     = ["FIRST_FORGE"; "TEN_FORGES"; "FIRST_SALE"; "LEGENDARY_FORGE"].
Proof.
  intros w w'.
  assert (Hload : loadCommits w) by (intros k _; reflexivity).
  destruct (load_mirrors_the_store w Hload)
    as (Hb & Hm & Hs & _ & _ & _ & _ & _ & _ & Ha & _).
  fold w' in Hb, Hm, Hs, Ha. unfold balanceMirrored in Hm. rewrite Hb in Hm.
  split; [exact Hb|]. split; [exact Hm|]. split; [exact Hs|exact Ha].
Defined.

(** When one of the six requests of [fetchAppData] is rejected, nothing of
    what was read reaches the React state: the list, the balance, the
    settings, the achievement list and the bonus dialog stay as they were (on
    a first render: no item, balance 0, no settings), the error message
    "Failed to load app data." is shown and the loading flag is lowered.  The
    item and achievement stores are left as they were. *)
Theorem failed_load_shows_an_error_and_no_data (w : World) :
  ~ loadCommits w ->
  let w' := exec fetchAppData w in
  message (ui w')
  = Some {| msg_type := error; msg_text := "Failed to load app data." |}
  /\ isLoading (ui w') = false
  /\ put_message None (put_isLoading false (ui w'))
     = put_message None (put_isLoading false (ui w))
  /\ pokemonsStore (db w') = pokemonsStore (db w)
  /\ achievementsStore (db w') = achievementsStore (db w)
  /\ dailyBonusRow (settingsStore (db w')) = dailyBonusRow (settingsStore (db w)).
Proof.
  intros Hnot w'. subst w'. unfold fetchAppData. symex.
  destruct (transactionOutcome (env w) (txCount w)) as [e0|] eqn:H0; cbn; [done|].
  destruct (transactionOutcome (env w) (S (txCount w))) as [e1|] eqn:H1; cbn;
    (destruct (transactionOutcome (env w) (S (S (txCount w)))) as [e2|] eqn:H2; cbn);
    (destruct (tokenBalanceRow (settingsStore (db w))) as [balance|] eqn:Hrow1; cbn);
    (destruct (transactionOutcome (env w) (S (S (S (txCount w))))) as [e3|] eqn:H3; cbn);
    (destruct (transactionOutcome (env w) (S (S (S (S (txCount w)))))) as [e4|] eqn:H4;
     cbn);
    (destruct (transactionOutcome (env w) (S (S (S (S (S (txCount w))))))) as [e5|] eqn:H5;
     [cbn|
      first
        [ exfalso; apply Hnot; intros k Hk;
          assert (Hcases : k = txCount w \/ k = S (txCount w) \/ k = S (S (txCount w))
                           \/ k = S (S (S (txCount w)))
                           \/ k = S (S (S (S (txCount w))))
                           \/ k = S (S (S (S (S (txCount w)))))) by lia;
          destruct Hcases as [->|[->|[->|[->|[->| ->]]]]]; assumption
        | cbn ]]);
    (destruct (playerSettingsRow (settingsStore (db w))) as [playerSettings|] eqn:Hrow2;
     cbn).
  all: rewrite ?Hrow1, ?Hrow2.
  all: repeat split.
  all: done.
Qed.

Lemma failed_load_shows_an_error_and_no_data_witness :
  let w := initialWorld (stormyEnvironment [3%nat] (fetchOutcome calmEnvironment))
             emptyDatabase in
  let w' := exec fetchAppData w in
  tokenBalance (ui w') = 0 /\ pokemons (ui w') = [] /\ settings (ui w') = None
  /\ message (ui w')
     = Some {| msg_type := error; msg_text := "Failed to load app data." |}.
Proof.
  intros w w'.
  assert (Hnot : ~ loadCommits w).
  { intros H. specialize (H 3%nat). cbn in H. discriminate H. lia. }
  destruct (failed_load_shows_an_error_and_no_data w Hnot) as (Hm & _ & Hu & _).
  fold w' in Hm, Hu.
  pose proof (f_equal tokenBalance Hu) as Hb. pose proof (f_equal pokemons Hu) as Hl.
  pose proof (f_equal settings Hu) as Hs. cbn in Hb, Hl, Hs.
  split; [exact Hb|]. split; [exact Hl|]. split; [exact Hs|exact Hm].
Defined.

(** ** Sessions *)

Lemma replacePokemon_ids (updated : Pokemon.t) (l : list Pokemon.t) :
  Pokemon.id <$> replacePokemon updated l = Pokemon.id <$> l.
Proof.
  unfold replacePokemon. rewrite <- list_fmap_compose. apply list_fmap_ext.
  intros i q _. cbn. by destruct (String.eqb_spec (Pokemon.id q) (Pokemon.id updated)).
Qed.

Lemma sorted_with_new (p : Pokemon.t) (l : list Pokemon.t) :
  insertByGeneratedAt p (foldr insertByGeneratedAt [] l) ≡ₚ p :: l.
Proof.
  rewrite insertByGeneratedAt_Permutation. apply Permutation_skip.
  apply sortByGeneratedAt_Permutation.
Qed.

Lemma collectionStep_of (w w' : World) :
  env w' = env w ->
  (pokemonsStore (db w') = pokemonsStore (db w)
   \/ exists u, pokemonsStore (db w') = <[Pokemon.id u := u]> (pokemonsStore (db w))) ->
  (Pokemon.id <$> pokemons (ui w') = Pokemon.id <$> pokemons (ui w)
   \/ exists p, pokemonsStore (db w) !! Pokemon.id p = None
                /\ pokemonsStore (db w') = <[Pokemon.id p := p]> (pokemonsStore (db w))
                /\ pokemons (ui w') ≡ₚ p :: pokemons (ui w)) ->
  (achievements (ui w') = achievements (ui w)
   \/ exists cur ps news,
        Forall (freshUnlock cur ps) news
        /\ achievements (ui w') = mergeUnlocked news (achievements (ui w))) ->
  collectionStep w w'.
Proof.
  intros He Hstore Hlist Hach. split; [done|]. split; [|split; [|split]].
  - intros k Hk. destruct Hstore as [->|(u & ->)]; [done|].
    apply lookup_insert_is_Some'. by right.
  - intros Hkeyed. destruct Hstore as [Hs|(u & Hs)]; unfold keyedById in *; rewrite Hs;
      [done|].
    intros k q. destruct (decide (Pokemon.id u = k)) as [<-|Hne].
    + rewrite lookup_insert_eq. by intros [= <-].
    + rewrite lookup_insert_ne by done. apply Hkeyed.
  - destruct Hlist as [Hl|(p & Hnone & Hs & Hl)]; [by left|]. right. exists p.
    split; [done|]. split; [|done]. rewrite Hs, lookup_insert_eq. by eexists.
  - unfold listsAllAchievements. intros Hall.
    destruct Hach as [->|(cur & ps & news & Hnews & ->)]; [done|].
    by eapply merged_lists_all.
Qed.

Ltac close_step :=
  apply collectionStep_of; cbn;
  [ done
  | first [ by left
          | match goal with
            | |- context [<[_ := ?u]> _] => right; exists u; reflexivity
            end ]
  | first [ by left | left; by rewrite ?replacePokemon_ids ]
  | by left ].

Ltac close_step_after_evaluation He Hp Hl Hach :=
  apply collectionStep_of; cbn; rewrite ?He, ?Hp, ?Hl; cbn;
  [ done
  | first [ by left
          | match goal with
            | |- context [<[_ := ?u]> _] => right; exists u; reflexivity
            end ]
  | first [ by left
          | left; by rewrite ?replacePokemon_ids
          | right; eexists; split; [eassumption|]; split; [reflexivity|];
            apply sorted_with_new ]
  | destruct Hach as [Hsame|(news & Hnews & Hmerged)];
    [ left; by rewrite Hsame
    | right; eexists _, _, news; split; [exact Hnews|]; by rewrite Hmerged ] ].

Lemma generate_collectionStep (w : World) :
  collectionStep w (exec (handleGeneratePokemon (ui w)) w).
Proof.
  unfold exec, handleGeneratePokemon.
  destruct (tokenBalance (ui w) <? GENERATION_COST)%Z; [symex; close_step|].
  symex.
  destruct (transactionOutcome (env w) (txCount w)) as [e0|]; cbn.
  { destruct (transactionOutcome (env w) (S (txCount w))) as [e1|]; cbn; close_step. }
  match goal with
  | |- context [pokemonApiService.generatePokemon ?W] =>
      destruct (generatePokemon_frame W) as (r & c & ->)
  end.
  destruct r as [p|e]; cbn.
  2: { destruct (transactionOutcome (env w) (S (txCount w))) as [e1|]; cbn; close_step. }
  destruct (transactionOutcome (env w) (S (txCount w))) as [e1|]; cbn.
  { destruct (transactionOutcome (env w) (S (S (txCount w)))) as [e2|]; cbn; close_step. }
  destruct (pokemonsStore (db w) !! Pokemon.id p) as [q|] eqn:Hkey; cbn.
  { destruct (transactionOutcome (env w) (S (S (txCount w)))) as [e2|]; cbn; close_step. }
  through_evaluation Hev r w1.
  destruct Hev as (He & Hp & _ & Hu & _ & _ & _ & _ & _ & Hach).
  pose proof (f_equal pokemons Hu) as Hl. cbn in Hl.
  destruct r as [[]|e]; cbn.
  - close_step_after_evaluation He Hp Hl Hach.
  - unfold indexedDbService.withTransaction; cbn. rewrite He.
    destruct (transactionOutcome (env w) (txCount w1)) as [e2|]; cbn;
      close_step_after_evaluation He Hp Hl Hach.
Qed.

Lemma resell_collectionStep (pokemon : Pokemon.t) (w : World) :
  collectionStep w
    (exec (resellOnConfirm (ui w) pokemon) (with_ui (put_isModalOpen true) w)).
Proof.
  unfold exec, resellOnConfirm. symex.
  destruct (transactionOutcome (env w) (txCount w)) as [e0|]; cbn; [close_step|].
  destruct (transactionOutcome (env w) (S (txCount w))) as [e1|]; cbn; [close_step|].
  through_evaluation Hev r w1.
  destruct Hev as (He & Hp & _ & Hu & _ & _ & _ & _ & _ & Hach).
  pose proof (f_equal pokemons Hu) as Hl. cbn in Hl.
  destruct r as [[]|e]; cbn; close_step_after_evaluation He Hp Hl Hach.
Qed.

Lemma buy_collectionStep (pokemon : Pokemon.t) (w : World) :
  collectionStep w (exec (handleBuyPokemon (ui w) pokemon) w).
Proof.
  unfold exec, handleBuyPokemon.
  destruct (tokenBalance (ui w) <? getBuyPrice (Pokemon.rarity pokemon))%Z;
    [symex; close_step|].
  symex.
  destruct (transactionOutcome (env w) (txCount w)) as [e0|]; cbn; [close_step|].
  destruct (transactionOutcome (env w) (S (txCount w))) as [e1|]; cbn; close_step.
Qed.

Lemma toggle_favorite_collectionStep (pokemonId : string) (w : World) :
  collectionStep w (exec (handleToggleFavorite (ui w) pokemonId) w).
Proof.
  unfold exec, handleToggleFavorite.
  destruct (find (fun p => Pokemon.id p =? pokemonId) (pokemons (ui w)))
    as [pokemon|] eqn:Hfind; [|close_step].
  apply find_id_Some in Hfind as [_ <-]. symex.
  destruct (transactionOutcome (env w) (txCount w)) as [e0|]; cbn; [close_step|].
  apply collectionStep_of; cbn; [done|right; by eexists (Pokemon.with_isFavorite _ _)| |by left].
  left. apply (replacePokemon_ids
                 (Pokemon.with_isFavorite pokemon (negb (Pokemon.isFavorite pokemon)))).
Qed.

Lemma perform_collectionStep (a : Action) (w : World) :
  collectionStep w (exec (perform a) w).
Proof.
  rewrite exec_perform. destruct a as [[|pokemon|pokemon]|pokemonId| | |].
  - rewrite exec_dispatch. apply generate_collectionStep.
  - rewrite exec_dispatch. apply resell_collectionStep.
  - rewrite exec_dispatch. apply buy_collectionStep.
  - apply toggle_favorite_collectionStep.
  - unfold exec, handleToggleTheme. destruct (settings (ui w)) as [s|]; [|close_step].
    symex. destruct (transactionOutcome (env w) (txCount w)) as [e0|]; cbn; close_step.
  - unfold exec, handleToggleMute. destruct (settings (ui w)) as [s|]; [|close_step].
    symex. destruct (transactionOutcome (env w) (txCount w)) as [e0|]; cbn; close_step.
  - unfold exec, handleClaimDailyBonus. symex.
    destruct (transactionOutcome (env w) (txCount w)) as [e0|]; cbn; [close_step|].
    destruct (transactionOutcome (env w) (S (txCount w))) as [e1|]; cbn; close_step.
Qed.

Lemma collectionStep_consistent (w w' : World) :
  collectionStep w w' -> collectionConsistent w -> collectionConsistent w'.
Proof.
  intros (_ & Hgrow & _ & Hlist & _) (Hnd & Hstored). unfold collectionConsistent.
  destruct Hlist as [Hids|(p & Hnone & Hsome & Hperm)].
  - rewrite Hids. split; [done|]. intros id Hid. by apply Hgrow, Hstored.
  - split.
    + rewrite Hperm, fmap_cons. apply NoDup_cons. split; [|done]. intros Hin%Hstored.
      rewrite Hnone in Hin. by destruct Hin.
    + intros id Hid. rewrite Hperm, fmap_cons in Hid.
      apply elem_of_cons in Hid as [->|Hin]; [done|]. by apply Hgrow, Hstored.
Qed.

Lemma session_collectionStep (actions : list Action) (w : World) (P : World -> Prop) :
  (forall v v', collectionStep v v' -> P v -> P v') ->
  P w -> P (session actions w).
Proof.
  intros Hstep. revert w. induction actions as [|a actions IH]; intros w Hw; [done|].
  cbn. apply IH. eapply Hstep; [apply perform_collectionStep|done].
Qed.

(** Whatever the store and the endpoint answer, and whatever the user does
    (generations, resales, purchases, favourite, theme and sound toggles,
    bonus claims), the collection in memory keeps pairwise distinct ids, each
    of which is the key of a stored item, and the store stays keyed by id. *)
Theorem collection_ids_stay_distinct_and_stored (actions : list Action) (w : World) :
  collectionConsistent w ->
  keyedById (db w) ->
  collectionConsistent (session actions w) /\ keyedById (db (session actions w)).
Proof.
  intros Hcons Hkeyed.
  apply (session_collectionStep actions w
           (fun v => collectionConsistent v /\ keyedById (db v))); [|done].
  intros v v' Hstep [Hc Hk]. split; [by eapply collectionStep_consistent|].
  destruct Hstep as (_ & _ & Hkeep & _). by apply Hkeep.
Qed.

Lemma collection_ids_stay_distinct_and_stored_witness :
  let w := session [Do Generate; Do Generate; ToggleFavorite "mon-0"; Do (Resell firstForgemon)]
             (loadedWorld interruptedEnvironment) in
  NoDup (Pokemon.id <$> pokemons (ui w)).
Proof.
  intros w.
  assert (Hcons : collectionConsistent (loadedWorld interruptedEnvironment)).
  { replace (pokemons (ui (loadedWorld interruptedEnvironment))) with (@nil Pokemon.t)
      by (vm_compute; reflexivity).
    unfold collectionConsistent.
    replace (pokemons (ui (loadedWorld interruptedEnvironment))) with (@nil Pokemon.t)
      by (vm_compute; reflexivity).
    split; [constructor|]. by intros id Hid%elem_of_nil. }
  assert (Hkeyed : keyedById (db (loadedWorld interruptedEnvironment))).
  { intros k p.
    replace (pokemonsStore (db (loadedWorld interruptedEnvironment)))
      with (∅ : gmap string Pokemon.t) by (vm_compute; reflexivity).
    by rewrite lookup_empty. }
  by destruct (collection_ids_stay_distinct_and_stored
                 [Do Generate; Do Generate; ToggleFavorite "mon-0";
                  Do (Resell firstForgemon)] _ Hcons Hkeyed) as ((H & _) & _).
Defined.








(** The achievement list in memory, once it names the four definitions in
    their order (as it does after a load), names them in that order after
    every action, whatever the store and the endpoint answer: evaluations
    replace records in place and never add or drop one. *)
Theorem achievement_list_stays_the_four (actions : list Action) (w : World) :
  listsAllAchievements (ui w) -> listsAllAchievements (ui (session actions w)).
Proof.
  intros Hall.
  apply (session_collectionStep actions w (fun v => listsAllAchievements (ui v)));
    [|done].
  intros v v' (_ & _ & _ & _ & Hkeep) Hv. by apply Hkeep.
Qed.

Lemma achievement_list_stays_the_four_witness :
  let w := session [Do Generate; Do (Resell firstForgemon); ClaimDailyBonus]
             (loadedWorld interruptedEnvironment) in
  Achievement.id <$> achievements (ui w)
  = ["FIRST_FORGE"; "TEN_FORGES"; "FIRST_SALE"; "LEGENDARY_FORGE"].
Proof.
  intros w.
  assert (Hall : listsAllAchievements (ui (loadedWorld interruptedEnvironment)))
    by (vm_compute; reflexivity).
  exact (achievement_list_stays_the_four
           [Do Generate; Do (Resell firstForgemon); ClaimDailyBonus] _ Hall).
Defined.

(** *** The balance when every request commits *)

Lemma perform_balanceMirrored (a : Action) (w : World) :
  everyRequestCommits (env w) -> balanceMirrored w ->
  balanceMirrored (exec (perform a) w).
Proof.
  intros Hc Hm. unfold balanceMirrored, persistedBalance in *. rewrite exec_perform.
  destruct a as [[|pokemon|pokemon]|pokemonId| | |]; rewrite ?exec_dispatch.
  - unfold exec, handleGeneratePokemon.
    destruct (tokenBalance (ui w) <? GENERATION_COST)%Z; [by symex|].
    symex. rewrite (Hc _). cbn.
    match goal with
    | |- context [pokemonApiService.generatePokemon ?W] =>
        destruct (generatePokemon_frame W) as (r & c & ->)
    end.
    destruct r as [p|e]; cbn; rewrite (Hc _); cbn; [|done].
    destruct (pokemonsStore (db w) !! Pokemon.id p) as [q|]; cbn;
      [rewrite (Hc _); by cbn|].
    through_evaluation Hev r w1.
    destruct Hev as (He & _ & Hs & Hu & _).
    pose proof (f_equal tokenBalance Hu) as Hb. cbn in Hb.
    destruct r as [[]|e]; cbn; [by rewrite Hs, Hb|].
    unfold indexedDbService.withTransaction; cbn. rewrite He, (Hc _). by cbn.
  - unfold exec, resellOnConfirm. symex. rewrite (Hc _). cbn. rewrite (Hc _). cbn.
    through_evaluation Hev r w1.
    destruct Hev as (He & _ & Hs & Hu & _).
    pose proof (f_equal tokenBalance Hu) as Hb. cbn in Hb.
    destruct r as [[]|e]; cbn; by rewrite Hs, Hb.
  - unfold exec, handleBuyPokemon.
    destruct (tokenBalance (ui w) <? getBuyPrice (Pokemon.rarity pokemon))%Z; [by symex|].
    symex. rewrite (Hc _). cbn. rewrite (Hc _). by cbn.
  - unfold exec, handleToggleFavorite.
    destruct (find (fun p => Pokemon.id p =? pokemonId) (pokemons (ui w))); [|done].
    symex. rewrite (Hc _). by cbn.
  - unfold exec, handleToggleTheme. destruct (settings (ui w)); [|done].
    symex. rewrite (Hc _). by cbn.
  - unfold exec, handleToggleMute. destruct (settings (ui w)); [|done].
    symex. rewrite (Hc _). by cbn.
  - unfold exec, handleClaimDailyBonus. symex. rewrite (Hc _). cbn. rewrite (Hc _).
    by cbn.
Qed.

(** When every request commits, the balance in memory and the persisted
    balance agree after every action, whatever the endpoint answers: a
    generation that fails is refunded in both, a resale, a purchase and a
    bonus claim are booked in both. *)
Theorem balance_is_mirrored_when_requests_commit (actions : list Action) (w : World) :
  everyRequestCommits (env w) ->
  balanceMirrored w ->
  balanceMirrored (session actions w).
Proof.
  revert w. induction actions as [|a actions IH]; intros w Hc Hm; [done|].
  cbn. apply IH.
  - destruct (perform_collectionStep a w) as (He & _). by rewrite He.
  - by apply perform_balanceMirrored.
Qed.

Lemma balance_is_mirrored_when_requests_commit_witness :
  let w := session [Do Generate; ClaimDailyBonus; Do (Resell firstForgemon);
                    Do (Buy (Pokemon.with_status firstForgemon RESOLD))]
             (loadedWorld calmEnvironment) in
  persistedBalance w = Some (tokenBalance (ui w)).
Proof.
  intros w.
  assert (Hc : everyRequestCommits (env (loadedWorld calmEnvironment)))
    by (intros k; reflexivity).
  assert (Hm : balanceMirrored (loadedWorld calmEnvironment)) by (vm_compute; reflexivity).
  exact (balance_is_mirrored_when_requests_commit _ _ Hc Hm).
Defined.

(** ** Generation: the item *)

Lemma evaluation_resolves (ps : list Pokemon.t) (cur : list Achievement.t) (w : World) :
  commitsFrom (env w) (txCount w) ->
  outcome (checkAndUnlockAchievements ps cur) w = Resolved tt.
Proof.
  intros Hcommit.
  pose proof (unlockLoop_commits ALL_ACHIEVEMENTS ps cur [] w Hcommit
                ALL_ACHIEVEMENTS_NoDup) as Hloop.
  cbn zeta in Hloop. destruct Hloop as (news & Hout & _).
  unfold checkAndUnlockAchievements, outcome, bind in *.
  destruct (unlockLoop ALL_ACHIEVEMENTS ps cur [] w) as [r w1]. cbn in Hout. subst r.
  cbn. by destruct news.
Qed.

(** A generation the balance covers, with every request committing and the
    endpoint answering with an item whose id is not in the store: the item is
    stored, the list in memory is the list of the render with the item
    added, most recent first, the balance is the balance of the render minus
    the generation cost in memory and in the store, and the message shown at
    the end is the one that names the item (it replaces the messages of the
    achievements unlocked on the way). *)
Theorem generation_adds_the_item (snap : UiState) (w : World) (p : Pokemon.t) :
  GENERATION_COST <= tokenBalance snap ->
  everyRequestCommits (env w) ->
  outcome pokemonApiService.generatePokemon w = Resolved p ->
  pokemonsStore (db w) !! Pokemon.id p = None ->
  let w' := exec (handleGeneratePokemon snap) w in
  outcome (handleGeneratePokemon snap) w = Resolved tt
  /\ pokemonsStore (db w') = <[Pokemon.id p := p]> (pokemonsStore (db w))
  /\ persistedBalance w' = Some (tokenBalance snap - GENERATION_COST)
  /\ tokenBalance (ui w') = tokenBalance snap - GENERATION_COST
  /\ pokemons (ui w') ≡ₚ p :: pokemons snap
  /\ newestFirst (pokemons (ui w'))
  /\ message (ui w')
     = Some {| msg_type := success;
               msg_text := "Nouveau Pokémon généré : " ++ Pokemon.name p ++ " !" |}
  /\ isGeneratingPokemon (ui w') = false.
Proof.
  intros Hfunds Hc Hp Hfresh w'. subst w'. unfold handleGeneratePokemon.
  destruct (Z.ltb_spec (tokenBalance snap) GENERATION_COST) as [?|_]; [lia|].
  assert (Hperm : sortByGeneratedAt (p :: pokemons snap) ≡ₚ p :: pokemons snap)
    by apply sortByGeneratedAt_Permutation.
  assert (Hsorted : newestFirst (sortByGeneratedAt (p :: pokemons snap)))
    by apply sortByGeneratedAt_newestFirst.
  symex. rewrite (Hc _). cbn.
  match goal with
  | |- context [pokemonApiService.generatePokemon ?W] =>
      destruct (generatePokemon_frame W) as (r & c & Hg);
      pose proof (generatePokemon_outcome w W eq_refl) as Hout;
      unfold outcome in Hout; rewrite Hg in Hout |- *; cbn [fst] in Hout
  end.
  unfold outcome in Hp. rewrite Hp in Hout. subst r. cbn.
  rewrite (Hc _). cbn. rewrite Hfresh. cbn.
  match goal with
  | |- context [checkAndUnlockAchievements ?ps ?cur ?W] =>
      assert (HcW : commitsFrom (env W) (txCount W)) by (intros k _; apply Hc);
      pose proof (evaluation_resolves ps cur W HcW) as Hres;
      pose proof (checkAndUnlockAchievements_spec ps cur W) as Hev;
      unfold exec, outcome in Hev, Hres; cbn zeta in Hev;
      destruct (checkAndUnlockAchievements ps cur W) as [r w1];
      cbn in Hev, Hres; subst r
  end.
  destruct Hev as (_ & Hstore & Hs & Hu & _).
  pose proof (f_equal tokenBalance Hu) as Hb. pose proof (f_equal pokemons Hu) as Hl.
  cbn in Hb, Hl. unfold persistedBalance. cbn. rewrite Hstore, Hs, Hb, Hl. cbn.
  by repeat split.
Qed.

Lemma generation_adds_the_item_witness :
  let w := loadedWorld calmEnvironment in
  let w' := exec (handleGeneratePokemon (ui w)) w in
  pokemonsStore (db w') = <[ "mon-0" := firstForgemon ]> (pokemonsStore (db w))
  /\ tokenBalance (ui w') = 90.
Proof.
  intros w w'.
  assert (Hb : tokenBalance (ui w) = 100) by (vm_compute; reflexivity).
  assert (Hfunds : GENERATION_COST <= tokenBalance (ui w)) by (rewrite Hb; by vm_compute).
  assert (Hc : everyRequestCommits (env w)) by (intros k; reflexivity).
  assert (Hp : outcome pokemonApiService.generatePokemon w = Resolved firstForgemon)
    by (vm_compute; reflexivity).
  assert (Hfresh : pokemonsStore (db w) !! Pokemon.id firstForgemon = None)
    by (vm_compute; reflexivity).
  destruct (generation_adds_the_item (ui w) w firstForgemon Hfunds Hc Hp Hfresh)
    as (_ & Hs & _ & Hm & _).
  fold w' in Hs, Hm. rewrite Hb in Hm. split; [exact Hs|exact Hm].
Defined.

(** The first achievement write of an evaluation, rejected. *)
Lemma first_forge_write_rejected (ps : list Pokemon.t) (cur : list Achievement.t)
    (w : World) (e : JsError) :
  alreadyUnlocked "FIRST_FORGE" cur = false ->
  (1 <= length ps)%nat ->
  transactionOutcome (env w) (txCount w) = Some e ->
  exists w1,
    checkAndUnlockAchievements ps cur w = (Rejected e, w1)
    /\ env w1 = env w /\ db w1 = db w /\ ui w1 = ui w /\ console w1 = console w
    /\ txCount w1 = S (txCount w).
Proof.
  intros Hlocked Hlen Hreject.
  unfold checkAndUnlockAchievements, ALL_ACHIEVEMENTS, bind.
  cbn [unlockLoop AchievementDef.id]. rewrite Hlocked.
  assert (Hsh : shouldUnlock "FIRST_FORGE" ps = true)
    by (unfold shouldUnlock; cbn -[Nat.leb]; by apply Nat.leb_le).
  rewrite Hsh. symex. rewrite Hreject. cbn. by eexists.
Qed.

(** A first generation whose item is stored and whose first achievement
    write is then rejected: the [catch] block restores the balance of the
    render, in memory and (the compensating write committing) in the store,
    and reports the failure, while the item stays in the store and in the
    list in memory.  The item has been obtained without paying for it. *)
Theorem rejected_achievement_write_refunds_a_kept_item (snap : UiState) (w : World)
    (p : Pokemon.t) (e : JsError) :
  GENERATION_COST <= tokenBalance snap ->
  alreadyUnlocked "FIRST_FORGE" (achievements snap) = false ->
  outcome pokemonApiService.generatePokemon w = Resolved p ->
  pokemonsStore (db w) !! Pokemon.id p = None ->
  transactionOutcome (env w) (txCount w) = None ->
  transactionOutcome (env w) (S (txCount w)) = None ->
  transactionOutcome (env w) (S (S (txCount w))) = Some e ->
  transactionOutcome (env w) (S (S (S (txCount w)))) = None ->
  let w' := exec (handleGeneratePokemon snap) w in
  outcome (handleGeneratePokemon snap) w = Resolved tt
  /\ pokemonsStore (db w') !! Pokemon.id p = Some p
  /\ pokemons (ui w') ≡ₚ p :: pokemons snap
  /\ persistedBalance w' = Some (tokenBalance snap)
  /\ tokenBalance (ui w') = tokenBalance snap
  /\ message (ui w') = Some (refundMessage e)
  /\ achievementsStore (db w') = achievementsStore (db w)
  /\ achievements (ui w') = achievements (ui w).
Proof.
  intros Hfunds Hlocked Hp Hfresh Hdebit Hadd Hreject Hcredit w'. subst w'.
  unfold handleGeneratePokemon, refundMessage.
  destruct (Z.ltb_spec (tokenBalance snap) GENERATION_COST) as [?|_]; [lia|].
  assert (Hperm : sortByGeneratedAt (p :: pokemons snap) ≡ₚ p :: pokemons snap)
    by apply sortByGeneratedAt_Permutation.
  assert (Hlen : (1 <= length (sortByGeneratedAt (p :: pokemons snap)))%nat)
    by (rewrite sortByGeneratedAt_length; cbn; lia).
  symex. rewrite Hdebit. cbn.
  match goal with
  | |- context [pokemonApiService.generatePokemon ?W] =>
      destruct (generatePokemon_frame W) as (r & c & Hg);
      pose proof (generatePokemon_outcome w W eq_refl) as Hout;
      unfold outcome in Hout; rewrite Hg in Hout |- *; cbn [fst] in Hout
  end.
  unfold outcome in Hp. rewrite Hp in Hout. subst r. cbn.
  rewrite Hadd. cbn. rewrite Hfresh. cbn.
  match goal with
  | |- context [checkAndUnlockAchievements ?ps ?cur ?W] =>
      destruct (first_forge_write_rejected ps cur W e Hlocked Hlen Hreject)
        as (w1 & -> & He & Hd & Hu & _ & Ht)
  end.
  cbn. unfold indexedDbService.withTransaction. cbn. rewrite He, Ht. cbn.
  rewrite Hcredit. cbn. unfold persistedBalance. cbn. rewrite Hd, Hu. cbn.
  rewrite lookup_insert_eq. by repeat split.
Qed.

Lemma rejected_achievement_write_refunds_a_kept_item_witness :
  let w := loadedWorld (stormyEnvironment [8%nat] (fetchOutcome calmEnvironment)) in
  let w' := exec (handleGeneratePokemon (ui w)) w in
  tokenBalance (ui w) = 100 /\ tokenBalance (ui w') = 100
  /\ persistedBalance w' = Some 100
  /\ pokemonsStore (db w') !! "mon-0" = Some firstForgemon.
Proof.
  intros w w'.
  assert (Hb : tokenBalance (ui w) = 100) by (vm_compute; reflexivity).
  assert (Hfunds : GENERATION_COST <= tokenBalance (ui w)) by (rewrite Hb; by vm_compute).
  assert (Hlocked : alreadyUnlocked "FIRST_FORGE" (achievements (ui w)) = false)
    by (vm_compute; reflexivity).
  assert (Hp : outcome pokemonApiService.generatePokemon w = Resolved firstForgemon)
    by (vm_compute; reflexivity).
  assert (Hfresh : pokemonsStore (db w) !! Pokemon.id firstForgemon = None)
    by (vm_compute; reflexivity).
  destruct (rejected_achievement_write_refunds_a_kept_item (ui w) w firstForgemon
              QuotaExceededError Hfunds Hlocked Hp Hfresh eq_refl eq_refl eq_refl eq_refl)
    as (_ & Hs & _ & Hpb & Hm & _).
  fold w' in Hs, Hpb, Hm. rewrite Hb in Hpb, Hm.
  split; [exact Hb|]. split; [exact Hm|]. split; [exact Hpb|exact Hs].
Defined.
